(** * stream-llm: Server-Sent Events sessions, buffers and channels

    A shallow embedding of [src/EventBuffer.ts], [src/Session.ts],
    [src/Channel.ts], [src/utils/serialize.ts], [src/utils/sanitize.ts],
    [src/utils/TypedEmitter.ts] and [src/utils/applyHeaders.ts], with the
    properties of the wire framing, the session life cycle, the channel
    registry, the emitter and the header copy stated over it.

    Conventions of the embedding.
    - JavaScript text is a [string]; the line feed and carriage return are
      the characters [LF] and [CR].
    - A JavaScript value handed to [push] is a [JsVal]; numbers are the
      integer-valued ones.
    - A call that may throw returns a [Completion]; mutations made before a
      throw are kept, as in the source.
    - Objects with identity (sessions, channels) live in a [World] and are
      named by their key there; a [Set] of sessions is the list of its keys
      in insertion order.
    - [crypto.randomUUID()] is an argument of the call that draws it.
    - User listeners are passive: every [emit] of a session or a channel
      is recorded in the [emitted] log of the emitter; the only listener
      with behaviour is the one [Channel.register] installs. The emitter
      class itself, with its sets of listeners, is the module
      [TypedEmitter].
    - An iterable is the finite list of its items, a readable stream the
      list of its chunks and the way it ends; a call runs to its end before
      the next one starts, as the single-threaded scheduler has it for
      synchronous code and as callers are asked to ensure across awaits.
      The callback of [batch] is the exception: [Session.batch] takes the
      stretches of a suspended callback and what ran on the session between
      them. *)

From Stdlib Require Import ZArith String Ascii List DecimalString DecimalZ
  DecimalPos Lia.
From stdpp Require Import base option list gmap strings.

Set Warnings "-register-all".
Local Open Scope Z_scope.

(** ** Text *)

Definition LF : ascii := "010"%char.
Definition CR : ascii := "013"%char.
Definition DQ : ascii := "034"%char.
Definition BSLASH : ascii := "092"%char.

Definition nl : string := String LF EmptyString.

(** [`${n}`] for an integer-valued number. *)
Definition dec (z : Z) : string := NilZero.string_of_int (Z.to_int z).

(** [n] is a natural number printed in decimal, as in [`${index}`]. *)
Definition decn (n : nat) : string := dec (Z.of_nat n).

(** [s.split("\n")]: never empty, one entry more than there are line feeds. *)
Fixpoint split_lf (s : string) : list string :=
  match s with
  | EmptyString => [EmptyString]
  | String c r =>
      if Ascii.eqb c LF then EmptyString :: split_lf r
      else match split_lf r with
           | l :: ls => String c l :: ls
           | [] => [String c EmptyString]
           end
  end.

(** [s.replace(/\r\n/g, "\n")]. *)
Fixpoint replace_crlf (s : string) : string :=
  match s with
  | EmptyString => EmptyString
  | String c t =>
      match t with
      | String c2 r =>
          if Ascii.eqb c CR && Ascii.eqb c2 LF
          then String LF (replace_crlf r)
          else String c (replace_crlf t)
      | EmptyString => String c EmptyString
      end
  end.

(** [s.replace(/a/g, b)] for single characters [a] and [b]. *)
Fixpoint replace_char (a b : ascii) (s : string) : string :=
  match s with
  | EmptyString => EmptyString
  | String c r => String (if Ascii.eqb c a then b else c) (replace_char a b r)
  end.

(** [" ".repeat(n)]. *)
Fixpoint spaces (n : nat) : string :=
  match n with
  | O => EmptyString
  | S k => String " " (spaces k)
  end.

Fixpoint concat_strings (l : list string) : string :=
  match l with
  | [] => EmptyString
  | x :: r => x +:+ concat_strings r
  end.

Fixpoint join_strings (sep : string) (l : list string) : string :=
  match l with
  | [] => EmptyString
  | [x] => x
  | x :: r => x +:+ sep +:+ join_strings sep r
  end.

(** Truthiness of a string: [if (s)]. *)
Definition truthy (s : string) : bool :=
  match s with
  | EmptyString => false
  | String _ _ => true
  end.

(** ** JavaScript values, errors and completions *)

Inductive JsVal : Type :=
| JUndefined
| JNull
| JBool (b : bool)
| JNum (n : Z)
| JBigInt (n : Z)
| JStr (s : string)
| JFun (call : JsVal + JsVal)
| JSymbol
| JArr (items : list JsVal)
| JObj (fields : list (string * JsVal)).

(** [JNum n] is the number with the integer value [n], in the range where
    JavaScript prints a number as its decimal digits. [JFun call] is a
    function; [call] is what it does when [JSON.stringify] calls it as the
    [toJSON] method of an object: it returns [v] ([inl v]) or throws [v]
    ([inr v]). [JArr] is an array of its items and [JObj] a plain object,
    listing its own enumerable properties in enumeration order. What a
    hook or a [toJSON] method throws that is no error object of the
    program is [Raised v]. *)

Inductive Exn : Type :=
| SseError (message : string)
| TypeError (message : string)
| Raised (v : JsVal).

Inductive Completion (A : Type) : Type :=
| Normal (a : A)
| Throw (e : Exn).

Arguments Normal {A} a.
Arguments Throw {A} e.

Definition is_normal {A} (c : Completion A) : bool :=
  match c with
  | Normal _ => true
  | Throw _ => false
  end.

(** ** [JSON.stringify], the part of the platform that [serialize] calls *)

Module Json.

Definition hex_digit (n : nat) : ascii :=
  match n with
  | 0 => "0" | 1 => "1" | 2 => "2" | 3 => "3" | 4 => "4" | 5 => "5"
  | 6 => "6" | 7 => "7" | 8 => "8" | 9 => "9" | 10 => "a" | 11 => "b"
  | 12 => "c" | 13 => "d" | 14 => "e" | _ => "f"
  end%nat%char.

Definition escape_char (c : ascii) : string :=
  let n := nat_of_ascii c in
  if Ascii.eqb c DQ then String BSLASH (String DQ EmptyString)
  else if Ascii.eqb c BSLASH then String BSLASH (String BSLASH EmptyString)
  else if Nat.eqb n 8 then String BSLASH "b"
  else if Nat.eqb n 9 then String BSLASH "t"
  else if Nat.eqb n 10 then String BSLASH "n"
  else if Nat.eqb n 12 then String BSLASH "f"
  else if Nat.eqb n 13 then String BSLASH "r"
  else if Nat.ltb n 32 then
    String BSLASH
      (String "u" (String "0" (String "0"
         (String (hex_digit (Nat.div n 16))
            (String (hex_digit (Nat.modulo n 16)) EmptyString)))))
  else String c EmptyString.

Fixpoint escape (s : string) : string :=
  match s with
  | EmptyString => EmptyString
  | String c r => escape_char c +:+ escape r
  end.

Definition quote (s : string) : string :=
  String DQ (escape s +:+ String DQ EmptyString).

(** What serialising one value yields: text, nothing ([undefined], a
    function, a symbol), the [TypeError] for a BigInt, or what a [toJSON]
    method threw. *)
Inductive Out : Type :=
| Text (s : string)
| Omitted
| Failed
| Threw (v : JsVal).

(** The serialisation of one property value. An object with a [toJSON]
    method is replaced by what the method returns, and that is serialised
    without asking it for a [toJSON] of its own; [method] says whether the
    method is still to be looked for. Members are visited in order and the
    first failure ends the serialisation. *)
Fixpoint text (method : bool) (v : JsVal) : Out :=
  match v with
  | JUndefined | JFun _ | JSymbol => Omitted
  | JNull => Text "null"
  | JBool true => Text "true"
  | JBool false => Text "false"
  | JNum n => Text (dec n)
  | JBigInt _ => Failed
  | JStr s => Text (quote s)
  | JArr items =>
      let fix elems (l : list JsVal) : list string + Out :=
        match l with
        | [] => inl []
        | x :: r =>
            match text true x with
            | Text t => sum_map (cons t) id (elems r)
            | Omitted => sum_map (cons "null"%string) id (elems r)
            | bad => inr bad
            end
        end in
      match elems items with
      | inl ts => Text ("[" +:+ join_strings "," ts +:+ "]")
      | inr bad => bad
      end
  | JObj fields =>
      let fix toJSON (l : list (string * JsVal)) : option Out :=
        match l with
        | [] => None
        | (k, x) :: r =>
            if String.eqb k "toJSON"
            then match x with
                 | JFun (inl returned) => Some (text false returned)
                 | JFun (inr thrown) => Some (Threw thrown)
                 | _ => None
                 end
            else toJSON r
        end in
      let fix members (l : list (string * JsVal)) : list string + Out :=
        match l with
        | [] => inl []
        | (k, x) :: r =>
            match text true x with
            | Text t => sum_map (cons (quote k +:+ ":" +:+ t)) id (members r)
            | Omitted => members r
            | bad => inr bad
            end
        end in
      match (if method then toJSON fields else None) with
      | Some out => out
      | None =>
          match members fields with
          | inl ms => Text ("{" +:+ join_strings "," ms +:+ "}")
          | inr bad => bad
          end
      end
  end.

(** [JSON.stringify(v)]: a string, [undefined], or a throw, of the
    [TypeError] for a BigInt or of what a [toJSON] method threw. *)
Definition stringify (v : JsVal) : Completion JsVal :=
  match text true v with
  | Text s => Normal (JStr s)
  | Omitted => Normal JUndefined
  | Failed => Throw (TypeError "Do not know how to serialize a BigInt")
  | Threw thrown => Throw (Raised thrown)
  end.

End Json.

(** ** [utils/serialize.ts] and [utils/sanitize.ts] *)

Definition SerializerFunction : Type := JsVal -> Completion JsVal.
Definition SanitizerFunction : Type := JsVal -> Completion JsVal.

Definition serialize : SerializerFunction := fun data =>
  match data with
  | JStr _ => Normal data
  | _ => Json.stringify data
  end.

(** [data.replace(...)] exists on strings only; on any other value the
    member access or the call throws a [TypeError]. *)
Definition sanitize : SanitizerFunction := fun data =>
  match data with
  | JStr s => Normal (JStr (replace_char LF " " (replace_char CR LF (replace_crlf s))))
  | JUndefined | JNull => Throw (TypeError "Cannot read properties of undefined (reading 'replace')")
  | _ => Throw (TypeError "data.replace is not a function")
  end.

(** ** [EventBuffer.ts] *)

Module EventBuffer.

Record t : Type := mk {
  buffer : string;
  serializer : SerializerFunction;
  sanitizer : SanitizerFunction;
}.

Record Options : Type := mkOptions {
  opt_serializer : option SerializerFunction;
  opt_sanitizer : option SanitizerFunction;
}.

Definition create (options : Options) : t :=
  {| buffer := EmptyString;
     serializer := default serialize (opt_serializer options);
     sanitizer := default sanitize (opt_sanitizer options) |}.

(** [this.buffer += text]. *)
Definition append (text : string) (b : t) : t :=
  {| buffer := buffer b +:+ text;
     serializer := serializer b;
     sanitizer := sanitizer b |}.

(** The loop [for (const line of lines) this.buffer += `data: ${line}\n`]. *)
Fixpoint append_data (lines : list string) (b : t) : t :=
  match lines with
  | [] => b
  | line :: r => append_data r (append ("data: " +:+ line +:+ nl) b)
  end.

(** [push(data, eventName = "message", eventId = "")]. An omitted
    argument is [None]. *)
Definition push (data : JsVal) (eventName eventId : option string) (b : t)
  : t * Completion unit :=
  let eventName := default "message"%string eventName in
  let eventId := default EmptyString eventId in
  match serializer b data with
  | Throw e => (b, Throw e)
  | Normal serialized =>
      match sanitizer b serialized with
      | Throw e => (b, Throw e)
      | Normal sanitized =>
          let b1 := if truthy eventId
                    then append ("id: " +:+ eventId +:+ nl) b else b in
          let b2 := if truthy eventName && negb (String.eqb eventName "message")
                    then append ("event: " +:+ eventName +:+ nl) b1 else b1 in
          match sanitized with
          | JStr text =>
              let b3 := append_data (split_lf text) b2 in
              (append nl b3, Normal tt)
          | JUndefined | JNull =>
              (b2, Throw (TypeError "Cannot read properties of undefined (reading 'split')"))
          | _ => (b2, Throw (TypeError "sanitized.split is not a function"))
          end
      end
  end.

(** [comment(text = "")]. *)
Definition comment (text : option string) (b : t) : t :=
  append (": " +:+ default EmptyString text +:+ nl +:+ nl) b.

(** [retry(time)]. *)
Definition retry (time : Z) (b : t) : t :=
  append ("retry: " +:+ dec time +:+ nl +:+ nl) b.

Definition dispatch (b : t) : t := b.

Definition read (b : t) : string := buffer b.

Definition clear (b : t) : t :=
  {| buffer := EmptyString;
     serializer := serializer b;
     sanitizer := sanitizer b |}.

(** The event id an iteration gives to the item at [index]: prefixed and
    indexed, or the UUID drawn for that item. *)
Definition item_id (eventIdPrefix : string) (uuids : nat -> string)
    (index : nat) : string :=
  if truthy eventIdPrefix then eventIdPrefix +:+ "-" +:+ decn index
  else uuids index.

(** The loop of [iterate] over the items of a finite iterable. *)
Fixpoint iterate_from (items : list JsVal) (eventName eventIdPrefix : string)
    (uuids : nat -> string) (index : nat) (b : t) : t * Completion unit :=
  match items with
  | [] => (b, Normal tt)
  | value :: r =>
      let eventId := item_id eventIdPrefix uuids index in
      match push value (Some eventName) (Some eventId) b with
      | (b', Throw e) => (b', Throw e)
      | (b', Normal _) =>
          iterate_from r eventName eventIdPrefix uuids (S index) b'
      end
  end.

(** [iterate(iterable, {eventName = "message", eventIdPrefix = ""})]. *)
Definition iterate (items : list JsVal) (eventName eventIdPrefix : option string)
    (uuids : nat -> string) (b : t) : t * Completion unit :=
  iterate_from items (default "message"%string eventName)
    (default EmptyString eventIdPrefix) uuids 0%nat b.

(** The calls a [batch] callback makes on the buffer it is given. *)
Inductive Call : Type :=
| CPush (data : JsVal) (eventName eventId : option string)
| CComment (text : option string)
| CRetry (time : Z)
| CDispatch
| CIterate (items : list JsVal) (eventName eventIdPrefix : option string)
    (uuids : nat -> string).

Definition call (c : Call) (b : t) : t * Completion unit :=
  match c with
  | CPush data eventName eventId => push data eventName eventId b
  | CComment text => (comment text b, Normal tt)
  | CRetry time => (retry time b, Normal tt)
  | CDispatch => (dispatch b, Normal tt)
  | CIterate items eventName eventIdPrefix uuids =>
      iterate items eventName eventIdPrefix uuids b
  end.

(** A callback body: the calls in program order, stopping at a throw. *)
Fixpoint calls (cs : list Call) (b : t) : t * Completion unit :=
  match cs with
  | [] => (b, Normal tt)
  | c :: r =>
      match call c b with
      | (b', Throw e) => (b', Throw e)
      | (b', Normal _) => calls r b'
      end
  end.

End EventBuffer.

(** ** [adapters/Connection.ts]

    What a session sees of its transport: the request headers and query
    parameters it reads, the abort listener it attaches, and the calls it
    makes on the adapter, recorded in call order. *)

Module Connection.

(** [headers] is [request.headers], under the lower-case names the
    [Headers] class keeps; [searchParams] is [url.searchParams] in order;
    [abortListener] tells whether the session's "abort" listener is
    attached to [request.signal]; [heads], [chunks] and [cleanups] record
    the calls of [sendHead], [sendChunk] and [cleanup]. *)
Record t : Type := mk {
  headers : gmap string string;
  searchParams : list (string * string);
  abortListener : bool;
  heads : nat;
  chunks : list string;
  cleanups : nat;
}.

(** [request.headers.get(name)]. *)
Definition header_get (name : string) (c : t) : option string :=
  headers c !! name.

(** [url.searchParams.get(name)]: the first value under that name. *)
Fixpoint assoc_first (name : string) (l : list (string * string)) : option string :=
  match l with
  | [] => None
  | (k, v) :: r => if String.eqb k name then Some v else assoc_first name r
  end.

Definition param_get (name : string) (c : t) : option string :=
  assoc_first name (searchParams c).

(** [url.searchParams.has(name)]. *)
Definition param_has (name : string) (c : t) : bool :=
  match param_get name c with
  | Some _ => true
  | None => false
  end.

Definition set_abortListener (on : bool) (c : t) : t :=
  {| headers := headers c; searchParams := searchParams c;
     abortListener := on; heads := heads c; chunks := chunks c;
     cleanups := cleanups c |}.

Definition sendHead (c : t) : t :=
  {| headers := headers c; searchParams := searchParams c;
     abortListener := abortListener c; heads := S (heads c);
     chunks := chunks c; cleanups := cleanups c |}.

Definition sendChunk (chunk : string) (c : t) : t :=
  {| headers := headers c; searchParams := searchParams c;
     abortListener := abortListener c; heads := heads c;
     chunks := chunks c ++ [chunk]; cleanups := cleanups c |}.

Definition cleanup (c : t) : t :=
  {| headers := headers c; searchParams := searchParams c;
     abortListener := abortListener c; heads := heads c;
     chunks := chunks c; cleanups := S (cleanups c) |}.

End Connection.

(** [a ?? b]. *)
Definition nullish {A : Type} (a b : option A) : option A :=
  match a with
  | Some x => Some x
  | None => b
  end.

(** ** [Session.ts] *)

Module Session.

Inductive Event : Type :=
| Connected
| Disconnected
| Pushed (data : JsVal) (eventName eventId : string).

(** [SessionOptions]: an absent key is [None]; [retry: null] and
    [keepAlive: null] are [Some None]. *)
Record Options : Type := mkOptions {
  opt_trustClientEventId : option bool;
  opt_retry : option (option Z);
  opt_keepAlive : option (option Z);
  opt_serializer : option SerializerFunction;
  opt_sanitizer : option SanitizerFunction;
}.

Definition no_options : Options :=
  {| opt_trustClientEventId := None; opt_retry := None; opt_keepAlive := None;
     opt_serializer := None; opt_sanitizer := None |}.

(** The fields of a session; [keepAliveTimer] is [Some true] while the
    interval runs and [Some false] once cleared; [pendingInitialize] is
    the [setImmediate(this.initialize)] not yet run; [onceDisconnected]
    lists the channels whose one-time "disconnected" listener is attached,
    in registration order. *)
Record t : Type := mk {
  lastId : string;
  isConnected : bool;
  buffer : EventBuffer.t;
  connection : Connection.t;
  initialRetry : option Z;
  keepAliveInterval : option Z;
  keepAliveTimer : option bool;
  pendingInitialize : bool;
  onceDisconnected : list nat;
  emitted : list Event;
}.

Definition set_lastId (x : string) (s : t) : t :=
  mk x (isConnected s) (buffer s) (connection s) (initialRetry s)
    (keepAliveInterval s) (keepAliveTimer s) (pendingInitialize s)
    (onceDisconnected s) (emitted s).

Definition set_isConnected (x : bool) (s : t) : t :=
  mk (lastId s) x (buffer s) (connection s) (initialRetry s)
    (keepAliveInterval s) (keepAliveTimer s) (pendingInitialize s)
    (onceDisconnected s) (emitted s).

Definition set_buffer (x : EventBuffer.t) (s : t) : t :=
  mk (lastId s) (isConnected s) x (connection s) (initialRetry s)
    (keepAliveInterval s) (keepAliveTimer s) (pendingInitialize s)
    (onceDisconnected s) (emitted s).

Definition set_connection (x : Connection.t) (s : t) : t :=
  mk (lastId s) (isConnected s) (buffer s) x (initialRetry s)
    (keepAliveInterval s) (keepAliveTimer s) (pendingInitialize s)
    (onceDisconnected s) (emitted s).

Definition set_keepAliveTimer (x : option bool) (s : t) : t :=
  mk (lastId s) (isConnected s) (buffer s) (connection s) (initialRetry s)
    (keepAliveInterval s) x (pendingInitialize s)
    (onceDisconnected s) (emitted s).

Definition set_pendingInitialize (x : bool) (s : t) : t :=
  mk (lastId s) (isConnected s) (buffer s) (connection s) (initialRetry s)
    (keepAliveInterval s) (keepAliveTimer s) x
    (onceDisconnected s) (emitted s).

Definition set_onceDisconnected (x : list nat) (s : t) : t :=
  mk (lastId s) (isConnected s) (buffer s) (connection s) (initialRetry s)
    (keepAliveInterval s) (keepAliveTimer s) (pendingInitialize s)
    x (emitted s).

(** [this.emit(event, ...)] as seen by a passive listener. *)
Definition emit (e : Event) (s : t) : t :=
  mk (lastId s) (isConnected s) (buffer s) (connection s) (initialRetry s)
    (keepAliveInterval s) (keepAliveTimer s) (pendingInitialize s)
    (onceDisconnected s) (emitted s ++ [e]).

(** The resumption hint the constructor reads. *)
Definition client_hint (c : Connection.t) : string :=
  default EmptyString
    (nullish (Connection.header_get "last-event-id" c)
       (nullish (Connection.param_get "lastEventId" c)
          (Connection.param_get "evs_last_event_id" c))).

(** The constructor, from the connection adapter chosen for the
    transport. *)
Definition create (c : Connection.t) (options : Options) : t :=
  {| lastId :=
       match opt_trustClientEventId options with
       | Some false => EmptyString
       | _ => client_hint c
       end;
     isConnected := false;
     buffer :=
       EventBuffer.create
         {| EventBuffer.opt_serializer :=
              Some (default serialize (opt_serializer options));
            EventBuffer.opt_sanitizer :=
              Some (default sanitize (opt_sanitizer options)) |};
     connection := Connection.set_abortListener true c;
     initialRetry :=
       match opt_retry options with
       | Some None => None
       | Some (Some n) => Some n
       | None => Some 2000
       end;
     keepAliveInterval :=
       match opt_keepAlive options with
       | Some None => None
       | Some (Some n) => Some n
       | None => Some 10000
       end;
     keepAliveTimer := None;
     pendingInitialize := true;
     onceDisconnected := [];
     emitted := [] |}.

(** [flush]. *)
Definition flush (s : t) : t :=
  let contents := EventBuffer.read (buffer s) in
  let s1 := set_buffer (EventBuffer.clear (buffer s)) s in
  set_connection (Connection.sendChunk contents (connection s1)) s1.

(** [initialize], the callback given to [setImmediate]. *)
Definition initialize (s : t) : t :=
  let s := set_connection (Connection.sendHead (connection s)) s in
  let s :=
    if Connection.param_has "padding" (connection s)
    then set_buffer
           (EventBuffer.dispatch
              (EventBuffer.comment (Some (spaces 2049)) (buffer s))) s
    else s in
  let s :=
    if Connection.param_has "evs_preamble" (connection s)
    then set_buffer
           (EventBuffer.dispatch
              (EventBuffer.comment (Some (spaces 2056)) (buffer s))) s
    else s in
  let s :=
    match initialRetry s with
    | Some time =>
        set_buffer (EventBuffer.dispatch (EventBuffer.retry time (buffer s))) s
    | None => s
    end in
  let s := flush s in
  let s :=
    match keepAliveInterval s with
    | Some _ => set_keepAliveTimer (Some true) s
    | None => s
    end in
  let s := set_isConnected true s in
  emit Connected s.

(** [onDisconnected], the "abort" listener, up to and including the
    [emit("disconnected")]; the one-time listeners detach themselves as
    they are called, and their bodies run in [World.disconnect]. *)
Definition onDisconnected (s : t) : t :=
  let s := set_connection (Connection.set_abortListener false (connection s)) s in
  let s := set_connection (Connection.cleanup (connection s)) s in
  let s :=
    match keepAliveTimer s with
    | Some _ => set_keepAliveTimer (Some false) s
    | None => s
    end in
  let s := set_isConnected false s in
  set_onceDisconnected [] (emit Disconnected s).

(** [keepAlive], the interval callback. *)
Definition keepAlive (s : t) : t :=
  let s := set_buffer
             (EventBuffer.dispatch (EventBuffer.comment None (buffer s))) s in
  flush s.

Definition not_active : string :=
  "Cannot push data to a non-active session. Ensure the session is connected before attempting to push events. If using the Fetch API, the response stream must begin being consumed before the session is considered connected.".

(** [push(data, eventName = "message", eventId = crypto.randomUUID())];
    [uuid] is the identifier drawn when [eventId] is omitted. *)
Definition push (data : JsVal) (eventName eventId : option string)
    (uuid : string) (s : t) : t * Completion unit :=
  let eventName := default "message"%string eventName in
  let eventId := default uuid eventId in
  if negb (isConnected s) then (s, Throw (SseError not_active))
  else
    match EventBuffer.push data (Some eventName) (Some eventId) (buffer s) with
    | (b, Throw e) => (set_buffer b s, Throw e)
    | (b, Normal _) =>
        let s := flush (set_buffer b s) in
        let s := set_lastId eventId s in
        (emit (Pushed data eventName eventId) s, Normal tt)
    end.

(** The loop of [iterate] over the items of a finite iterable. *)
Fixpoint iterate_from (items : list JsVal) (eventName eventIdPrefix : string)
    (uuids : nat -> string) (index : nat) (s : t) : t * Completion unit :=
  match items with
  | [] => (s, Normal tt)
  | value :: r =>
      let eventId := EventBuffer.item_id eventIdPrefix uuids index in
      match push value (Some eventName) (Some eventId) eventId s with
      | (s', Throw e) => (s', Throw e)
      | (s', Normal _) =>
          iterate_from r eventName eventIdPrefix uuids (S index) s'
      end
  end.

(** [iterate(iterable, {eventName = "message", eventIdPrefix = ""})]; the
    returned completion is how the promise settles. *)
Definition iterate (items : list JsVal) (eventName eventIdPrefix : option string)
    (uuids : nat -> string) (s : t) : t * Completion unit :=
  iterate_from items (default "message"%string eventName)
    (default EmptyString eventIdPrefix) uuids 0%nat s.

(** How a [Readable] finishes: "end" or "error". *)
Inductive Ending : Type :=
| Ends
| Errors (e : Exn).

(** The "data" listener of [stream], once per chunk: [settled] is the
    first [resolve]/[reject] so far, [index] the counter of the closure. *)
Fixpoint stream_data (chunks : list JsVal) (eventName eventIdPrefix : string)
    (transform : option (JsVal -> Completion JsVal)) (uuids : nat -> string)
    (index : nat) (settled : option (Completion bool)) (s : t)
  : t * nat * option (Completion bool) :=
  match chunks with
  | [] => (s, index, settled)
  | chunk :: r =>
      let transformed :=
        match transform with
        | Some f => f chunk
        | None => Normal chunk
        end in
      match transformed with
      | Throw e =>
          stream_data r eventName eventIdPrefix transform uuids index
            (nullish settled (Some (Throw e))) s
      | Normal data =>
          let eventId := EventBuffer.item_id eventIdPrefix uuids index in
          match push data (Some eventName) (Some eventId) eventId s with
          | (s', Throw e) =>
              stream_data r eventName eventIdPrefix transform uuids index
                (nullish settled (Some (Throw e))) s'
          | (s', Normal _) =>
              stream_data r eventName eventIdPrefix transform uuids (S index)
                settled s'
          end
      end
  end.

(** [stream(stream, {eventName = "stream", eventIdPrefix = "", transform})]
    on a readable that emits [chunks] and then finishes with [ending]. *)
Definition stream (chunks : list JsVal) (ending : Ending)
    (eventName eventIdPrefix : option string)
    (transform : option (JsVal -> Completion JsVal)) (uuids : nat -> string)
    (s : t) : t * Completion bool :=
  match stream_data chunks (default "stream"%string eventName)
          (default EmptyString eventIdPrefix) transform uuids 0%nat None s with
  | (s', _, settled) =>
      let last :=
        match ending with
        | Ends => Normal true
        | Errors e => Throw e
        end in
      (s', default last settled)
  end.

(** [batch(callback)] is [await callback(this.buffer); this.flush()]: the
    callback works on the session's own buffer, the one [push], [keepAlive]
    and [initialize] queue on and flush. [callback] is what the callback
    does up to its first suspension, which is all of it when it is
    synchronous or awaits nothing. Every entry of [resumed] is one more
    stretch of an asynchronous callback: what ran on the session while the
    callback was suspended (a keep-alive tick, the bootstrap, an abort, a
    call of the application), and what the callback does once it is
    resumed. When the callback has finished, [flush] follows in the same
    turn, the continuation of an [await] being a microtask; when it throws
    or rejects, [batch] rejects without flushing. *)
Fixpoint batch_resume
    (resumed : list ((t -> t)
                     * (EventBuffer.t -> EventBuffer.t * Completion unit)))
    (s : t) : t * Completion unit :=
  match resumed with
  | [] => (flush s, Normal tt)
  | (meanwhile, stretch) :: r =>
      let s := meanwhile s in
      match stretch (buffer s) with
      | (b, Throw e) => (set_buffer b s, Throw e)
      | (b, Normal _) => batch_resume r (set_buffer b s)
      end
  end.

Definition batch (callback : EventBuffer.t -> EventBuffer.t * Completion unit)
    (resumed : list ((t -> t)
                     * (EventBuffer.t -> EventBuffer.t * Completion unit)))
    (s : t) : t * Completion unit :=
  match callback (buffer s) with
  | (b, Throw e) => (set_buffer b s, Throw e)
  | (b, Normal _) => batch_resume resumed (set_buffer b s)
  end.

(** What can happen to one session: the two callbacks the constructor
    schedules, the interval callback, and the calls of the application;
    [Batch cs] is a batch whose callback makes the calls [cs] without
    being suspended. *)
Inductive Op : Type :=
| RunInitialize
| Abort
| Tick
| Push (data : JsVal) (eventName eventId : option string) (uuid : string)
| Iterate (items : list JsVal) (eventName eventIdPrefix : option string)
    (uuids : nat -> string)
| Stream (chunks : list JsVal) (ending : Ending)
    (eventName eventIdPrefix : option string)
    (transform : option (JsVal -> Completion JsVal)) (uuids : nat -> string)
| Batch (cs : list EventBuffer.Call).

(** One step: the scheduled callbacks run only while they are scheduled
    ([setImmediate] fires once, the abort listener until it is removed,
    the interval until it is cleared). *)
Definition step (op : Op) (s : t) : t :=
  match op with
  | RunInitialize =>
      if pendingInitialize s
      then initialize (set_pendingInitialize false s) else s
  | Abort =>
      if Connection.abortListener (connection s) then onDisconnected s else s
  | Tick =>
      match keepAliveTimer s with
      | Some true => keepAlive s
      | _ => s
      end
  | Push data eventName eventId uuid => fst (push data eventName eventId uuid s)
  | Iterate items eventName eventIdPrefix uuids =>
      fst (iterate items eventName eventIdPrefix uuids s)
  | Stream chunks ending eventName eventIdPrefix transform uuids =>
      fst (stream chunks ending eventName eventIdPrefix transform uuids s)
  | Batch cs => fst (batch (EventBuffer.calls cs) [] s)
  end.

Definition run (ops : list Op) (s : t) : t := fold_left (fun s op => step op s) ops s.

End Session.

(** ** [Channel.ts]

    A channel method works on the channel itself and on the sessions it
    reaches, which live in the heap of sessions. A key that names no
    session stands for no object of the program; calls on it do nothing. *)

Module Channel.

Inductive Event : Type :=
| SessionRegistered (session : nat)
| SessionDeregistered (session : nat)
| SessionDisconnected (session : nat)
| Broadcast (data : JsVal) (eventName eventId : string).

Record t : Type := mk {
  sessions : list nat;
  emitted : list Event;
}.

Definition create : t := {| sessions := []; emitted := [] |}.

Definition emit (e : Event) (ch : t) : t :=
  {| sessions := sessions ch; emitted := emitted ch ++ [e] |}.

(** [get activeSessions()] and [get sessionCount()]. *)
Definition activeSessions (ch : t) : list nat := sessions ch.
Definition sessionCount (ch : t) : nat := length (sessions ch).

(** [this.sessions.has(session)]. *)
Definition has (session : nat) (ch : t) : bool :=
  bool_decide (session ∈ sessions ch).

(** [register(session)]; [self] is the key of this channel, which the
    one-time "disconnected" listener captures. *)
Definition register (self session : nat) (ch : t) (heap : gmap nat Session.t)
  : t * gmap nat Session.t * Completion unit :=
  if has session ch then (ch, heap, Normal tt)
  else
    match heap !! session with
    | None => (ch, heap, Normal tt)
    | Some s =>
        if negb (Session.isConnected s)
        then (ch, heap, Throw (SseError "Cannot register a non-active session."))
        else
          let s' := Session.set_onceDisconnected
                      (Session.onceDisconnected s ++ [self]) s in
          let ch' := {| sessions := sessions ch ++ [session];
                        emitted := emitted ch |} in
          (emit (SessionRegistered session) ch', <[session := s']> heap, Normal tt)
    end.

(** [deregister(session)]. *)
Definition deregister (session : nat) (ch : t) : t :=
  if has session ch
  then emit (SessionDeregistered session)
         {| sessions := filter (fun x => x ≠ session) (sessions ch);
            emitted := emitted ch |}
  else ch.

(** The listener installed by [register]. *)
Definition on_disconnected (session : nat) (ch : t) : t :=
  deregister session (emit (SessionDisconnected session) ch).

(** The sessions a broadcast goes to: the registry itself, or the
    filtered copy of [activeSessions]. *)
Definition recipients (pick : option (nat -> Session.t -> bool)) (ch : t)
    (heap : gmap nat Session.t) : list nat :=
  match pick with
  | None => sessions ch
  | Some f =>
      List.filter
        (fun k => match heap !! k with
                  | Some s => f k s
                  | None => false
                  end)
        (activeSessions ch)
  end.

(** The loop [for (const session of sessions) session.push(...)]: a
    throw leaves the loop. *)
Fixpoint push_each (targets : list nat) (data : JsVal)
    (eventName eventId : string) (heap : gmap nat Session.t)
  : gmap nat Session.t * Completion unit :=
  match targets with
  | [] => (heap, Normal tt)
  | k :: r =>
      match heap !! k with
      | None => push_each r data eventName eventId heap
      | Some s =>
          match Session.push data (Some eventName) (Some eventId) eventId s with
          | (s', Throw e) => (<[k := s']> heap, Throw e)
          | (s', Normal _) =>
              push_each r data eventName eventId (<[k := s']> heap)
          end
      end
  end.

(** [broadcast(data, eventName = "message", {eventId, filter})]; [uuid] is
    the identifier drawn when [eventId] is omitted. *)
Definition broadcast (data : JsVal) (eventName eventId : option string)
    (pick : option (nat -> Session.t -> bool)) (uuid : string)
    (ch : t) (heap : gmap nat Session.t)
  : t * gmap nat Session.t * Completion unit :=
  let eventName := default "message"%string eventName in
  let eventId := default uuid eventId in
  let targets := recipients pick ch heap in
  match push_each targets data eventName eventId heap with
  | (heap', Throw e) => (ch, heap', Throw e)
  | (heap', Normal _) =>
      (emit (Broadcast data eventName eventId) ch, heap', Normal tt)
  end.

End Channel.

(** ** The program state: every session and every channel *)

Module World.

Record t : Type := mk {
  sessions : gmap nat Session.t;
  channels : gmap nat Channel.t;
}.

Definition empty : t := {| sessions := ∅; channels := ∅ |}.

Definition register (k session : nat) (w : t) : t * Completion unit :=
  match channels w !! k with
  | None => (w, Normal tt)
  | Some ch =>
      match Channel.register k session ch (sessions w) with
      | (ch', heap', r) =>
          ({| sessions := heap'; channels := <[k := ch']> (channels w) |}, r)
      end
  end.

Definition deregister (k session : nat) (w : t) : t :=
  {| sessions := sessions w;
     channels := alter (Channel.deregister session) k (channels w) |}.

Definition broadcast (k : nat) (data : JsVal) (eventName eventId : option string)
    (pick : option (nat -> Session.t -> bool)) (uuid : string) (w : t)
  : t * Completion unit :=
  match channels w !! k with
  | None => (w, Normal tt)
  | Some ch =>
      match Channel.broadcast data eventName eventId pick uuid ch (sessions w) with
      | (ch', heap', r) =>
          ({| sessions := heap'; channels := <[k := ch']> (channels w) |}, r)
      end
  end.

(** The one-time "disconnected" listeners of a session, called in the
    order they were attached. *)
Fixpoint notify (listeners : list nat) (session : nat)
    (chans : gmap nat Channel.t) : gmap nat Channel.t :=
  match listeners with
  | [] => chans
  | k :: r => notify r session (alter (Channel.on_disconnected session) k chans)
  end.

(** The abort signal of a session fires: [Session.onDisconnected] runs
    and its [emit("disconnected")] reaches the channels listening. *)
Definition onDisconnected (session : nat) (w : t) : t :=
  match sessions w !! session with
  | None => w
  | Some s =>
      {| sessions := <[session := Session.onDisconnected s]> (sessions w);
         channels := notify (Session.onceDisconnected s) session (channels w) |}
  end.

(** What can happen in the program. The listeners of a session are those
    [Channel.register] attaches; a program that detaches them by hand
    ([removeAllListeners]) is not among these. *)
Inductive Op : Type :=
| NewSession (session : nat) (c : Connection.t) (options : Session.Options)
| NewChannel (k : nat)
| OnSession (session : nat) (op : Session.Op)
| Register (k session : nat)
| Deregister (k session : nat)
| Broadcast (k : nat) (data : JsVal) (eventName eventId : option string)
    (pick : option (nat -> Session.t -> bool)) (uuid : string).

Definition step (op : Op) (w : t) : t :=
  match op with
  | NewSession session c options =>
      match sessions w !! session with
      | Some _ => w
      | None =>
          {| sessions := <[session := Session.create c options]> (sessions w);
             channels := channels w |}
      end
  | NewChannel k =>
      match channels w !! k with
      | Some _ => w
      | None =>
          {| sessions := sessions w;
             channels := <[k := Channel.create]> (channels w) |}
      end
  | OnSession session Session.Abort =>
      match sessions w !! session with
      | Some s =>
          if Connection.abortListener (Session.connection s)
          then onDisconnected session w else w
      | None => w
      end
  | OnSession session op =>
      {| sessions := alter (Session.step op) session (sessions w);
         channels := channels w |}
  | Register k session => fst (register k session w)
  | Deregister k session => deregister k session w
  | Broadcast k data eventName eventId pick uuid =>
      fst (broadcast k data eventName eventId pick uuid w)
  end.

Definition run (ops : list Op) (w : t) : t :=
  fold_left (fun w op => step op w) ops w.

(** The worlds a program can be in. *)
Definition reachable (w : t) : Prop := exists ops, w = run ops empty.

End World.

(** ** Closed forms used in the statements *)

(** One [data:] line. *)
Definition data_line (line : string) : string := "data: " +:+ line +:+ nl.

(** The text [EventBuffer.push] appends for a sanitized payload [text]: the
    [id:] line under [if (eventId)], the [event:] line under
    [if (eventName && eventName !== "message")], the [data:] lines and the
    closing line feed. *)
Definition wire_frame (eventName eventId text : string) : string :=
  (if truthy eventId then "id: " +:+ eventId +:+ nl else EmptyString) +:+
  (if truthy eventName && negb (String.eqb eventName "message")
   then "event: " +:+ eventName +:+ nl else EmptyString) +:+
  concat_strings (map data_line (split_lf text)) +:+ nl.

(** The frame as the specification words it: the [event:] line is there
    exactly when the event type differs from "message". *)
Definition spec_frame (eventType eventId text : string) : string :=
  (if truthy eventId then "id: " +:+ eventId +:+ nl else EmptyString) +:+
  (if negb (String.eqb eventType "message")
   then "event: " +:+ eventType +:+ nl else EmptyString) +:+
  concat_strings (map data_line (split_lf text)) +:+ nl.

(** The text of the end-to-end scenario:
    id: e1 / event: update / data: {"x":1} / blank line. *)
Definition scenario_text : string :=
  "id: e1" +:+ nl +:+ "event: update" +:+ nl +:+
  "data: {" +:+ String DQ "x" +:+ String DQ ":1}" +:+ nl +:+ nl.

(** A session as [createSession] hands it over: constructed with default
    options on connection [c], bootstrap done. *)
Definition fresh_session (c : Connection.t) : Session.t :=
  Session.run [Session.RunInitialize] (Session.create c Session.no_options).

(** The sanitized serialization of [data] under the hooks of [b], when
    both hooks return and the sanitizer returns a string. *)
Definition push_text (b : EventBuffer.t) (data : JsVal) : option string :=
  match EventBuffer.serializer b data with
  | Normal v =>
      match EventBuffer.sanitizer b v with
      | Normal (JStr text) => Some text
      | _ => None
      end
  | Throw _ => None
  end.

(** A hook of [b] throws [e] on [data]: the serializer does, or it returns
    and the sanitizer throws on what it returned. *)
Definition hook_throws (b : EventBuffer.t) (data : JsVal) (e : Exn) : Prop :=
  EventBuffer.serializer b data = Throw e
  \/ exists v, EventBuffer.serializer b data = Normal v
               /\ EventBuffer.sanitizer b v = Throw e.

(** [JSON.stringify] turns the value into text. *)
Definition json_serializable (data : JsVal) : Prop :=
  exists s, Json.text true data = Json.Text s.

(** The session as a successful [push] leaves it. *)
Definition after_push (data : JsVal) (eventName eventId text : string)
    (s : Session.t) : Session.t :=
  Session.emit (Session.Pushed data eventName eventId)
    (Session.set_lastId eventId
       (Session.flush
          (Session.set_buffer
             (EventBuffer.append (wire_frame eventName eventId text)
                (Session.buffer s)) s))).

(** Two states of a session agree on everything but the text in flight,
    the text written, the last event id and the log of events. *)
Definition same_lifecycle (s s' : Session.t) : Prop :=
  Session.isConnected s' = Session.isConnected s
  /\ Session.pendingInitialize s' = Session.pendingInitialize s
  /\ Session.onceDisconnected s' = Session.onceDisconnected s
  /\ Session.keepAliveTimer s' = Session.keepAliveTimer s
  /\ Connection.abortListener (Session.connection s')
     = Connection.abortListener (Session.connection s)
  /\ EventBuffer.serializer (Session.buffer s')
     = EventBuffer.serializer (Session.buffer s)
  /\ EventBuffer.sanitizer (Session.buffer s')
     = EventBuffer.sanitizer (Session.buffer s).

(** The operations of the application and the heart beat. *)
Definition is_call (op : Session.Op) : bool :=
  match op with
  | Session.RunInitialize | Session.Abort => false
  | _ => true
  end.

(** The operations that push no event through [Session.push]. *)
Definition is_quiet (op : Session.Op) : bool :=
  match op with
  | Session.Push _ _ _ _ | Session.Iterate _ _ _ _
  | Session.Stream _ _ _ _ _ _ => false
  | _ => true
  end.

(** A buffer with the default hooks and no text. *)
Definition default_buffer : EventBuffer.t :=
  EventBuffer.create
    {| EventBuffer.opt_serializer := None; EventBuffer.opt_sanitizer := None |}.

(** A connection with no request header and no query parameter, nothing
    written yet. *)
Definition plain_connection : Connection.t :=
  {| Connection.headers := ∅; Connection.searchParams := [];
     Connection.abortListener := false; Connection.heads := 0%nat;
     Connection.chunks := []; Connection.cleanups := 0%nat |}.

(** Two states of a session agree on the last event id, the log of
    events, the listeners and the hooks. *)
Definition same_history (s s' : Session.t) : Prop :=
  Session.lastId s' = Session.lastId s
  /\ Session.emitted s' = Session.emitted s
  /\ Session.onceDisconnected s' = Session.onceDisconnected s
  /\ EventBuffer.serializer (Session.buffer s')
     = EventBuffer.serializer (Session.buffer s)
  /\ EventBuffer.sanitizer (Session.buffer s')
     = EventBuffer.sanitizer (Session.buffer s).

(** The frames of a comment and of a retry directive. *)
Definition comment_frame (text : option string) : string :=
  ": " +:+ default EmptyString text +:+ nl +:+ nl.

Definition retry_frame (time : Z) : string :=
  "retry: " +:+ dec time +:+ nl +:+ nl.

(** The frames an iteration queues, one per item, when the hooks of [b]
    accept every item. *)
Fixpoint item_frames (b : EventBuffer.t) (items : list JsVal)
    (eventName eventIdPrefix : string) (uuids : nat -> string) (index : nat)
  : option (list string) :=
  match items with
  | [] => Some []
  | value :: r =>
      match push_text b value with
      | Some text =>
          option_map
            (cons (wire_frame eventName
                     (EventBuffer.item_id eventIdPrefix uuids index) text))
            (item_frames b r eventName eventIdPrefix uuids (S index))
      | None => None
      end
  end.

(** The frames one call on the buffer queues, when the hooks accept what
    it pushes. *)
Definition call_frames (b : EventBuffer.t) (c : EventBuffer.Call)
  : option (list string) :=
  match c with
  | EventBuffer.CPush data eventName eventId =>
      option_map
        (fun text => [wire_frame (default "message"%string eventName)
                        (default EmptyString eventId) text])
        (push_text b data)
  | EventBuffer.CComment text => Some [comment_frame text]
  | EventBuffer.CRetry time => Some [retry_frame time]
  | EventBuffer.CDispatch => Some []
  | EventBuffer.CIterate items eventName eventIdPrefix uuids =>
      item_frames b items (default "message"%string eventName)
        (default EmptyString eventIdPrefix) uuids 0%nat
  end.

(** The frames a callback body queues, in call order. *)
Fixpoint queued_frames (b : EventBuffer.t) (cs : list EventBuffer.Call)
  : option (list string) :=
  match cs with
  | [] => Some []
  | c :: r =>
      match call_frames b c with
      | Some fs => option_map (app fs) (queued_frames b r)
      | None => None
      end
  end.

(** The operations that go through [Session.push]. *)
Definition is_pushing (op : Session.Op) : bool :=
  match op with
  | Session.Push _ _ _ _ | Session.Iterate _ _ _ _
  | Session.Stream _ _ _ _ _ _ => true
  | _ => false
  end.

Definition is_pushed (e : Session.Event) : Prop :=
  match e with
  | Session.Pushed _ _ _ => True
  | _ => False
  end.

(** The event id of the last "push" event of a log, [d] when it has none. *)
Fixpoint last_pushed_id (events : list Session.Event) (d : string) : string :=
  match events with
  | [] => d
  | Session.Pushed _ _ eventId :: r => last_pushed_id r eventId
  | _ :: r => last_pushed_id r d
  end.

(** From [s] to [s'] the events [new] were pushed: they are what the log
    gained, each came with one write, and the last event id is the id of
    the last of them. *)
Definition pushed_trace (s s' : Session.t) (new : list Session.Event) : Prop :=
  Session.emitted s' = Session.emitted s ++ new
  /\ Forall is_pushed new
  /\ Session.lastId s' = last_pushed_id new (Session.lastId s)
  /\ length (Connection.chunks (Session.connection s'))
     = (length (Connection.chunks (Session.connection s)) + length new)%nat.

(** The "push" events of an iteration, one per item. *)
Fixpoint item_events (items : list JsVal) (eventName eventIdPrefix : string)
    (uuids : nat -> string) (index : nat) : list Session.Event :=
  match items with
  | [] => []
  | value :: r =>
      Session.Pushed value eventName
        (EventBuffer.item_id eventIdPrefix uuids index)
      :: item_events r eventName eventIdPrefix uuids (S index)
  end.

(** The hooks of [b] accept every item. *)
Definition all_accepted (b : EventBuffer.t) (items : list JsVal) : Prop :=
  Forall (fun v => push_text b v <> None) items.

(** The invariant of the registries: a channel lists a session once, and
    every session it lists is in the heap, connected, and carries the
    one-time "disconnected" listener of that channel. *)
Definition registry_ok (w : World.t) : Prop :=
  forall (k : nat) (ch : Channel.t),
    World.channels w !! k = Some ch ->
    NoDup (Channel.sessions ch)
    /\ forall session : nat,
         session ∈ Channel.sessions ch ->
         exists s, World.sessions w !! session = Some s
                   /\ Session.isConnected s = true
                   /\ k ∈ Session.onceDisconnected s.

(** From heap [h] to heap [h'] every session is still there, still
    connected if it was, and still carries the listeners it had. *)
Definition heap_evolves (h h' : gmap nat Session.t) : Prop :=
  forall (key : nat) (s : Session.t),
    h !! key = Some s ->
    exists s', h' !! key = Some s'
               /\ (Session.isConnected s = true -> Session.isConnected s' = true)
               /\ (forall k : nat, k ∈ Session.onceDisconnected s ->
                                   k ∈ Session.onceDisconnected s').

(** From [c] to [c'] a channel is new and empty, or lists what it listed,
    or that without one session. *)
Definition registries_shrink (c c' : gmap nat Channel.t) : Prop :=
  forall (k : nat) (ch' : Channel.t),
    c' !! k = Some ch' ->
    Channel.sessions ch' = []
    \/ exists ch, c !! k = Some ch
                  /\ (Channel.sessions ch' = Channel.sessions ch
                      \/ exists x, Channel.sessions ch'
                                   = filter (fun y => y ≠ x) (Channel.sessions ch)).

(** [session.push(data, eventName, eventId)] as [broadcast] calls it: the
    session it leaves, and whether it returns. *)
Definition deliver (data : JsVal) (eventName eventId : string) (s : Session.t)
  : Session.t :=
  fst (Session.push data (Some eventName) (Some eventId) eventId s).

Definition push_returns (data : JsVal) (eventName eventId : string)
    (s : Session.t) : bool :=
  is_normal (snd (Session.push data (Some eventName) (Some eventId) eventId s)).

(** The broadcast as the specification words it, first half: every
    recipient whose own [push] returns has received the event, whatever
    happens to the other recipients. *)
Definition recipients_all_served (ch : Channel.t) (heap : gmap nat Session.t)
    (data : JsVal) (eventName eventId : option string)
    (pick : option (nat -> Session.t -> bool)) (uuid : string) : Prop :=
  let name := default "message"%string eventName in
  let eid := default uuid eventId in
  let heap' := snd (fst (Channel.broadcast data eventName eventId pick uuid ch heap)) in
  forall (j : nat) (s : Session.t),
    j ∈ Channel.recipients pick ch heap ->
    heap !! j = Some s ->
    push_returns data name eid s = true ->
    heap' !! j = Some (deliver data name eid s).

(** Second half: the observers of the channel are notified exactly once. *)
Definition observers_notified_once (ch : Channel.t) (heap : gmap nat Session.t)
    (data : JsVal) (eventName eventId : option string)
    (pick : option (nat -> Session.t -> bool)) (uuid : string) : Prop :=
  let name := default "message"%string eventName in
  let eid := default uuid eventId in
  let ch' := fst (fst (Channel.broadcast data eventName eventId pick uuid ch heap)) in
  Channel.emitted ch' = Channel.emitted ch ++ [Channel.Broadcast data name eid].

(** A connected session whose serializer throws on everything. *)
Definition failing_session : Session.t :=
  Session.run [Session.RunInitialize]
    (Session.create plain_connection
       {| Session.opt_trustClientEventId := None;
          Session.opt_retry := None;
          Session.opt_keepAlive := None;
          Session.opt_serializer := Some (fun _ => Throw (Raised JNull));
          Session.opt_sanitizer := None |}).

(** A channel with two registered sessions: 1, whose serializer throws,
    and 2, with the default hooks. *)
Definition two_sessions : gmap nat Session.t :=
  <[2%nat := fresh_session plain_connection]> (<[1%nat := failing_session]> ∅).

Definition two_session_channel : Channel.t :=
  {| Channel.sessions := [1%nat; 2%nat];
     Channel.emitted :=
       [Channel.SessionRegistered 1; Channel.SessionRegistered 2] |}.

(** ** Further closed forms *)

(** [c] occurs in [s]. *)
Fixpoint occurs (c : ascii) (s : string) : bool :=
  match s with
  | EmptyString => false
  | String a r => Ascii.eqb a c || occurs c r
  end.

(** How often [c] occurs in [s]. *)
Fixpoint count_char (c : ascii) (s : string) : nat :=
  match s with
  | EmptyString => 0%nat
  | String a r => ((if Ascii.eqb a c then 1 else 0) + count_char c r)%nat
  end.

(** The [id:] and [event:] lines of a frame, as [EventBuffer.push] guards
    them. *)
Definition id_line (eventId : string) : string :=
  if truthy eventId then "id: " +:+ eventId +:+ nl else EmptyString.

Definition event_line (eventName : string) : string :=
  if truthy eventName && negb (String.eqb eventName "message")
  then "event: " +:+ eventName +:+ nl else EmptyString.

(** The number of "disconnected" events of a log. *)
Fixpoint count_disconnected (events : list Session.Event) : nat :=
  match events with
  | [] => 0%nat
  | Session.Disconnected :: r => S (count_disconnected r)
  | _ :: r => count_disconnected r
  end.

(** From [s] to [s'] nothing of the teardown has happened: the abort
    listener, the calls of [cleanup] and the "disconnected" events are as
    they were. *)
Definition no_teardown (s s' : Session.t) : Prop :=
  Connection.abortListener (Session.connection s')
  = Connection.abortListener (Session.connection s)
  /\ Connection.cleanups (Session.connection s')
     = Connection.cleanups (Session.connection s)
  /\ count_disconnected (Session.emitted s')
     = count_disconnected (Session.emitted s).

(** The text the bootstrap queues before it flushes: the two paddings asked
    for by query parameters, then the retry directive. *)
Definition bootstrap_text (s : Session.t) : string :=
  (if Connection.param_has "padding" (Session.connection s)
   then comment_frame (Some (spaces 2049)) else EmptyString)
  +:+ (if Connection.param_has "evs_preamble" (Session.connection s)
       then comment_frame (Some (spaces 2056)) else EmptyString)
  +:+ match Session.initialRetry s with
      | Some time => retry_frame time
      | None => EmptyString
      end.

(** Buffer [b'] holds what [b] held, and maybe more after it. *)
Definition buffer_extends (b b' : EventBuffer.t) : Prop :=
  exists suffix, EventBuffer.buffer b' = EventBuffer.buffer b +:+ suffix.


(** Two freshly connected sessions, 1 and 2, and a channel listing both. *)
Definition two_fresh_sessions : gmap nat Session.t :=
  <[2%nat := fresh_session plain_connection]>
    (<[1%nat := fresh_session plain_connection]> ∅).

Definition listing_both : Channel.t :=
  {| Channel.sessions := [1%nat; 2%nat]; Channel.emitted := [] |}.

(** The world after one channel was created and one session constructed,
    bootstrapped and registered with it. *)
Definition one_session_world : World.t :=
  World.run
    [World.NewChannel 0;
     World.NewSession 1 plain_connection Session.no_options;
     World.OnSession 1 Session.RunInitialize;
     World.Register 0 1] World.empty.

(** ** [utils/TypedEmitter.ts]

    A listener is a function value, compared by identity. The functions a
    caller passes are named by a number, [Fn f]; the closure [onceWrapper]
    that a call of [once] allocates is named by the number of closures the
    emitter has allocated before, and carries the event and the listener it
    closes over. What a listener does when called is [behaviour f args]:
    it returns or throws, and, as everywhere here, does not register or
    remove listeners of the emitter that is calling it. Every call of a
    listener is recorded in [called]. *)

Module TypedEmitter.

Inductive Listener : Type :=
| Fn (f : nat)
| OnceWrapper (w : nat) (event : string) (f : nat).

#[global] Instance Listener_eq_dec : EqDecision Listener.
Proof. solve_decision. Defined.

(** [listeners] is the [Map] from event to [Set]; a [Set] is the list of
    its entries in insertion order. *)
Record t : Type := mk {
  listeners : gmap string (list Listener);
  closures : nat;
  called : list (nat * list JsVal);
}.

Definition create : t := {| listeners := ∅; closures := 0%nat; called := [] |}.

(** [set.add(x)] and [set.delete(x)]. *)
Definition set_add (x : Listener) (s : list Listener) : list Listener :=
  if decide (x ∈ s) then s else s ++ [x].

Definition set_delete (x : Listener) (s : list Listener) : list Listener :=
  filter (fun y => y ≠ x) s.

(** [on(event, listener)]. *)
Definition on (event : string) (listener : Listener) (e : t) : t :=
  let m := match listeners e !! event with
           | None => <[event := []]> (listeners e)
           | Some _ => listeners e
           end in
  {| listeners := alter (set_add listener) event m;
     closures := closures e;
     called := called e |}.

(** [once(event, listener)]: a new closure is registered. *)
Definition once (event : string) (f : nat) (e : t) : t :=
  let onceWrapper := OnceWrapper (closures e) event f in
  on event onceWrapper
    {| listeners := listeners e;
       closures := S (closures e);
       called := called e |}.

(** [off(event, listener)]. *)
Definition off (event : string) (listener : Listener) (e : t) : t :=
  match listeners e !! event with
  | None => e
  | Some eventListeners =>
      let eventListeners' := set_delete listener eventListeners in
      {| listeners :=
           if (length eventListeners' =? 0)%nat
           then delete event (listeners e)
           else <[event := eventListeners']> (listeners e);
         closures := closures e;
         called := called e |}
  end.

Definition record_call (f : nat) (args : list JsVal) (e : t) : t :=
  {| listeners := listeners e;
     closures := closures e;
     called := called e ++ [(f, args)] |}.

(** Calling a listener: a function of the caller runs; a [onceWrapper]
    removes itself and then calls the listener it wraps. *)
Definition call (behaviour : nat -> list JsVal -> Completion unit)
    (listener : Listener) (args : list JsVal) (e : t) : t * Completion unit :=
  match listener with
  | Fn f => (record_call f args e, behaviour f args)
  | OnceWrapper _ event f =>
      (record_call f args (off event listener e), behaviour f args)
  end.

(** The loop of [emit] over the [Set]. The only change made to the set
    while the loop runs is a wrapper deleting the entry being visited, so
    the entries visited are those the set held when the loop started, in
    insertion order; a throw leaves the loop. *)
Fixpoint call_each (behaviour : nat -> list JsVal -> Completion unit)
    (eventListeners : list Listener) (args : list JsVal) (e : t)
  : t * Completion unit :=
  match eventListeners with
  | [] => (e, Normal tt)
  | listener :: r =>
      match call behaviour listener args e with
      | (e', Throw x) => (e', Throw x)
      | (e', Normal _) => call_each behaviour r args e'
      end
  end.

(** [emit(event, ...args)]. *)
Definition emit (behaviour : nat -> list JsVal -> Completion unit)
    (event : string) (args : list JsVal) (e : t) : t * Completion unit :=
  match listeners e !! event with
  | None => (e, Normal tt)
  | Some eventListeners => call_each behaviour eventListeners args e
  end.

(** [removeAllListeners(event?)]: the test is [if (event)]. *)
Definition removeAllListeners (event : option string) (e : t) : t :=
  {| listeners :=
       match event with
       | Some ev => if truthy ev then delete ev (listeners e) else ∅
       | None => ∅
       end;
     closures := closures e;
     called := called e |}.

(** [listenerCount(event)]. *)
Definition listenerCount (event : string) (e : t) : nat :=
  match listeners e !! event with
  | Some eventListeners => length eventListeners
  | None => 0%nat
  end.

(** What a program can do with an emitter; the listeners it can name are
    its own functions. *)
Inductive Op : Type :=
| On (event : string) (f : nat)
| Once (event : string) (f : nat)
| Off (event : string) (f : nat)
| Emit (event : string) (args : list JsVal)
| RemoveAllListeners (event : option string).

Definition step (behaviour : nat -> list JsVal -> Completion unit)
    (op : Op) (e : t) : t :=
  match op with
  | On event f => on event (Fn f) e
  | Once event f => once event f e
  | Off event f => off event (Fn f) e
  | Emit event args => fst (emit behaviour event args e)
  | RemoveAllListeners event => removeAllListeners event e
  end.

Definition run (behaviour : nat -> list JsVal -> Completion unit)
    (ops : list Op) (e : t) : t :=
  fold_left (fun e op => step behaviour op e) ops e.

Definition reachable (behaviour : nat -> list JsVal -> Completion unit)
    (e : t) : Prop :=
  exists ops, e = run behaviour ops create.

End TypedEmitter.

(** ** [utils/applyHeaders.ts]

    The [Headers] class of the platform is its header list: names match
    whatever the case of their ASCII letters, [get] joins the values of a
    name with a comma and a space. Names and values are those the class
    accepts as they are (a valid name, a value with no surrounding white
    space), which is what the request and response objects of Node hold. *)

Module Headers.

Definition lower_ascii (a : ascii) : ascii :=
  let n := nat_of_ascii a in
  if ((65 <=? n) && (n <=? 90))%nat then ascii_of_nat (n + 32) else a.

Fixpoint lower (s : string) : string :=
  match s with
  | EmptyString => EmptyString
  | String a r => String (lower_ascii a) (lower r)
  end.

Definition same_name (a b : string) : bool := String.eqb (lower a) (lower b).

Definition t : Type := list (string * string).


(** [headers.delete(name)]. *)
Definition delete (name : string) (h : t) : t :=
  List.filter (fun x => negb (same_name (fst x) name)) h.

(** [headers.append(name, value)]. *)
Definition append (name value : string) (h : t) : t := h ++ [(name, value)].

(** [headers.set(name, value)]: the first header of that name takes the
    value and the others go; without one the header is appended. *)
Fixpoint set (name value : string) (h : t) : t :=
  match h with
  | [] => [(name, value)]
  | x :: r =>
      if same_name (fst x) name then (fst x, value) :: delete name r
      else x :: set name value r
  end.


End Headers.





(** ** Closed forms for the emitter and the headers *)

(** The function a listener ends up calling, and whether it is one of the
    caller's own functions. *)
Definition fn_of (l : TypedEmitter.Listener) : nat :=
  match l with
  | TypedEmitter.Fn f => f
  | TypedEmitter.OnceWrapper _ _ f => f
  end.

Definition is_fn (l : TypedEmitter.Listener) : bool :=
  match l with
  | TypedEmitter.Fn _ => true
  | TypedEmitter.OnceWrapper _ _ _ => false
  end.

(** The entry of the [Map] for a set of listeners: none when it is empty. *)
Definition entry (ls : list TypedEmitter.Listener)
  : option (list TypedEmitter.Listener) :=
  match ls with
  | [] => None
  | _ => Some ls
  end.

(** The listeners registered for an event. *)
Definition registered (event : string) (e : TypedEmitter.t)
  : list TypedEmitter.Listener :=
  default [] (TypedEmitter.listeners e !! event).

(** The [Map] holds no empty set, a set holds no listener twice, and a
    wrapper is registered for the event it was made for. *)
Definition emitter_ok (e : TypedEmitter.t) : Prop :=
  forall ev ls,
    TypedEmitter.listeners e !! ev = Some ls ->
    ls <> []
    /\ NoDup ls
    /\ (forall w ev' f,
          TypedEmitter.OnceWrapper w ev' f ∈ ls ->
          ev' = ev /\ (w < TypedEmitter.closures e)%nat).

(** Two emitters that differ at most in the listeners of [event]. *)
Definition same_elsewhere (event : string) (e e' : TypedEmitter.t) : Prop :=
  TypedEmitter.closures e' = TypedEmitter.closures e
  /\ forall ev, ev <> event ->
       TypedEmitter.listeners e' !! ev = TypedEmitter.listeners e !! ev.

Definition returns_on (behaviour : nat -> list JsVal -> Completion unit)
    (args : list JsVal) (l : TypedEmitter.Listener) : Prop :=
  behaviour (fn_of l) args = Normal tt.

Definition calls_of (args : list JsVal) (ls : list TypedEmitter.Listener)
  : list (nat * list JsVal) :=
  map (fun l => (fn_of l, args)) ls.


(** Listeners that return, and listeners of which the second throws. *)
Definition all_return : nat -> list JsVal -> Completion unit :=
  fun _ _ => Normal tt.

Definition second_throws : nat -> list JsVal -> Completion unit :=
  fun f _ => if (f =? 2)%nat then Throw (Raised JNull) else Normal tt.

(** An emitter with one permanent listener and two one-time listeners for
    the event "a". *)
Definition three_listeners (behaviour : nat -> list JsVal -> Completion unit)
  : TypedEmitter.t :=
  TypedEmitter.run behaviour
    [TypedEmitter.On "a" 1; TypedEmitter.Once "a" 2; TypedEmitter.Once "a" 3]
    TypedEmitter.create.

(** * Properties *)

(** ** Text *)

Lemma append_cons (a : ascii) (s t : string) :
  String a s +:+ t = String a (s +:+ t).
Proof. reflexivity. Qed.

Lemma append_empty_l (s : string) : EmptyString +:+ s = s.
Proof. reflexivity. Qed.

Lemma append_empty_r (s : string) : s +:+ EmptyString = s.
Proof.
  induction s as [|a s IH]; [reflexivity|].
  rewrite append_cons. by rewrite IH.
Qed.

Lemma append_assoc (s t u : string) : (s +:+ t) +:+ u = s +:+ (t +:+ u).
Proof.
  induction s as [|a s IH]; [reflexivity|].
  rewrite !append_cons. by rewrite IH.
Qed.

Lemma concat_strings_app (l1 l2 : list string) :
  concat_strings (l1 ++ l2) = concat_strings l1 +:+ concat_strings l2.
Proof.
  induction l1 as [|x l1 IH]; [reflexivity|].
  cbn [concat_strings app]. rewrite IH. by rewrite append_assoc.
Qed.

Lemma split_lf_nonempty (s : string) : split_lf s <> [].
Proof.
  induction s as [|c s IH]; cbn [split_lf]; [discriminate|].
  destruct (Ascii.eqb c LF); [discriminate|].
  destruct (split_lf s); [contradiction|discriminate].
Qed.

Lemma join_strings_cons (sep x : string) (l : list string) :
  l <> [] -> join_strings sep (x :: l) = x +:+ sep +:+ join_strings sep l.
Proof. destruct l; [contradiction|reflexivity]. Qed.

(** Joining the pieces of [split_lf] with line feeds gives the text back. *)
Lemma join_split_lf (s : string) : join_strings nl (split_lf s) = s.
Proof.
  induction s as [|c s IH]; [reflexivity|].
  pose proof (split_lf_nonempty s) as Hne.
  cbn [split_lf]. destruct (Ascii.eqb_spec c LF) as [->|Hc].
  - rewrite join_strings_cons by assumption. by rewrite IH.
  - destruct (split_lf s) as [|l ls]; [contradiction|].
    destruct ls as [|l2 ls].
    + cbn [join_strings] in *. by rewrite IH.
    + rewrite join_strings_cons by discriminate.
      rewrite join_strings_cons in IH by discriminate.
      rewrite append_cons. by rewrite IH.
Qed.

(** ** The event buffer *)

Lemma buffer_append (text : string) (b : EventBuffer.t) :
  EventBuffer.buffer (EventBuffer.append text b) = EventBuffer.buffer b +:+ text.
Proof. reflexivity. Qed.

Lemma append_append (x y : string) (b : EventBuffer.t) :
  EventBuffer.append y (EventBuffer.append x b) = EventBuffer.append (x +:+ y) b.
Proof. unfold EventBuffer.append. cbn. by rewrite append_assoc. Qed.

Lemma append_nothing (b : EventBuffer.t) : EventBuffer.append EmptyString b = b.
Proof. destruct b. unfold EventBuffer.append. cbn. by rewrite append_empty_r. Qed.

Lemma append_data_closed (lines : list string) (b : EventBuffer.t) :
  EventBuffer.append_data lines b
  = EventBuffer.append (concat_strings (map data_line lines)) b.
Proof.
  revert b. induction lines as [|l lines IH]; intros b.
  - cbn. by rewrite append_nothing.
  - cbn [EventBuffer.append_data map concat_strings]. rewrite IH.
    by rewrite append_append.
Qed.

(** What a successful [push] does to the buffer, for any hooks. *)
Lemma buffer_push_ok (b : EventBuffer.t) (data v : JsVal)
    (eventName eventId : option string) (text : string) :
  EventBuffer.serializer b data = Normal v ->
  EventBuffer.sanitizer b v = Normal (JStr text) ->
  EventBuffer.push data eventName eventId b
  = (EventBuffer.append
       (wire_frame (default "message"%string eventName)
          (default EmptyString eventId) text) b, Normal tt).
Proof.
  intros Hser Hsan. unfold EventBuffer.push. rewrite Hser, Hsan.
  f_equal. rewrite append_data_closed. unfold wire_frame.
  destruct (truthy (default EmptyString eventId));
    destruct (truthy (default "message"%string eventName)
              && negb (String.eqb (default "message"%string eventName) "message"));
    rewrite ?append_append, ?append_empty_l, ?append_assoc; reflexivity.
Qed.

(** [push] returns normally only when both hooks returned and the sanitizer
    returned a string. *)
Lemma buffer_push_normal_inv (b b' : EventBuffer.t) (data : JsVal)
    (eventName eventId : option string) :
  EventBuffer.push data eventName eventId b = (b', Normal tt) ->
  exists v text,
    EventBuffer.serializer b data = Normal v
    /\ EventBuffer.sanitizer b v = Normal (JStr text).
Proof.
  unfold EventBuffer.push.
  destruct (EventBuffer.serializer b data) as [v|e] eqn:Hser; [|discriminate].
  destruct (EventBuffer.sanitizer b v) as [u|e] eqn:Hsan; [|discriminate].
  destruct u; try discriminate. intros _. eauto.
Qed.

(** No buffer operation replaces the hooks. *)
Lemma buffer_push_hooks (b : EventBuffer.t) (data : JsVal)
    (eventName eventId : option string) :
  EventBuffer.serializer (fst (EventBuffer.push data eventName eventId b))
  = EventBuffer.serializer b
  /\ EventBuffer.sanitizer (fst (EventBuffer.push data eventName eventId b))
     = EventBuffer.sanitizer b.
Proof.
  unfold EventBuffer.push.
  destruct (EventBuffer.serializer b data) as [v|e]; [|done].
  destruct (EventBuffer.sanitizer b v) as [u|e]; [|done].
  destruct (truthy (default EmptyString eventId));
    destruct (truthy (default "message"%string eventName)
              && negb (String.eqb (default "message"%string eventName) "message"));
    destruct u; rewrite ?append_data_closed; done.
Qed.

(** ** One session *)

Lemma same_lifecycle_refl (s : Session.t) : same_lifecycle s s.
Proof. repeat split. Qed.

Lemma same_lifecycle_trans (s1 s2 s3 : Session.t) :
  same_lifecycle s1 s2 -> same_lifecycle s2 s3 -> same_lifecycle s1 s3.
Proof.
  unfold same_lifecycle. intros (a1 & a2 & a3 & a4 & a5 & a6 & a7)
    (b1 & b2 & b3 & b4 & b5 & b6 & b7).
  repeat split; congruence.
Qed.

Lemma set_buffer_self (s : Session.t) : Session.set_buffer (Session.buffer s) s = s.
Proof. by destruct s. Qed.

Lemma push_text_hooks (b b' : EventBuffer.t) (data : JsVal) :
  EventBuffer.serializer b' = EventBuffer.serializer b ->
  EventBuffer.sanitizer b' = EventBuffer.sanitizer b ->
  push_text b' data = push_text b data.
Proof. unfold push_text. by intros -> ->. Qed.

(** [push] on a session that is not connected: the [SseError], and the
    session is untouched. *)
Lemma session_push_inactive (s : Session.t) (data : JsVal)
    (eventName eventId : option string) (uuid : string) :
  Session.isConnected s = false ->
  Session.push data eventName eventId uuid s
  = (s, Throw (SseError Session.not_active)).
Proof. intros H. unfold Session.push. by rewrite H. Qed.

(** [push] on a connected session whose hooks accept the payload. *)
Lemma session_push_ok (s : Session.t) (data : JsVal)
    (eventName eventId : option string) (uuid text : string) :
  Session.isConnected s = true ->
  push_text (Session.buffer s) data = Some text ->
  Session.push data eventName eventId uuid s
  = (after_push data (default "message"%string eventName)
       (default uuid eventId) text s, Normal tt).
Proof.
  intros Hc Ht. unfold push_text in Ht.
  destruct (EventBuffer.serializer (Session.buffer s) data) as [v|] eqn:Hser;
    [|discriminate].
  destruct (EventBuffer.sanitizer (Session.buffer s) v) as [u|] eqn:Hsan;
    [|discriminate].
  destruct u; try discriminate. injection Ht as ->.
  unfold Session.push. rewrite Hc. cbn [negb].
  by rewrite (buffer_push_ok _ _ _ _ _ _ Hser Hsan).
Qed.

(** [push] on a connected session whose hooks do not accept the payload:
    it throws, nothing is written, the last event id stays. *)
Lemma session_push_rejected (s : Session.t) (data : JsVal)
    (eventName eventId : option string) (uuid : string) :
  Session.isConnected s = true ->
  push_text (Session.buffer s) data = None ->
  exists b e,
    Session.push data eventName eventId uuid s = (Session.set_buffer b s, Throw e)
    /\ EventBuffer.serializer b = EventBuffer.serializer (Session.buffer s)
    /\ EventBuffer.sanitizer b = EventBuffer.sanitizer (Session.buffer s).
Proof.
  intros Hc Ht. unfold Session.push. rewrite Hc. cbn [negb].
  pose proof (buffer_push_hooks (Session.buffer s) data
                (Some (default "message"%string eventName))
                (Some (default uuid eventId))) as [Hs1 Hs2].
  destruct (EventBuffer.push data _ _ (Session.buffer s)) as [b [[]|e]] eqn:Hp.
  - apply buffer_push_normal_inv in Hp as (v & text & Hser & Hsan).
    unfold push_text in Ht. rewrite Hser, Hsan in Ht. discriminate.
  - exists b, e. cbn [fst] in Hs1, Hs2. done.
Qed.

Lemma after_push_chunks (data : JsVal) (eventName eventId text : string)
    (s : Session.t) :
  Connection.chunks (Session.connection (after_push data eventName eventId text s))
  = Connection.chunks (Session.connection s)
    ++ [EventBuffer.buffer (Session.buffer s) +:+ wire_frame eventName eventId text].
Proof. reflexivity. Qed.

Lemma after_push_lastId (data : JsVal) (eventName eventId text : string)
    (s : Session.t) :
  Session.lastId (after_push data eventName eventId text s) = eventId.
Proof. reflexivity. Qed.

Lemma after_push_emitted (data : JsVal) (eventName eventId text : string)
    (s : Session.t) :
  Session.emitted (after_push data eventName eventId text s)
  = Session.emitted s ++ [Session.Pushed data eventName eventId].
Proof. reflexivity. Qed.

Lemma after_push_buffer (data : JsVal) (eventName eventId text : string)
    (s : Session.t) :
  EventBuffer.buffer (Session.buffer (after_push data eventName eventId text s))
  = EmptyString.
Proof. reflexivity. Qed.

(** Whatever [push] does, the life cycle of the session is as before. *)
Lemma session_push_lifecycle (s : Session.t) (data : JsVal)
    (eventName eventId : option string) (uuid : string) :
  same_lifecycle s (fst (Session.push data eventName eventId uuid s)).
Proof.
  destruct (Session.isConnected s) eqn:Hc.
  - destruct (push_text (Session.buffer s) data) as [text|] eqn:Ht.
    + rewrite (session_push_ok _ _ _ _ _ _ Hc Ht). repeat split.
    + destruct (session_push_rejected s data eventName eventId uuid Hc Ht)
        as (b & e & -> & H1 & H2).
      repeat split; assumption.
  - rewrite session_push_inactive by assumption. apply same_lifecycle_refl.
Qed.

Lemma session_iterate_from_lifecycle (items : list JsVal)
    (eventName eventIdPrefix : string) (uuids : nat -> string) (index : nat)
    (s : Session.t) :
  same_lifecycle s
    (fst (Session.iterate_from items eventName eventIdPrefix uuids index s)).
Proof.
  revert index s. induction items as [|value r IH]; intros index s.
  - apply same_lifecycle_refl.
  - cbn [Session.iterate_from].
    pose proof (session_push_lifecycle s value (Some eventName)
                  (Some (EventBuffer.item_id eventIdPrefix uuids index))
                  (EventBuffer.item_id eventIdPrefix uuids index)) as Hp.
    destruct (Session.push value _ _ _ s) as [s' [[]|e]]; cbn [fst] in *.
    + eapply same_lifecycle_trans; [exact Hp|apply IH].
    + exact Hp.
Qed.

Lemma session_stream_data_lifecycle (chunks : list JsVal)
    (eventName eventIdPrefix : string)
    (transform : option (JsVal -> Completion JsVal)) (uuids : nat -> string)
    (index : nat) (settled : option (Completion bool)) (s : Session.t) :
  same_lifecycle s
    (fst (fst (Session.stream_data chunks eventName eventIdPrefix transform
                 uuids index settled s))).
Proof.
  revert index settled s. induction chunks as [|chunk r IH]; intros index settled s.
  - apply same_lifecycle_refl.
  - cbn [Session.stream_data].
    destruct (match transform with Some f => f chunk | None => Normal chunk end)
      as [data|e]; [|apply IH].
    pose proof (session_push_lifecycle s data (Some eventName)
                  (Some (EventBuffer.item_id eventIdPrefix uuids index))
                  (EventBuffer.item_id eventIdPrefix uuids index)) as Hp.
    destruct (Session.push data _ _ _ s) as [s' [[]|e]]; cbn [fst] in *;
      (eapply same_lifecycle_trans; [exact Hp|apply IH]).
Qed.

Lemma buffer_iterate_from_hooks (items : list JsVal)
    (eventName eventIdPrefix : string) (uuids : nat -> string) (index : nat)
    (b : EventBuffer.t) :
  EventBuffer.serializer
    (fst (EventBuffer.iterate_from items eventName eventIdPrefix uuids index b))
  = EventBuffer.serializer b
  /\ EventBuffer.sanitizer
       (fst (EventBuffer.iterate_from items eventName eventIdPrefix uuids index b))
     = EventBuffer.sanitizer b.
Proof.
  revert index b. induction items as [|value r IH]; intros index b; [done|].
  cbn [EventBuffer.iterate_from].
  pose proof (buffer_push_hooks b value (Some eventName)
                (Some (EventBuffer.item_id eventIdPrefix uuids index))) as [H1 H2].
  destruct (EventBuffer.push value _ _ b) as [b' [[]|e]]; cbn [fst] in *.
  - destruct (IH (S index) b') as [H3 H4]. split; congruence.
  - done.
Qed.

Lemma buffer_call_hooks (c : EventBuffer.Call) (b : EventBuffer.t) :
  EventBuffer.serializer (fst (EventBuffer.call c b)) = EventBuffer.serializer b
  /\ EventBuffer.sanitizer (fst (EventBuffer.call c b)) = EventBuffer.sanitizer b.
Proof.
  destruct c; cbn [EventBuffer.call]; try done.
  - apply buffer_push_hooks.
  - apply buffer_iterate_from_hooks.
Qed.

Lemma buffer_calls_hooks (cs : list EventBuffer.Call) (b : EventBuffer.t) :
  EventBuffer.serializer (fst (EventBuffer.calls cs b)) = EventBuffer.serializer b
  /\ EventBuffer.sanitizer (fst (EventBuffer.calls cs b)) = EventBuffer.sanitizer b.
Proof.
  revert b. induction cs as [|c r IH]; intros b; [done|].
  cbn [EventBuffer.calls]. pose proof (buffer_call_hooks c b) as [H1 H2].
  destruct (EventBuffer.call c b) as [b' [[]|e]]; cbn [fst] in *.
  - destruct (IH b') as [H3 H4]. split; congruence.
  - done.
Qed.

Lemma session_batch_lifecycle (cs : list EventBuffer.Call) (s : Session.t) :
  same_lifecycle s (fst (Session.batch (EventBuffer.calls cs) [] s)).
Proof.
  unfold Session.batch, Session.batch_resume.
  pose proof (buffer_calls_hooks cs (Session.buffer s)) as [H1 H2].
  destruct (EventBuffer.calls cs (Session.buffer s)) as [b [[]|e]];
    cbn [fst] in *; repeat split; assumption.
Qed.

Lemma session_step_lifecycle (op : Session.Op) (s : Session.t) :
  is_call op = true -> same_lifecycle s (Session.step op s).
Proof.
  destruct op; cbn [is_call Session.step]; try discriminate; intros _.
  - destruct (Session.keepAliveTimer s) as [[]|]; repeat split.
  - apply session_push_lifecycle.
  - apply session_iterate_from_lifecycle.
  - unfold Session.stream.
    pose proof (session_stream_data_lifecycle chunks
                  (default "stream"%string eventName)
                  (default EmptyString eventIdPrefix) transform uuids 0%nat None s)
      as H.
    destruct (Session.stream_data _ _ _ _ _ _ _ s) as [[s' i] st]. exact H.
  - apply session_batch_lifecycle.
Qed.

Lemma run_app (ops1 ops2 : list Session.Op) (s : Session.t) :
  Session.run (ops1 ++ ops2) s = Session.run ops2 (Session.run ops1 s).
Proof. unfold Session.run. apply fold_left_app. Qed.

Lemma step_stays_disconnected (op : Session.Op) (s : Session.t) :
  Session.pendingInitialize s = false ->
  Session.isConnected s = false ->
  Session.isConnected (Session.step op s) = false
  /\ Session.pendingInitialize (Session.step op s) = false.
Proof.
  intros Hp Hc. destruct (is_call op) eqn:E.
  - destruct (session_step_lifecycle op s E) as (H1 & H2 & _). split; congruence.
  - destruct op; try discriminate; cbn [Session.step].
    + by rewrite Hp.
    + destruct (Connection.abortListener (Session.connection s)); [|done].
      unfold Session.onDisconnected.
      destruct (Session.keepAliveTimer _); done.
Qed.

(** Once the bootstrap has run, a session that is not connected stays so,
    whatever happens to it. *)
Lemma stays_disconnected (ops : list Session.Op) (s : Session.t) :
  Session.pendingInitialize s = false ->
  Session.isConnected s = false ->
  Session.isConnected (Session.run ops s) = false
  /\ Session.pendingInitialize (Session.run ops s) = false.
Proof.
  revert s. induction ops as [|op ops IH]; intros s Hp Hc; [done|].
  cbn [Session.run fold_left].
  destruct (step_stays_disconnected op s Hp Hc) as [H1 H2]. by apply IH.
Qed.

(** What [EventBuffer.push] does, by whether the hooks accept the payload. *)
Lemma buffer_push_cases (b : EventBuffer.t) (data : JsVal)
    (eventName eventId : option string) :
  match push_text b data with
  | Some text =>
      EventBuffer.push data eventName eventId b
      = (EventBuffer.append
           (wire_frame (default "message"%string eventName)
              (default EmptyString eventId) text) b, Normal tt)
  | None => exists b' e, EventBuffer.push data eventName eventId b = (b', Throw e)
  end.
Proof.
  unfold push_text.
  destruct (EventBuffer.serializer b data) as [v|e] eqn:Hser.
  - destruct (EventBuffer.sanitizer b v) as [u|e] eqn:Hsan.
    + destruct u; try (by apply buffer_push_ok with v);
        unfold EventBuffer.push; rewrite Hser, Hsan; eauto.
    + unfold EventBuffer.push. rewrite Hser, Hsan. eauto.
  - unfold EventBuffer.push. rewrite Hser. eauto.
Qed.

(** A throwing hook makes [EventBuffer.push] throw before it has appended
    anything. *)
Lemma buffer_push_hook_throws (b : EventBuffer.t) (data : JsVal)
    (eventName eventId : option string) (e : Exn) :
  hook_throws b data e ->
  EventBuffer.push data eventName eventId b = (b, Throw e).
Proof.
  unfold EventBuffer.push. intros [H | (v & H1 & H2)].
  - by rewrite H.
  - by rewrite H1, H2.
Qed.

Lemma session_push_hook_throws (s : Session.t) (data : JsVal)
    (eventName eventId : option string) (uuid : string) (e : Exn) :
  Session.isConnected s = true ->
  hook_throws (Session.buffer s) data e ->
  Session.push data eventName eventId uuid s = (s, Throw e).
Proof.
  intros Hc H. unfold Session.push. rewrite Hc. cbn [negb].
  rewrite (buffer_push_hook_throws _ _ _ _ _ H). by rewrite set_buffer_self.
Qed.

Lemma same_history_refl (s : Session.t) : same_history s s.
Proof. repeat split. Qed.

Lemma same_history_trans (s1 s2 s3 : Session.t) :
  same_history s1 s2 -> same_history s2 s3 -> same_history s1 s3.
Proof.
  unfold same_history. intros (a1 & a2 & a3 & a4 & a5) (b1 & b2 & b3 & b4 & b5).
  repeat split; congruence.
Qed.

Lemma flush_history (s : Session.t) : same_history s (Session.flush s).
Proof. repeat split. Qed.

(** Up to its last two assignments, [initialize] changes neither the last
    event id, nor the log, nor the listeners, nor the hooks; it flushes the
    buffer. *)
Lemma initialize_shape (s : Session.t) :
  exists s', Session.initialize s
             = Session.emit Session.Connected (Session.set_isConnected true s')
             /\ same_history s s'
             /\ EventBuffer.buffer (Session.buffer s') = EmptyString.
Proof.
  unfold Session.initialize.
  generalize (spaces 2049), (spaces 2056). intros pad1 pad2.
  set (s1 := Session.set_connection (Connection.sendHead (Session.connection s)) s).
  assert (H1 : same_history s s1) by (repeat split). clearbody s1.
  set (s2 := if Connection.param_has "padding" (Session.connection s1)
             then _ else s1).
  assert (H2 : same_history s1 s2).
  { subst s2. destruct (Connection.param_has _ _); repeat split. }
  clearbody s2.
  set (s3 := if Connection.param_has "evs_preamble" (Session.connection s2)
             then _ else s2).
  assert (H3 : same_history s2 s3).
  { subst s3. destruct (Connection.param_has _ _); repeat split. }
  clearbody s3.
  set (s4 := match Session.initialRetry s3 with Some _ => _ | None => s3 end).
  assert (H4 : same_history s3 s4).
  { subst s4. destruct (Session.initialRetry s3); repeat split. }
  clearbody s4.
  set (s6 := match Session.keepAliveInterval (Session.flush s4) with
             | Some _ => _
             | None => Session.flush s4
             end).
  assert (H6 : same_history (Session.flush s4) s6
               /\ EventBuffer.buffer (Session.buffer s6) = EmptyString).
  { subst s6. destruct (Session.keepAliveInterval _); repeat split. }
  clearbody s6. exists s6. split; [reflexivity|]. split; [|apply H6].
  destruct H6 as [H6 _]. pose proof (flush_history s4) as H5.
  eauto using same_history_trans.
Qed.

(** The bootstrap leaves the session connected, with its hooks still in
    place and no text in flight. *)
Lemma initialize_state (s : Session.t) :
  Session.isConnected (Session.initialize s) = true
  /\ EventBuffer.buffer (Session.buffer (Session.initialize s)) = EmptyString
  /\ EventBuffer.serializer (Session.buffer (Session.initialize s))
     = EventBuffer.serializer (Session.buffer s)
  /\ EventBuffer.sanitizer (Session.buffer (Session.initialize s))
     = EventBuffer.sanitizer (Session.buffer s)
  /\ Session.emitted (Session.initialize s) = Session.emitted s ++ [Session.Connected]
  /\ Session.lastId (Session.initialize s) = Session.lastId s
  /\ Session.onceDisconnected (Session.initialize s) = Session.onceDisconnected s.
Proof.
  destruct (initialize_shape s) as (s' & -> & (h1 & h2 & h3 & h4 & h5) & Hb).
  cbn. rewrite h2. done.
Qed.

Lemma fresh_session_state (c : Connection.t) :
  Session.isConnected (fresh_session c) = true
  /\ Session.buffer (fresh_session c) = default_buffer.
Proof.
  unfold fresh_session, Session.run, fold_left, Session.step.
  change (Session.pendingInitialize (Session.create c Session.no_options))
    with true. cbv iota.
  destruct (initialize_state
              (Session.set_pendingInitialize false
                 (Session.create c Session.no_options)))
    as (H1 & H2 & H3 & H4 & _).
  split; [exact H1|].
  destruct (Session.buffer (Session.initialize _)) as [t f g].
  cbn [EventBuffer.buffer EventBuffer.serializer EventBuffer.sanitizer] in *.
  subst. reflexivity.
Qed.

(** ** C1: the frame that [push] appends *)

(** C1, as the code has it. Whenever the hooks turn the payload into the
    text [text], [EventBuffer.push] appends exactly one frame: an [id:]
    line exactly when the event id is non-empty, an [event:] line exactly
    when the event type is non-empty and differs from "message", one
    [data:] line per line of [text], and a closing blank line; a connected
    session writes what its buffer holds followed by that frame, with the
    event id resolved to the generated one when omitted; and pushing
    [{"x":1}] with type "update" and id "e1" on a freshly connected session
    writes exactly [id: e1\nevent: update\ndata: {"x":1}\n\n]. *)
Theorem push_appends_wire_frame (b : EventBuffer.t) (data : JsVal)
    (eventName eventId : option string) (text : string)
    (Htext : push_text b data = Some text) :
  EventBuffer.push data eventName eventId b
  = (EventBuffer.append
       (wire_frame (default "message"%string eventName)
          (default EmptyString eventId) text) b, Normal tt)
  /\ (forall (s : Session.t) (uuid : string),
        Session.buffer s = b ->
        Session.isConnected s = true ->
        snd (Session.push data eventName eventId uuid s) = Normal tt
        /\ Connection.chunks
             (Session.connection (fst (Session.push data eventName eventId uuid s)))
           = Connection.chunks (Session.connection s)
             ++ [EventBuffer.buffer b
                 +:+ wire_frame (default "message"%string eventName)
                       (default uuid eventId) text])
  /\ (forall (c : Connection.t) (uuid : string),
        Connection.chunks
          (Session.connection
             (fst (Session.push (JObj [("x"%string, JNum 1)])
                     (Some "update"%string) (Some "e1"%string) uuid
                     (fresh_session c))))
        = Connection.chunks (Session.connection (fresh_session c))
          ++ [scenario_text]).
Proof.
  split; [|split].
  - unfold push_text in Htext.
    destruct (EventBuffer.serializer b data) as [v|] eqn:Hser; [|discriminate].
    destruct (EventBuffer.sanitizer b v) as [u|] eqn:Hsan; [|discriminate].
    destruct u; try discriminate. injection Htext as ->.
    by apply buffer_push_ok with v.
  - intros s uuid <- Hc. rewrite (session_push_ok _ _ _ _ _ _ Hc Htext).
    cbn [fst snd]. by rewrite after_push_chunks.
  - intros c uuid. destruct (fresh_session_state c) as [Hc Hb].
    assert (Ht : push_text (Session.buffer (fresh_session c))
                   (JObj [("x"%string, JNum 1)])
                 = Some ("{" +:+ String DQ "x" +:+ String DQ ":1}")).
    { rewrite Hb. reflexivity. }
    rewrite (session_push_ok _ _ _ _ _ _ Hc Ht). cbn [fst].
    rewrite after_push_chunks, Hb. reflexivity.
Qed.

Lemma push_appends_wire_frame_witness :
  EventBuffer.buffer
    (fst (EventBuffer.push (JObj [("x"%string, JNum 1)])
            (Some "update"%string) (Some "e1"%string) default_buffer))
  = scenario_text.
Proof.
  destruct (push_appends_wire_frame default_buffer (JObj [("x"%string, JNum 1)])
              (Some "update"%string) (Some "e1"%string)
              ("{" +:+ String DQ "x" +:+ String DQ ":1}") eq_refl) as [H _].
  rewrite H. reflexivity.
Defined.

(** C1 as worded fails for the empty event type: it differs from
    "message", yet the frame has no [event:] line. *)
Lemma push_empty_event_type_counterexample :
  EventBuffer.buffer
    (fst (EventBuffer.push (JStr "x") (Some EmptyString) None default_buffer))
  <> spec_frame EmptyString EmptyString "x".
Proof. vm_compute. discriminate. Qed.

Lemma create_state (c : Connection.t) (options : Session.Options) :
  Session.isConnected (Session.create c options) = false
  /\ Session.pendingInitialize (Session.create c options) = true
  /\ Connection.abortListener (Session.connection (Session.create c options)) = true
  /\ Session.emitted (Session.create c options) = []
  /\ Session.onceDisconnected (Session.create c options) = []
  /\ EventBuffer.buffer (Session.buffer (Session.create c options)) = EmptyString.
Proof. repeat split. Qed.

Lemma onDisconnected_state (s : Session.t) :
  Session.isConnected (Session.onDisconnected s) = false
  /\ Session.emitted (Session.onDisconnected s)
     = Session.emitted s ++ [Session.Disconnected]
  /\ Session.pendingInitialize (Session.onDisconnected s)
     = Session.pendingInitialize s
  /\ Session.lastId (Session.onDisconnected s) = Session.lastId s
  /\ Session.buffer (Session.onDisconnected s) = Session.buffer s
  /\ Session.onceDisconnected (Session.onDisconnected s) = []
  /\ Connection.abortListener (Session.connection (Session.onDisconnected s)) = false
  /\ Connection.chunks (Session.connection (Session.onDisconnected s))
     = Connection.chunks (Session.connection s).
Proof.
  unfold Session.onDisconnected.
  destruct (Session.keepAliveTimer _); repeat split.
Qed.

(** The trace "abort, then the scheduled bootstrap" from a new session. *)
Lemma abort_then_initialize (c : Connection.t) (options : Session.Options) :
  Session.run [Session.Abort; Session.RunInitialize] (Session.create c options)
  = Session.initialize
      (Session.set_pendingInitialize false
         (Session.onDisconnected (Session.create c options))).
Proof.
  unfold Session.run, fold_left, Session.step.
  destruct (create_state c options) as (_ & Hp & Ha & _).
  rewrite Ha.
  destruct (onDisconnected_state (Session.create c options))
    as (_ & _ & Hp' & _).
  rewrite Hp', Hp. reflexivity.
Qed.

(** ** C2: push on a session that is not connected *)

(** C2, at the input where the code departs from it. A session whose
    connection aborts before the scheduled bootstrap has run emits
    "disconnected"; the bootstrap then runs all the same and marks it
    connected, so a later [push] does not throw: it writes its frame to the
    connection. *)
Theorem push_after_early_disconnect_writes (c : Connection.t) (uuid : string) :
  let s := Session.run [Session.Abort; Session.RunInitialize]
             (Session.create c Session.no_options) in
  Session.emitted s = [Session.Disconnected; Session.Connected]
  /\ snd (Session.push (JStr "x") None (Some "1"%string) uuid s) = Normal tt
  /\ Connection.chunks
       (Session.connection
          (fst (Session.push (JStr "x") None (Some "1"%string) uuid s)))
     = Connection.chunks (Session.connection s)
       ++ ["id: 1" +:+ nl +:+ "data: x" +:+ nl +:+ nl].
Proof.
  cbv zeta. rewrite abort_then_initialize.
  set (s0 := Session.set_pendingInitialize false
               (Session.onDisconnected (Session.create c Session.no_options))).
  destruct (initialize_state s0) as (Hc & Hb & Hser & Hsan & He & _).
  assert (Ht : push_text (Session.buffer (Session.initialize s0)) (JStr "x")
               = Some "x"%string).
  { unfold push_text. rewrite Hser, Hsan. reflexivity. }
  rewrite (session_push_ok _ _ _ _ _ _ Hc Ht). cbn [fst snd].
  rewrite after_push_chunks, Hb, He. repeat split.
Qed.

(** ** C4: the life cycle *)

(** C4, at the input where the code departs from it. When the abort
    signal fires before the bootstrap scheduled by the constructor has run,
    the session is disconnected ([isConnected] false, "disconnected"
    emitted), and the bootstrap that runs next sets [isConnected] to true
    and emits "connected": a transition out of the disconnected state. *)
Theorem bootstrap_after_disconnect_connects (c : Connection.t)
    (options : Session.Options) :
  let s1 := Session.run [Session.Abort] (Session.create c options) in
  let s2 := Session.run [Session.Abort; Session.RunInitialize]
              (Session.create c options) in
  Session.isConnected s1 = false
  /\ Session.emitted s1 = [Session.Disconnected]
  /\ Session.isConnected s2 = true
  /\ Session.emitted s2 = [Session.Disconnected; Session.Connected].
Proof.
  cbv zeta. rewrite abort_then_initialize.
  set (s0 := Session.set_pendingInitialize false
               (Session.onDisconnected (Session.create c options))).
  destruct (initialize_state s0) as (Hc & _ & _ & _ & He & _).
  rewrite Hc, He. repeat split.
Qed.

(** ** C8: a throwing hook *)

(** The default serializer returns text for every value [JSON.stringify]
    can turn into text, and the default sanitizer accepts every text. *)
Lemma default_hooks_accept (data : JsVal) :
  json_serializable data ->
  exists text, push_text default_buffer data = Some text.
Proof.
  intros [t Ht]. unfold push_text, default_buffer, EventBuffer.create.
  cbn [EventBuffer.serializer EventBuffer.sanitizer default
       EventBuffer.opt_serializer EventBuffer.opt_sanitizer].
  assert (Hs : (exists s, data = JStr s) \/ serialize data = Json.stringify data).
  { destruct data; eauto. }
  destruct Hs as [[s ->] | ->].
  - eexists. reflexivity.
  - unfold Json.stringify. rewrite Ht. eexists. reflexivity.
Qed.

(** C8. When the serializer or the sanitizer throws [e] on the payload,
    [EventBuffer.push] throws [e] to its caller and leaves the buffer as it
    was, and so does [Session.push] on a connected session, which is left
    unchanged altogether; with the default hooks, [push] returns normally on
    every JSON-serializable payload. *)
Theorem hook_throw_leaves_buffer (b : EventBuffer.t) (data : JsVal)
    (eventName eventId : option string) (e : Exn)
    (Hthrow : hook_throws b data e) :
  EventBuffer.push data eventName eventId b = (b, Throw e)
  /\ (forall (s : Session.t) (uuid : string),
        Session.buffer s = b ->
        Session.isConnected s = true ->
        Session.push data eventName eventId uuid s = (s, Throw e))
  /\ (forall (b0 : EventBuffer.t) (d : JsVal) (n i : option string),
        EventBuffer.serializer b0 = serialize ->
        EventBuffer.sanitizer b0 = sanitize ->
        json_serializable d ->
        snd (EventBuffer.push d n i b0) = Normal tt
        /\ forall (s : Session.t) (uuid : string),
             Session.buffer s = b0 ->
             Session.isConnected s = true ->
             snd (Session.push d n i uuid s) = Normal tt).
Proof.
  split; [|split].
  - by apply buffer_push_hook_throws.
  - intros s uuid <- Hc. by apply session_push_hook_throws.
  - intros b0 d n i Hser Hsan Hd.
    destruct (default_hooks_accept d Hd) as [text Ht].
    assert (Ht' : push_text b0 d = Some text).
    { rewrite <- Ht. by apply push_text_hooks. }
    split.
    + pose proof (buffer_push_cases b0 d n i) as H. rewrite Ht' in H.
      by rewrite H.
    + intros s uuid <- Hc. by rewrite (session_push_ok _ _ _ _ _ _ Hc Ht').
Qed.

Lemma hook_throw_leaves_buffer_witness :
  EventBuffer.push (JNum 7) None None
    (EventBuffer.mk "left" (fun _ => Throw (Raised JNull)) sanitize)
  = (EventBuffer.mk "left" (fun _ => Throw (Raised JNull)) sanitize,
     Throw (Raised JNull)).
Proof.
  apply (hook_throw_leaves_buffer
           (EventBuffer.mk "left" (fun _ => Throw (Raised JNull)) sanitize)
           (JNum 7) None None (Raised JNull)).
  left. reflexivity.
Defined.

(** C8 as worded fails: nothing wraps what a hook throws. A serializer
    that throws [null] makes [push] throw [null] itself, which is no error
    object, and with the default hooks a BigInt payload makes [push] throw
    the [TypeError] of [JSON.stringify]. *)
Lemma hook_error_not_wrapped_counterexample :
  let b := EventBuffer.mk "left" (fun _ => Throw (Raised JNull)) sanitize in
  hook_throws b (JNum 7) (Raised JNull)
  /\ snd (EventBuffer.push (JNum 7) None None b) = Throw (Raised JNull)
  /\ (forall message : string,
        snd (EventBuffer.push (JNum 7) None None b) <> Throw (SseError message))
  /\ snd (EventBuffer.push (JBigInt 1) None None default_buffer)
     = Throw (TypeError "Do not know how to serialize a BigInt").
Proof.
  cbv zeta. split; [by left|]. split; [reflexivity|]. split; [|reflexivity].
  intros message H. discriminate H.
Qed.

(** ** C10: pushing [undefined] with the default hooks *)

(** C10. On a connected session with the default hooks, pushing
    [undefined] throws: the default serializer returns [undefined], the
    result of [JSON.stringify], which is not a string, the default sanitizer
    throws a [TypeError] on it, and neither the session nor its buffer has
    changed. *)
Theorem push_undefined_throws (s : Session.t)
    (eventName eventId : option string) (uuid : string)
    (Hc : Session.isConnected s = true)
    (Hser : EventBuffer.serializer (Session.buffer s) = serialize)
    (Hsan : EventBuffer.sanitizer (Session.buffer s) = sanitize) :
  serialize JUndefined = Normal JUndefined
  /\ exists message,
       sanitize JUndefined = Throw (TypeError message)
       /\ Session.push JUndefined eventName eventId uuid s
          = (s, Throw (TypeError message))
       /\ EventBuffer.push JUndefined eventName eventId (Session.buffer s)
          = (Session.buffer s, Throw (TypeError message)).
Proof.
  split; [reflexivity|]. eexists. split; [reflexivity|].
  assert (H : hook_throws (Session.buffer s) JUndefined
                (TypeError "Cannot read properties of undefined (reading 'replace')")).
  { right. exists JUndefined. by rewrite Hser, Hsan. }
  split.
  - by apply session_push_hook_throws.
  - by apply buffer_push_hook_throws.
Qed.

Lemma push_undefined_throws_witness :
  exists e,
    Session.push JUndefined None None "u" (fresh_session plain_connection)
    = (fresh_session plain_connection, Throw e).
Proof.
  destruct (push_undefined_throws (fresh_session plain_connection) None None "u"
              eq_refl eq_refl eq_refl) as (_ & m & _ & H & _).
  exists (TypeError m). exact H.
Defined.

(** ** C9: the resumption hint *)

Lemma batch_quiet (callback : EventBuffer.t -> EventBuffer.t * Completion unit)
    (s : Session.t) :
  Session.lastId (fst (Session.batch callback [] s)) = Session.lastId s
  /\ Session.emitted (fst (Session.batch callback [] s)) = Session.emitted s
  /\ Session.isConnected (fst (Session.batch callback [] s)) = Session.isConnected s.
Proof.
  unfold Session.batch, Session.batch_resume.
  destruct (callback (Session.buffer s)) as [b [[]|e]]; repeat split.
Qed.

Lemma step_quiet_lastId (op : Session.Op) (s : Session.t) :
  is_quiet op = true -> Session.lastId (Session.step op s) = Session.lastId s.
Proof.
  destruct op; cbn [is_quiet Session.step]; try discriminate; intros _.
  - destruct (Session.pendingInitialize s); [|reflexivity].
    by destruct (initialize_state (Session.set_pendingInitialize false s))
      as (_ & _ & _ & _ & _ & -> & _).
  - destruct (Connection.abortListener _); [|reflexivity].
    by destruct (onDisconnected_state s) as (_ & _ & _ & -> & _).
  - by destruct (Session.keepAliveTimer s) as [[]|].
  - apply batch_quiet.
Qed.

Lemma run_quiet_lastId (ops : list Session.Op) (s : Session.t) :
  forallb is_quiet ops = true ->
  Session.lastId (Session.run ops s) = Session.lastId s.
Proof.
  revert s. induction ops as [|op ops IH]; intros s H; [reflexivity|].
  cbn [forallb] in H. apply andb_prop in H as [H1 H2].
  cbn [Session.run fold_left]. etrans; [by apply IH|].
  by apply step_quiet_lastId.
Qed.

(** C9. As long as nothing has been pushed (the bootstrap, a disconnect,
    heart beats and batches may have happened), [lastId] is the hint read
    at construction: unless [trustClientEventId] is [false], the
    [last-event-id] request header when present, else the [lastEventId]
    query parameter when present, else the [evs_last_event_id] query
    parameter when present, else the empty string; with
    [trustClientEventId] set to [false], the empty string whatever the
    request carries. *)
Theorem lastId_seeded_from_client (c : Connection.t) (options : Session.Options)
    (ops : list Session.Op) (Hquiet : forallb is_quiet ops = true) :
  let s := Session.run ops (Session.create c options) in
  (Session.opt_trustClientEventId options <> Some false ->
     (forall h, Connection.header_get "last-event-id" c = Some h ->
                Session.lastId s = h)
     /\ (Connection.header_get "last-event-id" c = None ->
         forall v, Connection.param_get "lastEventId" c = Some v ->
                   Session.lastId s = v)
     /\ (Connection.header_get "last-event-id" c = None ->
         Connection.param_get "lastEventId" c = None ->
         forall v, Connection.param_get "evs_last_event_id" c = Some v ->
                   Session.lastId s = v)
     /\ (Connection.header_get "last-event-id" c = None ->
         Connection.param_get "lastEventId" c = None ->
         Connection.param_get "evs_last_event_id" c = None ->
         Session.lastId s = EmptyString))
  /\ (Session.opt_trustClientEventId options = Some false ->
      Session.lastId s = EmptyString).
Proof.
  cbv zeta. rewrite (run_quiet_lastId _ _ Hquiet).
  unfold Session.create. cbn [Session.lastId]. unfold Session.client_hint.
  split.
  - intros Htrust.
    assert (Hl : match Session.opt_trustClientEventId options with
                 | Some false => EmptyString
                 | _ => default EmptyString
                          (nullish (Connection.header_get "last-event-id" c)
                             (nullish (Connection.param_get "lastEventId" c)
                                (Connection.param_get "evs_last_event_id" c)))
                 end
                 = default EmptyString
                     (nullish (Connection.header_get "last-event-id" c)
                        (nullish (Connection.param_get "lastEventId" c)
                           (Connection.param_get "evs_last_event_id" c)))).
    { destruct (Session.opt_trustClientEventId options) as [[]|]; done. }
    rewrite Hl. repeat split.
    + by intros h ->.
    + by intros -> v ->.
    + by intros -> -> v ->.
    + by intros -> -> ->.
  - by intros ->.
Qed.

Lemma lastId_seeded_from_client_witness :
  Session.lastId
    (Session.run [Session.RunInitialize; Session.Tick]
       (Session.create
          (Connection.mk {[ "last-event-id"%string := "42"%string ]}
             [("lastEventId"%string, "7"%string)] false 0 [] 0)
          Session.no_options))
  = "42"%string.
Proof.
  destruct (lastId_seeded_from_client
              (Connection.mk {[ "last-event-id"%string := "42"%string ]}
                 [("lastEventId"%string, "7"%string)] false 0 [] 0)
              Session.no_options [Session.RunInitialize; Session.Tick] eq_refl)
    as [H _].
  destruct (H ltac:(discriminate)) as [H1 _].
  apply H1. reflexivity.
Defined.


(** ** C6: batching *)

Lemma item_frames_hooks (b b' : EventBuffer.t) (items : list JsVal)
    (eventName eventIdPrefix : string) (uuids : nat -> string) (index : nat) :
  EventBuffer.serializer b' = EventBuffer.serializer b ->
  EventBuffer.sanitizer b' = EventBuffer.sanitizer b ->
  item_frames b' items eventName eventIdPrefix uuids index
  = item_frames b items eventName eventIdPrefix uuids index.
Proof.
  intros H1 H2. revert index.
  induction items as [|v r IH]; intros index; [reflexivity|].
  cbn [item_frames]. rewrite (push_text_hooks b b' v H1 H2). by rewrite IH.
Qed.

Lemma buffer_iterate_from_cases (items : list JsVal)
    (eventName eventIdPrefix : string) (uuids : nat -> string) (index : nat)
    (b : EventBuffer.t) :
  match item_frames b items eventName eventIdPrefix uuids index with
  | Some fs =>
      EventBuffer.iterate_from items eventName eventIdPrefix uuids index b
      = (EventBuffer.append (concat_strings fs) b, Normal tt)
  | None =>
      exists b' e,
        EventBuffer.iterate_from items eventName eventIdPrefix uuids index b
        = (b', Throw e)
  end.
Proof.
  revert index b. induction items as [|value r IH]; intros index b.
  - cbn. by rewrite append_nothing.
  - cbn [item_frames EventBuffer.iterate_from].
    pose proof (buffer_push_cases b value (Some eventName)
                  (Some (EventBuffer.item_id eventIdPrefix uuids index))) as Hp.
    destruct (push_text b value) as [text|] eqn:Ht.
    + rewrite Hp. cbn [default] in *.
      set (b1 := EventBuffer.append _ b).
      specialize (IH (S index) b1).
      rewrite (item_frames_hooks b b1) in IH by reflexivity.
      destruct (item_frames b r eventName eventIdPrefix uuids (S index))
        as [fs|]; cbn [option_map].
      * rewrite IH. subst b1. by rewrite append_append.
      * exact IH.
    + destruct Hp as (b' & e & ->). eauto.
Qed.

Lemma buffer_call_cases (c : EventBuffer.Call) (b : EventBuffer.t) :
  match call_frames b c with
  | Some fs => EventBuffer.call c b = (EventBuffer.append (concat_strings fs) b, Normal tt)
  | None => exists b' e, EventBuffer.call c b = (b', Throw e)
  end.
Proof.
  destruct c; cbn [call_frames EventBuffer.call].
  - pose proof (buffer_push_cases b data eventName eventId) as Hp.
    destruct (push_text b data); cbn [option_map concat_strings].
    + by rewrite append_empty_r.
    + exact Hp.
  - cbn [concat_strings]. unfold EventBuffer.comment, comment_frame.
    by rewrite append_empty_r.
  - cbn [concat_strings]. unfold EventBuffer.retry, retry_frame.
    by rewrite append_empty_r.
  - cbn [concat_strings]. unfold EventBuffer.dispatch.
    by rewrite append_nothing.
  - apply buffer_iterate_from_cases.
Qed.

Lemma queued_frames_hooks (b b' : EventBuffer.t) (cs : list EventBuffer.Call) :
  EventBuffer.serializer b' = EventBuffer.serializer b ->
  EventBuffer.sanitizer b' = EventBuffer.sanitizer b ->
  queued_frames b' cs = queued_frames b cs.
Proof.
  intros H1 H2.
  assert (Hp : forall d, push_text b' d = push_text b d).
  { intros d. by apply push_text_hooks. }
  assert (Hi : forall items n p u i,
             item_frames b' items n p u i = item_frames b items n p u i).
  { intros. by apply item_frames_hooks. }
  induction cs as [|c r IH]; [reflexivity|].
  cbn [queued_frames]. rewrite IH.
  destruct c; cbn [call_frames]; rewrite ?Hp, ?Hi; reflexivity.
Qed.

(** A callback body that returns normally has appended its frames, in
    call order; one that cannot queue them all throws. *)
Lemma buffer_calls_cases (cs : list EventBuffer.Call) (b : EventBuffer.t) :
  match queued_frames b cs with
  | Some fs => EventBuffer.calls cs b = (EventBuffer.append (concat_strings fs) b, Normal tt)
  | None => exists b' e, EventBuffer.calls cs b = (b', Throw e)
  end.
Proof.
  revert b. induction cs as [|c r IH]; intros b.
  - cbn. by rewrite append_nothing.
  - cbn [queued_frames EventBuffer.calls].
    pose proof (buffer_call_cases c b) as Hc.
    destruct (call_frames b c) as [fs|].
    + rewrite Hc. specialize (IH (EventBuffer.append (concat_strings fs) b)).
      rewrite (queued_frames_hooks b) in IH by reflexivity.
      destruct (queued_frames b r) as [gs|]; cbn [option_map].
      * rewrite IH. by rewrite append_append, concat_strings_app.
      * exact IH.
    + destruct Hc as (b' & e & ->). eauto.
Qed.

(** A callback that throws: [batch] rejects with that error without
    writing, and what the callback had queued stays in the buffer for the
    next flush. *)
Lemma batch_callback_throws (s : Session.t) (cs : list EventBuffer.Call)
    (b : EventBuffer.t) (e : Exn) :
  EventBuffer.calls cs (Session.buffer s) = (b, Throw e) ->
  Session.batch (EventBuffer.calls cs) [] s = (Session.set_buffer b s, Throw e)
  /\ Connection.chunks
       (Session.connection (fst (Session.batch (EventBuffer.calls cs) [] s)))
     = Connection.chunks (Session.connection s).
Proof.
  intros H. unfold Session.batch, Session.batch_resume. rewrite H.
  split; reflexivity.
Qed.

(** A batch whose callback is not suspended. On a connected session, when
    the callback returns normally, the batch makes exactly one write: what
    the buffer held, followed by the frames the callback queued,
    concatenated in call order, and the buffer is empty afterwards; a
    [push] outside of a batch that returns normally makes exactly one
    write of its own, ending with its frame. *)
Theorem batch_is_one_write (s : Session.t) (cs : list EventBuffer.Call)
    (Hc : Session.isConnected s = true)
    (Hnormal : snd (EventBuffer.calls cs (Session.buffer s)) = Normal tt) :
  (exists frames,
     queued_frames (Session.buffer s) cs = Some frames
     /\ Session.batch (EventBuffer.calls cs) [] s
        = (Session.flush
             (Session.set_buffer
                (EventBuffer.append (concat_strings frames) (Session.buffer s)) s),
           Normal tt)
     /\ Connection.chunks
          (Session.connection (fst (Session.batch (EventBuffer.calls cs) [] s)))
        = Connection.chunks (Session.connection s)
          ++ [EventBuffer.buffer (Session.buffer s) +:+ concat_strings frames]
     /\ EventBuffer.buffer
          (Session.buffer (fst (Session.batch (EventBuffer.calls cs) [] s)))
        = EmptyString)
  /\ (forall (data : JsVal) (eventName eventId : option string)
             (uuid text : string),
        push_text (Session.buffer s) data = Some text ->
        snd (Session.push data eventName eventId uuid s) = Normal tt
        /\ Connection.chunks
             (Session.connection (fst (Session.push data eventName eventId uuid s)))
           = Connection.chunks (Session.connection s)
             ++ [EventBuffer.buffer (Session.buffer s)
                 +:+ wire_frame (default "message"%string eventName)
                       (default uuid eventId) text]).
Proof.
  split.
  - pose proof (buffer_calls_cases cs (Session.buffer s)) as H.
    destruct (queued_frames (Session.buffer s) cs) as [frames|].
    + exists frames. split; [reflexivity|].
      unfold Session.batch, Session.batch_resume. rewrite H. repeat split.
    + destruct H as (b' & e & H). rewrite H in Hnormal. discriminate.
  - intros data eventName eventId uuid text Ht.
    rewrite (session_push_ok _ _ _ _ _ _ Hc Ht). cbn [fst snd].
    by rewrite after_push_chunks.
Qed.

Lemma batch_is_one_write_witness :
  Connection.chunks
    (Session.connection
       (fst (Session.batch
               (EventBuffer.calls
                  [EventBuffer.CPush (JStr "a") None (Some "1"%string);
                   EventBuffer.CComment None;
                   EventBuffer.CIterate [JNum 4; JNum 5] (Some "n"%string)
                     (Some "k"%string) (fun _ => EmptyString)]) []
               (fresh_session plain_connection))))
  = [ "retry: 2000" +:+ nl +:+ nl;
      "id: 1" +:+ nl +:+ "data: a" +:+ nl +:+ nl
      +:+ ": " +:+ nl +:+ nl
      +:+ "id: k-0" +:+ nl +:+ "event: n" +:+ nl +:+ "data: 4" +:+ nl +:+ nl
      +:+ "id: k-1" +:+ nl +:+ "event: n" +:+ nl +:+ "data: 5" +:+ nl +:+ nl ].
Proof.
  destruct (batch_is_one_write (fresh_session plain_connection)
              [EventBuffer.CPush (JStr "a") None (Some "1"%string);
               EventBuffer.CComment None;
               EventBuffer.CIterate [JNum 4; JNum 5] (Some "n"%string)
                 (Some "k"%string) (fun _ => EmptyString)]
              eq_refl eq_refl) as [(frames & Hq & _ & Hw & _) _].
  rewrite Hw. vm_compute in Hq. injection Hq as <-. reflexivity.
Defined.

Lemma fresh_session_timer (c : Connection.t) :
  Session.keepAliveTimer (fresh_session c) = Some true.
Proof.
  unfold fresh_session, Session.run, fold_left, Session.step.
  change (Session.pendingInitialize (Session.create c Session.no_options))
    with true. cbv iota.
  unfold Session.initialize.
  generalize (spaces 2049), (spaces 2056). intros pad1 pad2.
  repeat match goal with
         | |- context [Connection.param_has ?k ?x] =>
             destruct (Connection.param_has k x)
         end; reflexivity.
Qed.

(** A batch whose callback is suspended across one keep-alive tick, on a
    session with the default hooks and a running interval. *)
Lemma batch_over_tick (s : Session.t) :
  Session.buffer s = default_buffer ->
  Session.keepAliveTimer s = Some true ->
  let callback :=
    EventBuffer.calls [EventBuffer.CPush (JStr "Event 1") None None] in
  let resumed :=
    [(Session.step Session.Tick,
      EventBuffer.calls [EventBuffer.CPush (JStr "Event 2") None None])] in
  snd (Session.batch callback resumed s) = Normal tt
  /\ Connection.chunks
       (Session.connection (fst (Session.batch callback resumed s)))
     = Connection.chunks (Session.connection s)
       ++ ["data: Event 1" +:+ nl +:+ nl +:+ ": " +:+ nl +:+ nl;
           "data: Event 2" +:+ nl +:+ nl].
Proof.
  intros Hb Ht. destruct s as [l i b c r k t p o e]. cbn in Hb, Ht. subst b t.
  split; [reflexivity|]. cbn. by rewrite <- app_assoc.
Qed.

(** C6, at the input where the code departs from it. On a connected
    session whose keep-alive interval runs, a batch whose callback queues
    "Event 1", is suspended across one tick of the interval and then
    queues "Event 2" makes two writes: the tick flushes the buffer the
    callback is filling, so the first write is the first frame followed by
    the heartbeat comment, and the [flush] of [batch] writes the second
    frame alone; no write holds both frames. *)
Theorem batch_suspended_over_tick_writes_twice (c : Connection.t) :
  let s := fresh_session c in
  let callback :=
    EventBuffer.calls [EventBuffer.CPush (JStr "Event 1") None None] in
  let resumed :=
    [(Session.step Session.Tick,
      EventBuffer.calls [EventBuffer.CPush (JStr "Event 2") None None])] in
  Session.isConnected s = true
  /\ snd (Session.batch callback resumed s) = Normal tt
  /\ Connection.chunks
       (Session.connection (fst (Session.batch callback resumed s)))
     = Connection.chunks (Session.connection s)
       ++ ["data: Event 1" +:+ nl +:+ nl +:+ ": " +:+ nl +:+ nl;
           "data: Event 2" +:+ nl +:+ nl].
Proof.
  cbv zeta. destruct (fresh_session_state c) as [Hc Hb].
  split; [exact Hc|].
  apply (batch_over_tick (fresh_session c) Hb (fresh_session_timer c)).
Qed.


(** ** C5: the last event id *)

Lemma last_pushed_id_app (l1 l2 : list Session.Event) (d : string) :
  last_pushed_id (l1 ++ l2) d = last_pushed_id l2 (last_pushed_id l1 d).
Proof.
  revert d. induction l1 as [|e l1 IH]; intros d; [reflexivity|].
  destruct e; cbn [last_pushed_id app]; apply IH.
Qed.

Lemma pushed_trace_refl (s : Session.t) : pushed_trace s s [].
Proof.
  unfold pushed_trace. rewrite app_nil_r. cbn.
  repeat split; [constructor|lia].
Qed.

Lemma pushed_trace_trans (s1 s2 s3 : Session.t) (n1 n2 : list Session.Event) :
  pushed_trace s1 s2 n1 -> pushed_trace s2 s3 n2 ->
  pushed_trace s1 s3 (n1 ++ n2).
Proof.
  unfold pushed_trace. intros (a1 & a2 & a3 & a4) (b1 & b2 & b3 & b4).
  repeat split.
  - rewrite b1, a1. by rewrite <- app_assoc.
  - by apply Forall_app.
  - rewrite b3, a3. by rewrite last_pushed_id_app.
  - rewrite b4, a4, length_app. lia.
Qed.

Lemma after_push_trace (data : JsVal) (eventName eventId text : string)
    (s : Session.t) :
  pushed_trace s (after_push data eventName eventId text s)
    [Session.Pushed data eventName eventId].
Proof.
  unfold pushed_trace.
  rewrite after_push_emitted, after_push_lastId, after_push_chunks, length_app.
  repeat split. by repeat constructor.
Qed.

(** A [push] that does not return normally pushes nothing. *)
Lemma session_push_trace (s : Session.t) (data : JsVal)
    (eventName eventId : option string) (uuid : string) :
  exists new, pushed_trace s (fst (Session.push data eventName eventId uuid s)) new.
Proof.
  destruct (Session.isConnected s) eqn:Hc.
  - destruct (push_text (Session.buffer s) data) as [text|] eqn:Ht.
    + rewrite (session_push_ok _ _ _ _ _ _ Hc Ht). eexists.
      apply after_push_trace.
    + destruct (session_push_rejected s data eventName eventId uuid Hc Ht)
        as (b & e & -> & _). exists []. cbn [fst].
      unfold pushed_trace. cbn. rewrite app_nil_r.
      repeat split; [constructor|lia].
  - rewrite session_push_inactive by assumption. exists [].
    apply pushed_trace_refl.
Qed.

Lemma session_iterate_from_trace (items : list JsVal)
    (eventName eventIdPrefix : string) (uuids : nat -> string) (index : nat)
    (s : Session.t) :
  exists new,
    pushed_trace s
      (fst (Session.iterate_from items eventName eventIdPrefix uuids index s)) new.
Proof.
  revert index s. induction items as [|value r IH]; intros index s.
  - exists []. apply pushed_trace_refl.
  - cbn [Session.iterate_from].
    destruct (session_push_trace s value (Some eventName)
                (Some (EventBuffer.item_id eventIdPrefix uuids index))
                (EventBuffer.item_id eventIdPrefix uuids index)) as [n1 Hp].
    destruct (Session.push value _ _ _ s) as [s' [[]|e]]; cbn [fst] in *.
    + destruct (IH (S index) s') as [n2 H2]. exists (n1 ++ n2).
      by apply pushed_trace_trans with s'.
    + by exists n1.
Qed.

Lemma session_stream_data_trace (chunks : list JsVal)
    (eventName eventIdPrefix : string)
    (transform : option (JsVal -> Completion JsVal)) (uuids : nat -> string)
    (index : nat) (settled : option (Completion bool)) (s : Session.t) :
  exists new,
    pushed_trace s
      (fst (fst (Session.stream_data chunks eventName eventIdPrefix transform
                   uuids index settled s))) new.
Proof.
  revert index settled s. induction chunks as [|chunk r IH]; intros index settled s.
  - exists []. apply pushed_trace_refl.
  - cbn [Session.stream_data].
    destruct (match transform with Some f => f chunk | None => Normal chunk end)
      as [data|e]; [|apply IH].
    destruct (session_push_trace s data (Some eventName)
                (Some (EventBuffer.item_id eventIdPrefix uuids index))
                (EventBuffer.item_id eventIdPrefix uuids index)) as [n1 Hp].
    destruct (Session.push data _ _ _ s) as [s' [[]|e]]; cbn [fst] in *.
    + destruct (IH (S index) settled s') as [n2 H2]. exists (n1 ++ n2).
      by apply pushed_trace_trans with s'.
    + destruct (IH index (nullish settled (Some (Throw e))) s') as [n2 H2].
      exists (n1 ++ n2). by apply pushed_trace_trans with s'.
Qed.

Lemma session_step_trace (op : Session.Op) (s : Session.t) :
  is_pushing op = true -> exists new, pushed_trace s (Session.step op s) new.
Proof.
  destruct op; cbn [is_pushing Session.step]; try discriminate; intros _.
  - apply session_push_trace.
  - apply session_iterate_from_trace.
  - unfold Session.stream.
    destruct (session_stream_data_trace chunks
                (default "stream"%string eventName)
                (default EmptyString eventIdPrefix) transform uuids 0%nat None s)
      as [new H].
    destruct (Session.stream_data _ _ _ _ _ _ _ s) as [[s' i] st].
    by exists new.
Qed.

Lemma session_run_trace (ops : list Session.Op) (s : Session.t) :
  forallb is_pushing ops = true ->
  exists new, pushed_trace s (Session.run ops s) new.
Proof.
  revert s. induction ops as [|op ops IH]; intros s H.
  - exists []. apply pushed_trace_refl.
  - cbn [forallb] in H. apply andb_prop in H as [H1 H2].
    cbn [Session.run fold_left].
    destruct (session_step_trace op s H1) as [n1 Hn1].
    destruct (IH (Session.step op s) H2) as [n2 Hn2].
    exists (n1 ++ n2). by apply pushed_trace_trans with (Session.step op s).
Qed.

(** An iteration over items the hooks accept pushes every item, with the
    identifier of its position. *)
Lemma session_iterate_from_events (items : list JsVal)
    (eventName eventIdPrefix : string) (uuids : nat -> string) (index : nat)
    (s : Session.t) :
  Session.isConnected s = true ->
  all_accepted (Session.buffer s) items ->
  snd (Session.iterate_from items eventName eventIdPrefix uuids index s) = Normal tt
  /\ pushed_trace s
       (fst (Session.iterate_from items eventName eventIdPrefix uuids index s))
       (item_events items eventName eventIdPrefix uuids index).
Proof.
  revert index s. induction items as [|value r IH]; intros index s Hc Ha.
  - split; [reflexivity|apply pushed_trace_refl].
  - cbn [Session.iterate_from item_events].
    apply Forall_cons in Ha as [Hv Hr].
    destruct (push_text (Session.buffer s) value) as [text|] eqn:Ht; [|done].
    rewrite (session_push_ok _ _ _ _ _ _ Hc Ht). cbn [default from_option id].
    set (s1 := after_push _ _ _ _ s).
    destruct (IH (S index) s1) as [H1 H2]; [exact Hc| |].
    { unfold all_accepted in *. eapply Forall_impl; [exact Hr|].
      intros v Hv'. by rewrite (push_text_hooks (Session.buffer s)). }
    split; [exact H1|].
    change (Session.Pushed value eventName
              (EventBuffer.item_id eventIdPrefix uuids index)
            :: item_events r eventName eventIdPrefix uuids (S index))
      with ([Session.Pushed value eventName
               (EventBuffer.item_id eventIdPrefix uuids index)]
            ++ item_events r eventName eventIdPrefix uuids (S index)).
    apply pushed_trace_trans with s1; [apply after_push_trace|exact H2].
Qed.

Lemma last_pushed_id_item_events (items : list JsVal)
    (eventName eventIdPrefix : string) (uuids : nat -> string) (index : nat)
    (d : string) :
  items <> [] ->
  last_pushed_id (item_events items eventName eventIdPrefix uuids index) d
  = EventBuffer.item_id eventIdPrefix uuids (index + (length items - 1)).
Proof.
  revert index d. induction items as [|v r IH]; intros index d Hne; [done|].
  cbn [item_events last_pushed_id]. destruct r as [|v2 r].
  - cbn. by rewrite Nat.add_0_r.
  - rewrite IH by discriminate. f_equal. cbn [length]. lia.
Qed.

(** The paths that keep [lastId]. Over any sequence of [push], [iterate]
    and [stream] calls on a session, every event pushed comes with one write
    and [lastId] ends as the event id of the last event pushed (it is
    unchanged when none was); a [push] that returns normally writes the
    frame carrying its event id, the one supplied or the generated one, and
    leaves [lastId] equal to it, so after N sequential pushes [lastId] is
    the id of the last frame; an [iterate] over items the hooks accept
    leaves [lastId] equal to the id of the last item; the events queued
    inside [batch] never change [lastId]. *)
Theorem lastId_is_last_pushed_id (s : Session.t) (ops : list Session.Op)
    (Hops : forallb is_pushing ops = true) :
  (exists new, pushed_trace s (Session.run ops s) new)
  /\ (forall (data : JsVal) (eventName eventId : option string)
             (uuid text : string),
        Session.isConnected (Session.run ops s) = true ->
        push_text (Session.buffer (Session.run ops s)) data = Some text ->
        let s' := Session.run (ops ++ [Session.Push data eventName eventId uuid]) s in
        Session.lastId s' = default uuid eventId
        /\ Connection.chunks (Session.connection s')
           = Connection.chunks (Session.connection (Session.run ops s))
             ++ [EventBuffer.buffer (Session.buffer (Session.run ops s))
                 +:+ wire_frame (default "message"%string eventName)
                       (default uuid eventId) text])
  /\ (forall (items : list JsVal) (eventName eventIdPrefix : option string)
             (uuids : nat -> string),
        items <> [] ->
        Session.isConnected (Session.run ops s) = true ->
        all_accepted (Session.buffer (Session.run ops s)) items ->
        Session.lastId
          (Session.run (ops ++ [Session.Iterate items eventName eventIdPrefix uuids]) s)
        = EventBuffer.item_id (default EmptyString eventIdPrefix) uuids
            (length items - 1))
  /\ (forall cs : list EventBuffer.Call,
        Session.lastId (Session.run (ops ++ [Session.Batch cs]) s)
        = Session.lastId (Session.run ops s)).
Proof.
  split; [by apply session_run_trace|]. split; [|split].
  - intros data eventName eventId uuid text Hc Ht. cbv zeta.
    rewrite run_app. cbn [Session.run fold_left Session.step].
    rewrite (session_push_ok _ _ _ _ _ _ Hc Ht). cbn [fst].
    by rewrite after_push_lastId, after_push_chunks.
  - intros items eventName eventIdPrefix uuids Hne Hc Ha.
    rewrite run_app. cbn [Session.run fold_left Session.step].
    unfold Session.iterate.
    destruct (session_iterate_from_events items
                (default "message"%string eventName)
                (default EmptyString eventIdPrefix) uuids 0%nat _ Hc Ha)
      as (_ & _ & _ & -> & _).
    by rewrite last_pushed_id_item_events.
  - intros cs. rewrite run_app. cbn [Session.run fold_left Session.step].
    apply batch_quiet.
Qed.

Lemma lastId_is_last_pushed_id_witness :
  Session.lastId
    (Session.run
       ([Session.Push (JStr "a") None (Some "1"%string) "u1"]
        ++ [Session.Push (JStr "b") None None "u2"])
       (fresh_session plain_connection))
  = "u2"%string.
Proof.
  destruct (lastId_is_last_pushed_id (fresh_session plain_connection)
              [Session.Push (JStr "a") None (Some "1"%string) "u1"] eq_refl)
    as (_ & H & _).
  destruct (H (JStr "b") None None "u2"%string "b"%string eq_refl eq_refl)
    as [Hl _].
  exact Hl.
Defined.

(** C5, at the input where the code departs from it. On a connected
    session, a batch whose callback pushes one event with the id 42 writes
    the frame carrying that id to the connection, and [lastId], "the last
    event ID sent to the client", is not 42 afterwards: it is what it was
    before the batch. *)
Theorem batch_push_leaves_lastId :
  let s := fresh_session plain_connection in
  let s' := fst (Session.batch
                   (EventBuffer.calls
                      [EventBuffer.CPush (JStr "a") None (Some "42"%string)]) []
                   s) in
  Connection.chunks (Session.connection s')
  = Connection.chunks (Session.connection s)
    ++ ["id: 42" +:+ nl +:+ "data: a" +:+ nl +:+ nl]
  /\ Session.lastId s' <> "42"%string
  /\ Session.lastId s' = Session.lastId s.
Proof.
  vm_compute. split; [reflexivity|]. split; [discriminate|reflexivity].
Qed.


(** ** The registry of a channel *)

Lemma filter_ne_length (x : nat) (l : list nat) :
  NoDup l -> x ∈ l -> S (length (filter (fun y => y ≠ x) l)) = length l.
Proof.
  induction l as [|y l IH]; intros Hnd Hin.
  - by apply elem_of_nil in Hin.
  - apply NoDup_cons in Hnd as [Hy Hnd]. destruct (decide (y = x)) as [->|Hne].
    + rewrite filter_cons_False by naive_solver. cbn [length]. f_equal.
      clear IH Hin Hnd. induction l as [|z l IH]; [reflexivity|].
      apply not_elem_of_cons in Hy as [Hz Hy].
      rewrite filter_cons_True by done. cbn [length]. f_equal. by apply IH.
    + rewrite filter_cons_True by done. cbn [length]. f_equal. apply IH; [done|].
      apply elem_of_cons in Hin as [->|Hin]; done.
Qed.

Lemma filter_ne_absent (x : nat) (l : list nat) :
  x ∉ l -> filter (fun y => y ≠ x) l = l.
Proof.
  induction l as [|y l IH]; intros Hx; [reflexivity|].
  apply not_elem_of_cons in Hx as [Hne Hx].
  rewrite filter_cons_True by done. by rewrite IH.
Qed.

Lemma has_spec (session : nat) (ch : Channel.t) :
  Channel.has session ch = true <-> session ∈ Channel.sessions ch.
Proof. unfold Channel.has. apply bool_decide_eq_true. Qed.

(** Whether or not the session is listed, the listener of [register]
    leaves the registry without it. *)
Lemma on_disconnected_sessions (session : nat) (ch : Channel.t) :
  Channel.sessions (Channel.on_disconnected session ch)
  = filter (fun y => y ≠ session) (Channel.sessions ch).
Proof.
  unfold Channel.on_disconnected, Channel.deregister.
  destruct (Channel.has session _) eqn:E; [reflexivity|].
  cbn. symmetry. apply filter_ne_absent.
  intros Hin. apply has_spec in Hin. cbn in E. unfold Channel.has in *. cbn in *.
  congruence.
Qed.

Lemma filter_ne_twice (x : nat) (l : list nat) :
  filter (fun y => y ≠ x) (filter (fun y => y ≠ x) l) = filter (fun y => y ≠ x) l.
Proof.
  apply filter_ne_absent. intros Hin. apply list_elem_of_filter in Hin as [Hne _].
  done.
Qed.

(** What the listeners called by [emit("disconnected")] leave of each
    channel. *)
Lemma notify_lookup (listeners : list nat) (session k : nat)
    (chans : gmap nat Channel.t) :
  match chans !! k with
  | None => World.notify listeners session chans !! k = None
  | Some ch =>
      exists ch',
        World.notify listeners session chans !! k = Some ch'
        /\ Channel.sessions ch'
           = if decide (k ∈ listeners)
             then filter (fun y => y ≠ session) (Channel.sessions ch)
             else Channel.sessions ch
  end.
Proof.
  revert chans. induction listeners as [|j r IH]; intros chans.
  - cbn [World.notify]. destruct (chans !! k) as [ch|]; [|done].
    exists ch. split; [done|]. by rewrite decide_False by apply not_elem_of_nil.
  - cbn [World.notify].
    specialize (IH (alter (Channel.on_disconnected session) j chans)).
    destruct (decide (j = k)) as [->|Hne].
    + rewrite lookup_alter_eq in IH.
      destruct (chans !! k) as [ch|]; cbn [fmap option_fmap option_map] in IH;
        [|exact IH].
      destruct IH as (ch' & H1 & H2). exists ch'. split; [exact H1|].
      rewrite H2, on_disconnected_sessions.
      rewrite (decide_True (P := k ∈ k :: r)) by apply list_elem_of_here.
      destruct (decide (k ∈ r)); [apply filter_ne_twice|done].
    + rewrite lookup_alter_ne in IH by done.
      destruct (chans !! k) as [ch|]; [|exact IH].
      destruct IH as (ch' & H1 & H2). exists ch'. split; [exact H1|].
      rewrite H2. destruct (decide (k ∈ r)) as [Hin|Hnin].
      * rewrite decide_True; [done|]. by apply list_elem_of_further.
      * rewrite decide_False; [done|].
        intros [?|?]%elem_of_cons; done.
Qed.

Lemma heap_evolves_refl (h : gmap nat Session.t) : heap_evolves h h.
Proof. intros key s H. exists s. auto. Qed.

Lemma registries_shrink_refl (c : gmap nat Channel.t) : registries_shrink c c.
Proof. intros k ch' H. right. exists ch'. auto. Qed.

Lemma registry_ok_evolve (w w' : World.t) :
  registry_ok w ->
  heap_evolves (World.sessions w) (World.sessions w') ->
  registries_shrink (World.channels w) (World.channels w') ->
  registry_ok w'.
Proof.
  intros Hok Hh Hc k ch' Hk.
  destruct (Hc k ch' Hk) as [Hnil | (ch & Hch & Hs)].
  - rewrite Hnil. split; [constructor|]. intros x Hx. by apply elem_of_nil in Hx.
  - destruct (Hok k ch Hch) as [Hnd Hmem].
    assert (Hsub : forall x, x ∈ Channel.sessions ch' -> x ∈ Channel.sessions ch).
    { destruct Hs as [-> | [x ->]]; [done|].
      intros y Hy. by apply list_elem_of_filter in Hy as [_ Hy]. }
    split.
    + destruct Hs as [-> | [x ->]]; [done|]. by apply NoDup_filter.
    + intros x Hx. destruct (Hmem x (Hsub x Hx)) as (s & Hs1 & Hs2 & Hs3).
      destruct (Hh x s Hs1) as (s' & H1 & H2 & H3). exists s'. auto.
Qed.

Lemma same_lifecycle_evolves (h : gmap nat Session.t) (key : nat)
    (f : Session.t -> Session.t) :
  (forall s, (Session.isConnected s = true -> Session.isConnected (f s) = true)
             /\ Session.onceDisconnected (f s) = Session.onceDisconnected s) ->
  heap_evolves h (alter f key h).
Proof.
  intros Hf j s Hj. destruct (decide (key = j)) as [->|Hne].
  - exists (f s). rewrite lookup_alter_eq, Hj. destruct (Hf s) as [H1 H2].
    split; [done|]. split; [done|]. intros k. by rewrite H2.
  - exists s. rewrite lookup_alter_ne by done. auto.
Qed.

(** Nothing but the abort listener disconnects a session or removes its
    listeners. *)
Lemma step_keeps_registration (op : Session.Op) (s : Session.t) :
  op <> Session.Abort ->
  (Session.isConnected s = true -> Session.isConnected (Session.step op s) = true)
  /\ Session.onceDisconnected (Session.step op s) = Session.onceDisconnected s.
Proof.
  intros Hop. destruct (is_call op) eqn:E.
  - destruct (session_step_lifecycle op s E) as (H1 & _ & H3 & _).
    split; [congruence|exact H3].
  - destruct op; try discriminate; [|done]. cbn [Session.step].
    destruct (Session.pendingInitialize s); [|done].
    destruct (initialize_state (Session.set_pendingInitialize false s))
      as (H1 & _ & _ & _ & _ & _ & H7).
    split; [done|exact H7].
Qed.

(** What the loop of [broadcast] leaves of each session. *)
Lemma push_each_lookup (targets : list nat) (data : JsVal)
    (eventName eventId : string) (heap : gmap nat Session.t) (key : nat) :
  match heap !! key with
  | None => fst (Channel.push_each targets data eventName eventId heap) !! key = None
  | Some s =>
      exists s',
        fst (Channel.push_each targets data eventName eventId heap) !! key = Some s'
        /\ same_lifecycle s s'
  end.
Proof.
  revert heap. induction targets as [|k r IH]; intros heap.
  - cbn. destruct (heap !! key) as [s|]; [|done].
    exists s. split; [done|apply same_lifecycle_refl].
  - cbn [Channel.push_each]. destruct (heap !! k) as [sk|] eqn:Hk; [|apply IH].
    pose proof (session_push_lifecycle sk data (Some eventName) (Some eventId)
                  eventId) as Hl.
    destruct (Session.push data _ _ _ sk) as [s1 [[]|e]]; cbn [fst] in Hl.
    + specialize (IH (<[k := s1]> heap)).
      destruct (decide (k = key)) as [->|Hne].
      * rewrite lookup_insert_eq in IH. rewrite Hk.
        destruct IH as (s' & H1 & H2). exists s'. split; [exact H1|].
        by apply same_lifecycle_trans with s1.
      * by rewrite lookup_insert_ne in IH.
    + cbn [fst]. destruct (decide (k = key)) as [->|Hne].
      * rewrite Hk, lookup_insert_eq. eauto.
      * rewrite lookup_insert_ne by done.
        destruct (heap !! key) as [s|]; [|done].
        exists s. split; [done|apply same_lifecycle_refl].
Qed.

Lemma push_each_evolves (targets : list nat) (data : JsVal)
    (eventName eventId : string) (heap : gmap nat Session.t) :
  heap_evolves heap (fst (Channel.push_each targets data eventName eventId heap)).
Proof.
  intros key s Hs.
  pose proof (push_each_lookup targets data eventName eventId heap key) as H.
  rewrite Hs in H. destruct H as (s' & H1 & (H2 & _ & H3 & _)).
  exists s'. split; [done|]. split; [congruence|]. intros k. by rewrite H3.
Qed.

Lemma registry_ok_empty : registry_ok World.empty.
Proof. intros k ch H. cbn in H. by rewrite lookup_empty in H. Qed.

Lemma registry_ok_onDisconnected (session : nat) (w : World.t) :
  registry_ok w -> registry_ok (World.onDisconnected session w).
Proof.
  intros Hok. unfold World.onDisconnected.
  destruct (World.sessions w !! session) as [s|] eqn:Hs; [|exact Hok].
  intros k ch' Hk. cbn [World.channels World.sessions] in *.
  pose proof (notify_lookup (Session.onceDisconnected s) session k
                (World.channels w)) as Hn.
  destruct (World.channels w !! k) as [ch|] eqn:Hch; [|congruence].
  destruct Hn as (ch2 & Hn1 & Hn2). rewrite Hn1 in Hk. injection Hk as <-.
  destruct (Hok k ch Hch) as [Hnd Hmem]. split.
  - rewrite Hn2. destruct (decide _); [by apply NoDup_filter|done].
  - intros x Hx. rewrite Hn2 in Hx.
    assert (Hx' : x ∈ Channel.sessions ch /\ x ≠ session).
    { destruct (decide (k ∈ Session.onceDisconnected s)) as [Hin|Hnin].
      - apply list_elem_of_filter in Hx. tauto.
      - split; [done|]. intros ->.
        destruct (Hmem session Hx) as (s0 & H0 & _ & H2). congruence. }
    destruct Hx' as [Hx1 Hx2]. destruct (Hmem x Hx1) as (sx & H1 & H2 & H3).
    exists sx. rewrite lookup_insert_ne by done. auto.
Qed.

Lemma registry_ok_register (k session : nat) (w : World.t) :
  registry_ok w -> registry_ok (fst (World.register k session w)).
Proof.
  intros Hok. unfold World.register.
  destruct (World.channels w !! k) as [ch|] eqn:Hch; [|exact Hok].
  unfold Channel.register.
  assert (Hsame : registry_ok
                    {| World.sessions := World.sessions w;
                       World.channels := <[k := ch]> (World.channels w) |}).
  { rewrite insert_id by done. by destruct w. }
  destruct (Channel.has session ch) eqn:Hhas; [exact Hsame|].
  destruct (World.sessions w !! session) as [s|] eqn:Hs; [|exact Hsame].
  destruct (Session.isConnected s) eqn:Hc; [|exact Hsame].
  cbn [negb fst]. clear Hsame.
  assert (Hnin : session ∉ Channel.sessions ch).
  { intros Hin. apply has_spec in Hin. congruence. }
  intros k' ch' Hk'. cbn [World.channels World.sessions] in *.
  destruct (decide (k = k')) as [<-|Hne].
  - rewrite lookup_insert_eq in Hk'. injection Hk' as <-.
    cbn [Channel.emit Channel.sessions].
    destruct (Hok k ch Hch) as [Hnd Hmem]. split.
    + apply NoDup_app. split; [done|]. split; [|apply NoDup_singleton].
      intros x Hx ->%list_elem_of_singleton. done.
    + intros x [Hx | ->%list_elem_of_singleton]%elem_of_app.
      * destruct (Hmem x Hx) as (sx & H1 & H2 & H3).
        destruct (decide (session = x)) as [->|Hne].
        -- rewrite lookup_insert_eq. eexists. split; [done|].
           cbn. split; [done|]. apply elem_of_app. right.
           by apply list_elem_of_singleton.
        -- exists sx. by rewrite lookup_insert_ne.
      * rewrite lookup_insert_eq. eexists. split; [done|].
        cbn. split; [done|]. apply elem_of_app. right.
        by apply list_elem_of_singleton.
  - rewrite lookup_insert_ne in Hk' by done.
    destruct (Hok k' ch' Hk') as [Hnd Hmem]. split; [done|].
    intros x Hx. destruct (Hmem x Hx) as (sx & H1 & H2 & H3).
    destruct (decide (session = x)) as [->|Hnx].
    + rewrite lookup_insert_eq. eexists. split; [done|]. cbn.
      split; [done|]. apply elem_of_app. left. congruence.
    + exists sx. by rewrite lookup_insert_ne.
Qed.

Lemma registry_ok_step (op : World.Op) (w : World.t) :
  registry_ok w -> registry_ok (World.step op w).
Proof.
  intros Hok. destruct op as [session c options|k|session op|k session|k session|
                              k data eventName eventId pick uuid].
  - cbn [World.step].
    destruct (World.sessions w !! session) as [s|] eqn:Hs; [exact Hok|].
    apply (registry_ok_evolve w); [exact Hok| |apply registries_shrink_refl].
    intros key s Hkey. exists s. cbn.
    rewrite lookup_insert_ne by congruence. auto.
  - cbn [World.step].
    destruct (World.channels w !! k) as [ch|] eqn:Hch; [exact Hok|].
    apply (registry_ok_evolve w); [exact Hok|apply heap_evolves_refl|].
    intros k' ch' Hk'. cbn in Hk'. destruct (decide (k = k')) as [<-|Hne].
    + rewrite lookup_insert_eq in Hk'. injection Hk' as <-. by left.
    + rewrite lookup_insert_ne in Hk' by done. right. eauto.
  - assert (Hcall : op <> Session.Abort ->
                    registry_ok
                      {| World.sessions :=
                           alter (Session.step op) session (World.sessions w);
                         World.channels := World.channels w |}).
    { intros Hop.
      apply (registry_ok_evolve w); [exact Hok| |apply registries_shrink_refl].
      apply same_lifecycle_evolves. intros s. by apply step_keeps_registration. }
    destruct op; try (by apply Hcall).
    cbn [World.step].
    destruct (World.sessions w !! session) as [s|]; [|exact Hok].
    destruct (Connection.abortListener _); [|exact Hok].
    by apply registry_ok_onDisconnected.
  - by apply registry_ok_register.
  - cbn [World.step]. unfold World.deregister.
    apply (registry_ok_evolve w); [exact Hok|apply heap_evolves_refl|].
    intros k' ch' Hk'. cbn in Hk'. right.
    destruct (decide (k = k')) as [<-|Hne].
    + rewrite lookup_alter_eq in Hk'.
      destruct (World.channels w !! k) as [ch|]; [|discriminate].
      injection Hk' as <-. exists ch. split; [done|].
      unfold Channel.deregister. destruct (Channel.has session ch); eauto.
    + rewrite lookup_alter_ne in Hk' by done. eauto.
  - cbn [World.step]. unfold World.broadcast.
    destruct (World.channels w !! k) as [ch|] eqn:Hch; [|exact Hok].
    unfold Channel.broadcast.
    pose proof (push_each_evolves (Channel.recipients pick ch (World.sessions w))
                  data (default "message"%string eventName)
                  (default uuid eventId) (World.sessions w)) as Hev.
    destruct (Channel.push_each _ _ _ _ _) as [heap' r]. cbn [fst] in Hev.
    assert (Hsh : forall ch1, Channel.sessions ch1 = Channel.sessions ch ->
                    registries_shrink (World.channels w)
                      (<[k := ch1]> (World.channels w))).
    { intros ch1 H1 k' ch' Hk'. right. destruct (decide (k = k')) as [<-|Hne].
      - rewrite lookup_insert_eq in Hk'. injection Hk' as <-. eauto.
      - rewrite lookup_insert_ne in Hk' by done. eauto. }
    destruct r as [[]|e]; cbn [fst];
      (apply (registry_ok_evolve w); [exact Hok|exact Hev|by apply Hsh]).
Qed.

(** Every world a program can be in satisfies the invariant. *)
Lemma registry_ok_reachable (w : World.t) : World.reachable w -> registry_ok w.
Proof.
  intros [ops ->].
  assert (H : forall w0, registry_ok w0 -> registry_ok (World.run ops w0)).
  { induction ops as [|op ops IH]; intros w0 H0; [exact H0|].
    cbn [World.run fold_left]. apply IH. by apply registry_ok_step. }
  apply H, registry_ok_empty.
Qed.

(** ** C7: a disconnect removes the session from its channels *)

(** The listener of [register] at work. In every world a program can
    reach, a session listed by a channel is connected; when its abort
    listener runs, which is
    [World.onDisconnected] and involves no call of [deregister] by the
    application, the session is no longer among [activeSessions],
    [sessionCount] has gone down by exactly one, the other sessions are
    listed as before, the session is not connected any more, and the
    registries again list connected sessions only. *)
Theorem disconnect_deregisters (w : World.t) (k session : nat) (ch : Channel.t)
    (Hreach : World.reachable w)
    (Hch : World.channels w !! k = Some ch)
    (Hin : session ∈ Channel.activeSessions ch) :
  (exists s,
     World.sessions w !! session = Some s
     /\ Session.isConnected s = true
     /\ (Connection.abortListener (Session.connection s) = true ->
         World.step (World.OnSession session Session.Abort) w
         = World.onDisconnected session w))
  /\ exists ch' s',
       World.channels (World.onDisconnected session w) !! k = Some ch'
       /\ World.sessions (World.onDisconnected session w) !! session = Some s'
       /\ Session.isConnected s' = false
       /\ (session ∉ Channel.activeSessions ch')
       /\ S (Channel.sessionCount ch') = Channel.sessionCount ch
       /\ (forall other : nat,
             other <> session ->
             (other ∈ Channel.activeSessions ch' <-> other ∈ Channel.activeSessions ch))
       /\ registry_ok (World.onDisconnected session w).
Proof.
  pose proof (registry_ok_reachable w Hreach) as Hok.
  destruct (Hok k ch Hch) as [Hnd Hmem].
  destruct (Hmem session Hin) as (s & Hs & Hc & Hl). split.
  - exists s. split; [done|]. split; [done|]. intros Ha.
    cbn [World.step]. by rewrite Hs, Ha.
  - pose proof (notify_lookup (Session.onceDisconnected s) session k
                  (World.channels w)) as Hn.
    rewrite Hch in Hn. destruct Hn as (ch' & Hn1 & Hn2).
    rewrite decide_True in Hn2 by done.
    exists ch', (Session.onDisconnected s).
    unfold World.onDisconnected. rewrite Hs. cbn [World.channels World.sessions].
    split; [exact Hn1|]. split; [by rewrite lookup_insert_eq|].
    split; [by destruct (onDisconnected_state s) as (-> & _)|].
    unfold Channel.activeSessions, Channel.sessionCount. rewrite Hn2.
    split; [|split; [|split]].
    + intros H. apply list_elem_of_filter in H as [H _]. done.
    + by apply filter_ne_length.
    + intros other Hne. rewrite list_elem_of_filter. tauto.
    + pose proof (registry_ok_onDisconnected session w Hok) as H.
      unfold World.onDisconnected in H. by rewrite Hs in H.
Qed.

Lemma disconnect_deregisters_witness :
  exists ch',
    World.channels
      (World.onDisconnected 1
         (World.run
            [World.NewChannel 0;
             World.NewSession 1 plain_connection Session.no_options;
             World.NewSession 2 plain_connection Session.no_options;
             World.OnSession 1 Session.RunInitialize;
             World.OnSession 2 Session.RunInitialize;
             World.Register 0 1; World.Register 0 2] World.empty)) !! 0%nat
    = Some ch'
    /\ Channel.activeSessions ch' = [2%nat].
Proof.
  destruct (disconnect_deregisters
              (World.run
                 [World.NewChannel 0;
                  World.NewSession 1 plain_connection Session.no_options;
                  World.NewSession 2 plain_connection Session.no_options;
                  World.OnSession 1 Session.RunInitialize;
                  World.OnSession 2 Session.RunInitialize;
                  World.Register 0 1; World.Register 0 2] World.empty)
              0%nat 1%nat
              (Channel.mk [1%nat; 2%nat]
                 [Channel.SessionRegistered 1; Channel.SessionRegistered 2])
              (ex_intro _ _ eq_refl) eq_refl (list_elem_of_here 1%nat [2%nat]))
    as (_ & ch' & s' & H1 & _).
  exists ch'. split; [exact H1|].
  vm_compute in H1. injection H1 as <-. reflexivity.
Defined.

(** ** C3: broadcast *)

Lemma push_returns_false (data : JsVal) (eventName eventId : string)
    (s : Session.t) :
  push_returns data eventName eventId s = false ->
  exists e,
    Session.push data (Some eventName) (Some eventId) eventId s
    = (deliver data eventName eventId s, Throw e).
Proof.
  unfold push_returns, deliver.
  destruct (Session.push _ _ _ _ s) as [s' [[]|e]]; [discriminate|eauto].
Qed.

Lemma push_returns_true (data : JsVal) (eventName eventId : string)
    (s : Session.t) :
  push_returns data eventName eventId s = true ->
  Session.push data (Some eventName) (Some eventId) eventId s
  = (deliver data eventName eventId s, Normal tt).
Proof.
  unfold push_returns, deliver.
  destruct (Session.push _ _ _ _ s) as [s' [[]|e]]; [done|discriminate].
Qed.

(** As long as [push] returns, the loop of [broadcast] goes on: after the
    recipients [pre] it continues with the rest, on the heap where exactly
    the sessions of [pre] have received the event. *)
Lemma push_each_prefix (pre rest : list nat) (data : JsVal)
    (eventName eventId : string) (heap : gmap nat Session.t) :
  NoDup pre ->
  (forall j, j ∈ pre ->
     exists s, heap !! j = Some s /\ push_returns data eventName eventId s = true) ->
  exists heap1,
    Channel.push_each (pre ++ rest) data eventName eventId heap
    = Channel.push_each rest data eventName eventId heap1
    /\ forall key,
         heap1 !! key
         = if decide (key ∈ pre)
           then deliver data eventName eventId <$> heap !! key
           else heap !! key.
Proof.
  revert heap. induction pre as [|j pre IH]; intros heap Hnd Hall.
  - exists heap. split; [reflexivity|]. intros key.
    by rewrite decide_False by apply not_elem_of_nil.
  - apply NoDup_cons in Hnd as [Hj Hnd].
    destruct (Hall j) as (s & Hs & Hr); [apply list_elem_of_here|].
    cbn [app Channel.push_each]. rewrite Hs, (push_returns_true _ _ _ _ Hr).
    destruct (IH (<[j := deliver data eventName eventId s]> heap) Hnd)
      as (heap1 & H1 & H2).
    { intros j' Hj'. destruct (Hall j') as (s' & Hs' & Hr');
        [by apply list_elem_of_further|].
      exists s'. split; [|done]. rewrite lookup_insert_ne; [done|].
      intros ->. done. }
    exists heap1. split; [exact H1|]. intros key. rewrite H2.
    destruct (decide (key = j)) as [->|Hne].
    + rewrite decide_False by done. rewrite lookup_insert_eq.
      rewrite decide_True by apply list_elem_of_here. by rewrite Hs.
    + rewrite lookup_insert_ne by done.
      destruct (decide (key ∈ pre)) as [Hin|Hnin].
      * rewrite decide_True; [done|]. by apply list_elem_of_further.
      * rewrite decide_False; [done|]. intros [?|?]%elem_of_cons; done.
Qed.

Lemma recipients_NoDup (pick : option (nat -> Session.t -> bool)) (ch : Channel.t)
    (heap : gmap nat Session.t) :
  NoDup (Channel.sessions ch) -> NoDup (Channel.recipients pick ch heap).
Proof.
  intros H. destruct pick as [f|]; [|exact H].
  unfold Channel.recipients, Channel.activeSessions.
  induction (Channel.sessions ch) as [|a l IH]; cbn [List.filter]; [constructor|].
  apply NoDup_cons in H as [H1 H2].
  destruct (match heap !! a with Some s => f a s | None => false end); [|auto].
  apply NoDup_cons. split; [|auto]. intros Hin. apply H1.
  apply list_elem_of_In, List.filter_In in Hin. apply list_elem_of_In. tauto.
Qed.

(** C3, as the code has it. [broadcast] calls [push] on the recipients in
    registration order. When every one of these calls returns, every
    recipient has received the event, no other session is touched, and the
    observers of the channel are notified exactly once. When the call
    throws for a recipient, [broadcast] throws the same error to its
    caller: the recipients before that one have received the event, those
    after it are left as they were, and the observers are not notified. *)
Theorem broadcast_stops_at_first_throw (ch : Channel.t)
    (heap : gmap nat Session.t) (data : JsVal)
    (eventName eventId : option string)
    (pick : option (nat -> Session.t -> bool)) (uuid : string)
    (Hnd : NoDup (Channel.sessions ch)) :
  let name := default "message"%string eventName in
  let eid := default uuid eventId in
  ((forall j, j ∈ Channel.recipients pick ch heap ->
      exists s, heap !! j = Some s /\ push_returns data name eid s = true) ->
   exists heap',
     Channel.broadcast data eventName eventId pick uuid ch heap
     = (Channel.emit (Channel.Broadcast data name eid) ch, heap', Normal tt)
     /\ (forall j s, j ∈ Channel.recipients pick ch heap ->
                     heap !! j = Some s ->
                     heap' !! j = Some (deliver data name eid s))
     /\ (forall j, j ∉ Channel.recipients pick ch heap -> heap' !! j = heap !! j))
  /\ (forall (pre post : list nat) (k : nat) (sk : Session.t),
        Channel.recipients pick ch heap = pre ++ k :: post ->
        (forall j, j ∈ pre ->
           exists s, heap !! j = Some s /\ push_returns data name eid s = true) ->
        heap !! k = Some sk ->
        push_returns data name eid sk = false ->
        exists e heap',
          Channel.broadcast data eventName eventId pick uuid ch heap
          = (ch, heap', Throw e)
          /\ snd (Session.push data (Some name) (Some eid) eid sk) = Throw e
          /\ heap' !! k = Some (deliver data name eid sk)
          /\ (forall j s, j ∈ pre -> heap !! j = Some s ->
                          heap' !! j = Some (deliver data name eid s))
          /\ (forall j, j ∈ post -> heap' !! j = heap !! j)).
Proof.
  cbv zeta. pose proof (recipients_NoDup pick ch heap Hnd) as Hnd'. split.
  - intros Hall.
    destruct (push_each_prefix (Channel.recipients pick ch heap) [] data
                (default "message"%string eventName) (default uuid eventId)
                heap Hnd' Hall) as (heap1 & H1 & H2).
    rewrite app_nil_r in H1. cbn [Channel.push_each] in H1.
    exists heap1. unfold Channel.broadcast. rewrite H1. split; [reflexivity|].
    split.
    + intros j s Hj Hs. by rewrite H2, decide_True, Hs.
    + intros j Hj. by rewrite H2, decide_False.
  - intros pre post k sk Hsplit Hpre Hk Hrej. rewrite Hsplit in Hnd'.
    apply NoDup_app in Hnd' as (Hnd1 & Hdisj & Hnd2).
    apply NoDup_cons in Hnd2 as [Hk2 Hnd2].
    destruct (push_each_prefix pre (k :: post) data
                (default "message"%string eventName) (default uuid eventId)
                heap Hnd1 Hpre) as (heap1 & H1 & H2).
    assert (Hkpre : k ∉ pre).
    { intros Hin. apply (Hdisj k Hin), list_elem_of_here. }
    destruct (push_returns_false _ _ _ _ Hrej) as [e He].
    exists e, (<[k := deliver data (default "message"%string eventName)
                         (default uuid eventId) sk]> heap1).
    unfold Channel.broadcast. rewrite Hsplit, H1. cbn [Channel.push_each].
    rewrite H2, decide_False, Hk, He by done. split; [reflexivity|].
    split; [reflexivity|]. split; [by rewrite lookup_insert_eq|]. split.
    + intros j s Hj Hs. rewrite lookup_insert_ne by (intros ->; done).
      by rewrite H2, decide_True, Hs.
    + intros j Hj. rewrite lookup_insert_ne by (intros ->; done).
      rewrite H2, decide_False; [done|].
      intros Hin. apply (Hdisj j Hin). by apply list_elem_of_further.
Qed.

Lemma two_session_channel_NoDup : NoDup (Channel.sessions two_session_channel).
Proof.
  apply NoDup_cons. split; [|apply NoDup_singleton].
  intros H%list_elem_of_singleton. discriminate.
Qed.

Lemma broadcast_stops_at_first_throw_witness :
  exists e heap',
    Channel.broadcast (JStr "hi") None (Some "7"%string) None "u"
      two_session_channel two_sessions
    = (two_session_channel, heap', Throw e)
    /\ heap' !! 2%nat = two_sessions !! 2%nat.
Proof.
  destruct (broadcast_stops_at_first_throw two_session_channel two_sessions
              (JStr "hi") None (Some "7"%string) None "u"
              two_session_channel_NoDup)
    as [_ H].
  destruct (H [] [2%nat] 1%nat failing_session eq_refl) as (e & heap' & H1 & _ & _ & _ & H5).
  - intros j Hj. by apply elem_of_nil in Hj.
  - reflexivity.
  - reflexivity.
  - exists e, heap'. split; [exact H1|]. apply H5, list_elem_of_here.
Defined.

(** C3 as worded fails on a channel with two recipients, the first of
    which has a serializer that throws: the second, whose own [push] would
    return, does not receive the event, and the observers of the channel
    are not notified. *)
Lemma broadcast_isolation_counterexample :
  ~ recipients_all_served two_session_channel two_sessions
      (JStr "hi") None (Some "7"%string) None "u"
  /\ ~ observers_notified_once two_session_channel two_sessions
         (JStr "hi") None (Some "7"%string) None "u".
Proof.
  split.
  - intros H. specialize (H 2%nat (fresh_session plain_connection)).
    assert (Hin : 2%nat ∈ Channel.recipients None two_session_channel two_sessions).
    { apply list_elem_of_further, list_elem_of_here. }
    specialize (H Hin eq_refl eq_refl).
    apply (f_equal (fmap (fun s => length (Connection.chunks (Session.connection s)))))
      in H.
    vm_compute in H. discriminate.
  - unfold observers_notified_once. vm_compute. discriminate.
Qed.


(** * Further properties *)

(** ** Line breaks *)

Lemma occurs_replace_char_same (a b : ascii) (s : string) :
  a <> b -> occurs a (replace_char a b s) = false.
Proof.
  intros Hab. induction s as [|c s IH]; [reflexivity|].
  cbn [replace_char occurs]. rewrite IH, orb_false_r.
  destruct (Ascii.eqb_spec c a) as [->|Hc].
  - apply Ascii.eqb_neq. congruence.
  - by apply Ascii.eqb_neq.
Qed.

Lemma occurs_replace_char_other (a b c : ascii) (s : string) :
  c <> b -> occurs c s = false -> occurs c (replace_char a b s) = false.
Proof.
  intros Hcb. induction s as [|x s IH]; [reflexivity|].
  cbn [replace_char occurs]. intros H. apply orb_false_elim in H as [H1 H2].
  rewrite (IH H2), orb_false_r. destruct (Ascii.eqb x a); [|exact H1].
  apply Ascii.eqb_neq. congruence.
Qed.

Lemma replace_char_absent (a b : ascii) (s : string) :
  occurs a s = false -> replace_char a b s = s.
Proof.
  induction s as [|x s IH]; [reflexivity|].
  cbn [replace_char occurs]. intros H. apply orb_false_elim in H as [H1 H2].
  by rewrite H1, (IH H2).
Qed.

Lemma replace_crlf_absent (s : string) :
  occurs CR s = false -> replace_crlf s = s.
Proof.
  induction s as [|x s IH]; [reflexivity|].
  cbn [occurs]. intros H. apply orb_false_elim in H as [H1 H2].
  cbn [replace_crlf]. destruct s as [|y s]; [reflexivity|].
  rewrite H1. cbn [andb]. by rewrite (IH H2).
Qed.

Lemma split_lf_absent (s : string) : occurs LF s = false -> split_lf s = [s].
Proof.
  induction s as [|x s IH]; [reflexivity|].
  cbn [occurs split_lf]. intros H. apply orb_false_elim in H as [H1 H2].
  by rewrite H1, (IH H2).
Qed.

Lemma sanitize_text (s : string) :
  exists t,
    sanitize (JStr s) = Normal (JStr t)
    /\ occurs LF t = false
    /\ occurs CR t = false.
Proof.
  eexists. split; [reflexivity|].
  assert (H1 : occurs CR (replace_char CR LF (replace_crlf s)) = false).
  { by apply occurs_replace_char_same. }
  split; [by apply occurs_replace_char_same|].
  by apply occurs_replace_char_other.
Qed.

Lemma sanitize_clean (u : string) :
  occurs LF u = false -> occurs CR u = false ->
  sanitize (JStr u) = Normal (JStr u).
Proof.
  intros Hl Hc. cbn [sanitize].
  rewrite (replace_crlf_absent u Hc), (replace_char_absent CR LF u Hc).
  by rewrite (replace_char_absent LF " " u Hl).
Qed.

(** X1. Whatever the text, the default sanitizer returns a text with no
    line feed and no carriage return in it, which [split] leaves in one
    piece. *)
Theorem sanitize_removes_line_breaks (s : string) :
  exists t,
    sanitize (JStr s) = Normal (JStr t)
    /\ occurs LF t = false
    /\ occurs CR t = false
    /\ split_lf t = [t].
Proof.
  destruct (sanitize_text s) as (t & H1 & H2 & H3).
  exists t. repeat split; try done. by apply split_lf_absent.
Qed.

(** X2. A text with no line break passes the default sanitizer unchanged,
    and sanitizing twice is sanitizing once. *)
Theorem sanitize_fixes_clean_text (s : string) :
  (occurs LF s = false -> occurs CR s = false ->
   sanitize (JStr s) = Normal (JStr s))
  /\ (forall t, sanitize (JStr s) = Normal (JStr t) ->
                sanitize (JStr t) = Normal (JStr t)).
Proof.
  split; [apply sanitize_clean|].
  intros t Ht. destruct (sanitize_text s) as (t' & H1 & H2 & H3).
  rewrite H1 in Ht. injection Ht as <-. by apply sanitize_clean.
Qed.

(** ** The lines of a frame *)

Lemma split_lf_no_lf (s : string) :
  Forall (fun line => occurs LF line = false) (split_lf s).
Proof.
  induction s as [|c s IH]; [by repeat constructor|].
  cbn [split_lf]. destruct (Ascii.eqb c LF) eqn:E.
  - constructor; [reflexivity|exact IH].
  - pose proof (split_lf_nonempty s) as Hne.
    destruct (split_lf s) as [|l ls]; [contradiction|].
    apply Forall_cons in IH as [H1 H2]. constructor; [|exact H2].
    cbn [occurs]. by rewrite E, H1.
Qed.

Lemma split_lf_length (s : string) :
  length (split_lf s) = S (count_char LF s).
Proof.
  induction s as [|c s IH]; [reflexivity|].
  cbn [split_lf count_char]. destruct (Ascii.eqb c LF).
  - cbn [length]. by rewrite IH.
  - pose proof (split_lf_nonempty s) as Hne.
    destruct (split_lf s) as [|l ls]; [contradiction|]. exact IH.
Qed.

(** X3. Whatever the hooks, a [push] they accept appends the [id:] line,
    the [event:] line and one [data:] line per line of the sanitized text:
    there is one line more than the text has line feeds, no line holds a
    line feed, and the lines joined by line feeds are the text again. *)
Theorem push_data_lines_round_trip (b : EventBuffer.t) (data : JsVal)
    (eventName eventId : option string) (text : string)
    (Htext : push_text b data = Some text) :
  exists lines,
    EventBuffer.buffer (fst (EventBuffer.push data eventName eventId b))
    = EventBuffer.buffer b
      +:+ id_line (default EmptyString eventId)
      +:+ event_line (default "message"%string eventName)
      +:+ concat_strings (map data_line lines) +:+ nl
    /\ length lines = S (count_char LF text)
    /\ Forall (fun line => occurs LF line = false) lines
    /\ join_strings nl lines = text.
Proof.
  exists (split_lf text).
  pose proof (buffer_push_cases b data eventName eventId) as H.
  rewrite Htext in H. rewrite H. cbn [fst].
  split; [reflexivity|]. split; [apply split_lf_length|].
  split; [apply split_lf_no_lf|apply join_split_lf].
Qed.

Lemma push_data_lines_round_trip_witness :
  exists lines,
    EventBuffer.buffer
      (fst (EventBuffer.push (JStr "ab") None (Some "9"%string)
              (EventBuffer.mk "kept" serialize
                 (fun v => match v with
                           | JStr t => Normal (JStr (replace_char "b" LF t))
                           | _ => Normal v
                           end))))
    = "kept" +:+ id_line "9" +:+ event_line "message"
      +:+ concat_strings (map data_line lines) +:+ nl
    /\ length lines = 2%nat.
Proof.
  destruct (push_data_lines_round_trip
              (EventBuffer.mk "kept" serialize
                 (fun v => match v with
                           | JStr t => Normal (JStr (replace_char "b" LF t))
                           | _ => Normal v
                           end))
              (JStr "ab") None (Some "9"%string)
              (String "a" (String LF EmptyString)) eq_refl)
    as (lines & H1 & H2 & _).
  exists lines. split; [exact H1|exact H2].
Defined.

(** X4. With the default hooks, a [push] that returns has appended exactly
    one [data:] line, whose text holds no line break: the buffer grows by
    the [id:] line, the [event:] line, [data: text] and a blank line. *)
Theorem default_push_single_data_line (b : EventBuffer.t) (data : JsVal)
    (eventName eventId : option string) (b' : EventBuffer.t)
    (Hser : EventBuffer.serializer b = serialize)
    (Hsan : EventBuffer.sanitizer b = sanitize)
    (Hpush : EventBuffer.push data eventName eventId b = (b', Normal tt)) :
  exists text,
    push_text b data = Some text
    /\ occurs LF text = false
    /\ occurs CR text = false
    /\ EventBuffer.buffer b'
       = EventBuffer.buffer b
         +:+ id_line (default EmptyString eventId)
         +:+ event_line (default "message"%string eventName)
         +:+ "data: " +:+ text +:+ nl +:+ nl.
Proof.
  destruct (buffer_push_normal_inv _ _ _ _ _ Hpush) as (v & text & H1 & H2).
  exists text.
  assert (Ht : push_text b data = Some text).
  { unfold push_text. by rewrite H1, H2. }
  split; [exact Ht|].
  rewrite Hsan in H2.
  assert (Hclean : occurs LF text = false /\ occurs CR text = false).
  { destruct v; try discriminate.
    destruct (sanitize_text s) as (t & E & Hl & Hc).
    rewrite E in H2. injection H2 as <-. done. }
  destruct Hclean as [Hl Hc]. split; [exact Hl|]. split; [exact Hc|].
  pose proof (buffer_push_cases b data eventName eventId) as H.
  rewrite Ht, Hpush in H. injection H as ->. cbn [EventBuffer.buffer EventBuffer.append].
  unfold wire_frame. rewrite (split_lf_absent text Hl).
  cbn [map concat_strings]. unfold data_line, id_line, event_line.
  by rewrite append_empty_r, !append_assoc.
Qed.

Lemma default_push_single_data_line_witness :
  exists text,
    push_text default_buffer (JStr (String "a" (String CR (String LF "b"))))
    = Some text
    /\ occurs LF text = false.
Proof.
  destruct (default_push_single_data_line default_buffer
              (JStr (String "a" (String CR (String LF "b")))) None None
              _ eq_refl eq_refl eq_refl) as (text & H1 & H2 & _).
  exists text. split; [exact H1|exact H2].
Defined.


(** ** The buffer only grows *)

Lemma buffer_extends_refl (b : EventBuffer.t) : buffer_extends b b.
Proof. exists EmptyString. by rewrite append_empty_r. Qed.

Lemma buffer_extends_trans (b1 b2 b3 : EventBuffer.t) :
  buffer_extends b1 b2 -> buffer_extends b2 b3 -> buffer_extends b1 b3.
Proof.
  intros [x Hx] [y Hy]. exists (x +:+ y). by rewrite Hy, Hx, append_assoc.
Qed.

Lemma buffer_extends_append (text : string) (b : EventBuffer.t) :
  buffer_extends b (EventBuffer.append text b).
Proof. by exists text. Qed.

Lemma buffer_push_extends (data : JsVal) (eventName eventId : option string)
    (b : EventBuffer.t) :
  buffer_extends b (fst (EventBuffer.push data eventName eventId b)).
Proof.
  unfold EventBuffer.push.
  destruct (EventBuffer.serializer b data) as [v|e]; [|apply buffer_extends_refl].
  destruct (EventBuffer.sanitizer b v) as [u|e]; [|apply buffer_extends_refl].
  set (b1 := if truthy _ then _ else b).
  assert (H1 : buffer_extends b b1).
  { subst b1. destruct (truthy _);
      [apply buffer_extends_append|apply buffer_extends_refl]. }
  set (b2 := if truthy _ && _ then _ else b1).
  assert (H2 : buffer_extends b b2).
  { subst b2. destruct (truthy _ && _); [|exact H1].
    eapply buffer_extends_trans; [exact H1|apply buffer_extends_append]. }
  clearbody b2. clear H1 b1.
  destruct u; cbn [fst]; try exact H2.
  rewrite append_data_closed.
  eapply buffer_extends_trans; [exact H2|].
  eapply buffer_extends_trans; apply buffer_extends_append.
Qed.

Lemma buffer_iterate_from_extends (items : list JsVal)
    (eventName eventIdPrefix : string) (uuids : nat -> string) (index : nat)
    (b : EventBuffer.t) :
  buffer_extends b
    (fst (EventBuffer.iterate_from items eventName eventIdPrefix uuids index b)).
Proof.
  revert index b. induction items as [|value r IH]; intros index b.
  - apply buffer_extends_refl.
  - cbn [EventBuffer.iterate_from].
    pose proof (buffer_push_extends value (Some eventName)
                  (Some (EventBuffer.item_id eventIdPrefix uuids index)) b) as Hp.
    destruct (EventBuffer.push value _ _ b) as [b' [[]|e]]; cbn [fst] in *.
    + eapply buffer_extends_trans; [exact Hp|apply IH].
    + exact Hp.
Qed.

(** X5. No call a batch callback makes on the buffer removes text from it:
    after any sequence of [push], [comment], [retry], [dispatch] and
    [iterate] calls, also one cut short by a throw, the buffer holds what
    it held before, followed by what was queued. *)
Theorem buffer_calls_only_append (cs : list EventBuffer.Call) (b : EventBuffer.t) :
  exists suffix,
    EventBuffer.read (fst (EventBuffer.calls cs b))
    = EventBuffer.read b +:+ suffix.
Proof.
  change (buffer_extends b (fst (EventBuffer.calls cs b))).
  revert b. induction cs as [|c r IH]; intros b.
  - apply buffer_extends_refl.
  - cbn [EventBuffer.calls].
    assert (Hc : buffer_extends b (fst (EventBuffer.call c b))).
    { destruct c; cbn [EventBuffer.call fst].
      - apply buffer_push_extends.
      - apply buffer_extends_append.
      - apply buffer_extends_append.
      - apply buffer_extends_refl.
      - apply buffer_iterate_from_extends. }
    destruct (EventBuffer.call c b) as [b' [[]|e]]; cbn [fst] in *.
    + eapply buffer_extends_trans; [exact Hc|apply IH].
    + exact Hc.
Qed.

(** X6. When the sanitizer returns something that is not a string, [push]
    throws a [TypeError] at [sanitized.split], after the [id:] and [event:]
    lines have been appended: these stay in the buffer without [data:]
    lines and without the closing blank line. *)
Theorem push_non_string_leaves_partial_frame (b : EventBuffer.t)
    (data v u : JsVal) (eventName eventId : option string)
    (Hser : EventBuffer.serializer b data = Normal v)
    (Hsan : EventBuffer.sanitizer b v = Normal u)
    (Hu : forall text, u <> JStr text) :
  exists b' message,
    EventBuffer.push data eventName eventId b = (b', Throw (TypeError message))
    /\ EventBuffer.buffer b'
       = EventBuffer.buffer b
         +:+ id_line (default EmptyString eventId)
         +:+ event_line (default "message"%string eventName).
Proof.
  unfold EventBuffer.push. rewrite Hser, Hsan. unfold id_line, event_line.
  destruct (truthy (default EmptyString eventId));
    destruct (truthy (default "message"%string eventName)
              && negb (String.eqb (default "message"%string eventName) "message"));
    destruct u; try (by destruct (Hu s));
    eexists _, _; (split; [reflexivity|]);
    cbn [EventBuffer.buffer EventBuffer.append];
    rewrite ?append_empty_l, ?append_empty_r, ?append_assoc; reflexivity.
Qed.

Lemma push_non_string_leaves_partial_frame_witness :
  exists b' message,
    EventBuffer.push (JNum 1) (Some "tick"%string) (Some "7"%string)
      (EventBuffer.mk EmptyString serialize (fun _ => Normal JNull))
    = (b', Throw (TypeError message))
    /\ EventBuffer.buffer b' = "id: 7" +:+ nl +:+ "event: tick" +:+ nl.
Proof.
  destruct (push_non_string_leaves_partial_frame
              (EventBuffer.mk EmptyString serialize (fun _ => Normal JNull))
              (JNum 1) (JStr "1") JNull (Some "tick"%string) (Some "7"%string)
              eq_refl eq_refl (fun text H => eq_ind JNull
                 (fun x => match x with JNull => True | _ => False end)
                 I _ H))
    as (b' & m & H1 & H2).
  exists b', m. split; [exact H1|exact H2].
Defined.

(** ** Iterating into a buffer *)




Lemma to_int_nonnil (z : Z) :
  Z.to_int z <> Decimal.Pos Decimal.Nil /\ Z.to_int z <> Decimal.Neg Decimal.Nil.
Proof.
  destruct z; cbn; split; try discriminate.
  - intros [= H]. by apply (Unsigned.to_uint_nonnil p).
  - intros [= H]. by apply (Unsigned.to_uint_nonnil p).
Qed.

(** Printing in decimal loses nothing. *)
Lemma dec_inj (z1 z2 : Z) : dec z1 = dec z2 -> z1 = z2.
Proof.
  unfold dec. intros H. apply DecimalZ.to_int_inj.
  destruct (to_int_nonnil z1) as [A1 B1]. destruct (to_int_nonnil z2) as [A2 B2].
  pose proof (NilZero.isi _ A1 B1) as H1. pose proof (NilZero.isi _ A2 B2) as H2.
  rewrite H in H1. congruence.
Qed.

(** X8. With a prefix, the event ids of an iteration or a stream are
    pairwise distinct: two positions with the same id are the same
    position. *)
Theorem prefixed_item_ids_distinct (eventIdPrefix : string)
    (uuids : nat -> string) (i j : nat)
    (Hprefix : truthy eventIdPrefix = true)
    (Hsame : EventBuffer.item_id eventIdPrefix uuids i
             = EventBuffer.item_id eventIdPrefix uuids j) :
  i = j.
Proof.
  unfold EventBuffer.item_id in Hsame. rewrite Hprefix in Hsame.
  apply String.app_inj in Hsame. apply String.app_inj in Hsame.
  unfold decn in Hsame. apply dec_inj in Hsame. lia.
Qed.

Lemma prefixed_item_ids_distinct_witness : 3%nat = 3%nat.
Proof.
  apply (prefixed_item_ids_distinct "chunk" (fun _ => EmptyString) 3 3);
    reflexivity.
Defined.

(** ** The bootstrap *)

Lemma set_buffer_append_twice (x y : string) (b : EventBuffer.t) (s : Session.t) :
  Session.set_buffer
    (EventBuffer.append y
       (Session.buffer (Session.set_buffer (EventBuffer.append x b) s)))
    (Session.set_buffer (EventBuffer.append x b) s)
  = Session.set_buffer (EventBuffer.append (x +:+ y) b) s.
Proof.
  unfold Session.set_buffer. cbn. by rewrite append_append.
Qed.

(** X9. The bootstrap commits the response head once and makes exactly one
    write: what the buffer held, then the padding comment of 2049 spaces
    when the URL has a [padding] parameter, then the one of 2056 spaces
    when it has an [evs_preamble] parameter, then the retry directive
    unless [retry] is [null]; the write is made (with the empty text) even
    when none of these applies. It starts the keep-alive interval unless
    [keepAlive] is [null], marks the session connected and emits
    "connected". *)
Theorem initialize_writes_one_chunk (s : Session.t) :
  Connection.heads (Session.connection (Session.initialize s))
  = S (Connection.heads (Session.connection s))
  /\ Connection.chunks (Session.connection (Session.initialize s))
     = Connection.chunks (Session.connection s)
       ++ [EventBuffer.buffer (Session.buffer s) +:+ bootstrap_text s]
  /\ EventBuffer.buffer (Session.buffer (Session.initialize s)) = EmptyString
  /\ Session.keepAliveTimer (Session.initialize s)
     = match Session.keepAliveInterval s with
       | Some _ => Some true
       | None => Session.keepAliveTimer s
       end
  /\ Session.isConnected (Session.initialize s) = true
  /\ Session.emitted (Session.initialize s)
     = Session.emitted s ++ [Session.Connected].
Proof.
  unfold Session.initialize, bootstrap_text, comment_frame.
  generalize (spaces 2049), (spaces 2056). intros pad1 pad2.
  set (s1 := Session.set_connection (Connection.sendHead (Session.connection s)) s).
  set (t2 := if Connection.param_has "padding" (Session.connection s)
             then ": " +:+ default EmptyString (Some pad1) +:+ nl +:+ nl
             else EmptyString).
  set (s2 := if Connection.param_has "padding" (Session.connection s1)
             then _ else s1).
  assert (H2 : s2 = Session.set_buffer (EventBuffer.append t2 (Session.buffer s)) s1).
  { subst s2 t2.
    change (Connection.param_has "padding" (Session.connection s1))
      with (Connection.param_has "padding" (Session.connection s)).
    destruct (Connection.param_has "padding" (Session.connection s)).
    - reflexivity.
    - rewrite append_nothing. subst s1. by destruct s. }
  clearbody s2. subst s2.
  set (t3 := if Connection.param_has "evs_preamble" (Session.connection s)
             then ": " +:+ default EmptyString (Some pad2) +:+ nl +:+ nl
             else EmptyString).
  set (s3 := if Connection.param_has "evs_preamble" _ then _ else _).
  assert (H3 : s3 = Session.set_buffer
                      (EventBuffer.append (t2 +:+ t3) (Session.buffer s)) s1).
  { subst s3 t3.
    change (Connection.param_has "evs_preamble"
              (Session.connection
                 (Session.set_buffer (EventBuffer.append t2 (Session.buffer s)) s1)))
      with (Connection.param_has "evs_preamble" (Session.connection s)).
    destruct (Connection.param_has "evs_preamble" (Session.connection s)).
    - apply set_buffer_append_twice.
    - by rewrite append_empty_r. }
  clearbody s3. subst s3.
  set (t4 := match Session.initialRetry s with
             | Some time => retry_frame time
             | None => EmptyString
             end).
  set (s4 := match Session.initialRetry _ with Some _ => _ | None => _ end).
  assert (H4 : s4 = Session.set_buffer
                      (EventBuffer.append ((t2 +:+ t3) +:+ t4) (Session.buffer s))
                      s1).
  { subst s4 t4.
    change (Session.initialRetry
              (Session.set_buffer
                 (EventBuffer.append (t2 +:+ t3) (Session.buffer s)) s1))
      with (Session.initialRetry s).
    destruct (Session.initialRetry s).
    - apply set_buffer_append_twice.
    - by rewrite append_empty_r. }
  clearbody s4. subst s4. clearbody t2 t3 t4.
  change (Session.keepAliveInterval
            (Session.flush
               (Session.set_buffer
                  (EventBuffer.append ((t2 +:+ t3) +:+ t4) (Session.buffer s)) s1)))
    with (Session.keepAliveInterval s).
  destruct (Session.keepAliveInterval s); cbn; rewrite append_assoc; done.
Qed.

(** ** The teardown *)

Lemma count_disconnected_app (l1 l2 : list Session.Event) :
  count_disconnected (l1 ++ l2)
  = (count_disconnected l1 + count_disconnected l2)%nat.
Proof.
  induction l1 as [|e l1 IH]; [reflexivity|].
  destruct e; cbn [app count_disconnected]; rewrite IH; reflexivity.
Qed.

Lemma no_teardown_refl (s : Session.t) : no_teardown s s.
Proof. repeat split. Qed.

Lemma no_teardown_trans (s1 s2 s3 : Session.t) :
  no_teardown s1 s2 -> no_teardown s2 s3 -> no_teardown s1 s3.
Proof.
  unfold no_teardown. intros (a1 & a2 & a3) (b1 & b2 & b3).
  repeat split; congruence.
Qed.

Lemma session_push_no_teardown (s : Session.t) (data : JsVal)
    (eventName eventId : option string) (uuid : string) :
  no_teardown s (fst (Session.push data eventName eventId uuid s)).
Proof.
  destruct (Session.isConnected s) eqn:Hc.
  - destruct (push_text (Session.buffer s) data) as [text|] eqn:Ht.
    + rewrite (session_push_ok _ _ _ _ _ _ Hc Ht). cbn [fst].
      unfold no_teardown. rewrite after_push_emitted, count_disconnected_app.
      cbn. split; [done|]. split; [done|lia].
    + destruct (session_push_rejected s data eventName eventId uuid Hc Ht)
        as (b & e & -> & _). repeat split.
  - rewrite session_push_inactive by assumption. apply no_teardown_refl.
Qed.

Lemma session_iterate_from_no_teardown (items : list JsVal)
    (eventName eventIdPrefix : string) (uuids : nat -> string) (index : nat)
    (s : Session.t) :
  no_teardown s
    (fst (Session.iterate_from items eventName eventIdPrefix uuids index s)).
Proof.
  revert index s. induction items as [|value r IH]; intros index s.
  - apply no_teardown_refl.
  - cbn [Session.iterate_from].
    pose proof (session_push_no_teardown s value (Some eventName)
                  (Some (EventBuffer.item_id eventIdPrefix uuids index))
                  (EventBuffer.item_id eventIdPrefix uuids index)) as Hp.
    destruct (Session.push value _ _ _ s) as [s' [[]|e]]; cbn [fst] in *.
    + eapply no_teardown_trans; [exact Hp|apply IH].
    + exact Hp.
Qed.

Lemma session_stream_data_no_teardown (chunks : list JsVal)
    (eventName eventIdPrefix : string)
    (transform : option (JsVal -> Completion JsVal)) (uuids : nat -> string)
    (index : nat) (settled : option (Completion bool)) (s : Session.t) :
  no_teardown s
    (fst (fst (Session.stream_data chunks eventName eventIdPrefix transform
                 uuids index settled s))).
Proof.
  revert index settled s. induction chunks as [|chunk r IH]; intros index settled s.
  - apply no_teardown_refl.
  - cbn [Session.stream_data].
    destruct (match transform with Some f => f chunk | None => Normal chunk end)
      as [data|e]; [|apply IH].
    pose proof (session_push_no_teardown s data (Some eventName)
                  (Some (EventBuffer.item_id eventIdPrefix uuids index))
                  (EventBuffer.item_id eventIdPrefix uuids index)) as Hp.
    destruct (Session.push data _ _ _ s) as [s' [[]|e]]; cbn [fst] in *;
      (eapply no_teardown_trans; [exact Hp|apply IH]).
Qed.

Lemma initialize_no_teardown (s : Session.t) :
  no_teardown s (Session.initialize s).
Proof.
  assert (Hc : Connection.abortListener (Session.connection (Session.initialize s))
               = Connection.abortListener (Session.connection s)
               /\ Connection.cleanups (Session.connection (Session.initialize s))
                  = Connection.cleanups (Session.connection s)).
  { unfold Session.initialize.
    generalize (spaces 2049), (spaces 2056). intros pad1 pad2.
    set (s1 := Session.set_connection (Connection.sendHead (Session.connection s)) s).
    assert (H1 : no_teardown s s1) by (repeat split). clearbody s1.
    set (s2 := if Connection.param_has "padding" (Session.connection s1)
               then _ else s1).
    assert (H2 : no_teardown s1 s2).
    { subst s2. destruct (Connection.param_has _ _); repeat split. }
    clearbody s2.
    set (s3 := if Connection.param_has "evs_preamble" (Session.connection s2)
               then _ else s2).
    assert (H3 : no_teardown s2 s3).
    { subst s3. destruct (Connection.param_has _ _); repeat split. }
    clearbody s3.
    set (s4 := match Session.initialRetry s3 with Some _ => _ | None => s3 end).
    assert (H4 : no_teardown s3 s4).
    { subst s4. destruct (Session.initialRetry s3); repeat split. }
    clearbody s4.
    set (s6 := match Session.keepAliveInterval (Session.flush s4) with
               | Some _ => _
               | None => Session.flush s4
               end).
    assert (H6 : no_teardown s4 s6).
    { subst s6. destruct (Session.keepAliveInterval _); repeat split. }
    clearbody s6.
    assert (H : no_teardown s s6) by eauto using no_teardown_trans.
    destruct H as (A1 & A2 & _). split; [exact A1|exact A2]. }
  destruct Hc as [H1 H2]. split; [exact H1|]. split; [exact H2|].
  destruct (initialize_state s) as (_ & _ & _ & _ & -> & _).
  rewrite count_disconnected_app. cbn. lia.
Qed.

Lemma session_step_no_teardown (op : Session.Op) (s : Session.t) :
  op <> Session.Abort -> no_teardown s (Session.step op s).
Proof.
  intros Hop. destruct op; try done; cbn [Session.step].
  - destruct (Session.pendingInitialize s); [|apply no_teardown_refl].
    eapply no_teardown_trans; [|apply initialize_no_teardown]. repeat split.
  - destruct (Session.keepAliveTimer s) as [[]|]; repeat split.
  - apply session_push_no_teardown.
  - apply session_iterate_from_no_teardown.
  - unfold Session.stream.
    pose proof (session_stream_data_no_teardown chunks
                  (default "stream"%string eventName)
                  (default EmptyString eventIdPrefix) transform uuids 0%nat None s)
      as H.
    destruct (Session.stream_data _ _ _ _ _ _ _ s) as [[s' i] st]. exact H.
  - unfold Session.batch, Session.batch_resume.
    destruct (EventBuffer.calls cs (Session.buffer s)) as [b [[]|e]]; repeat split.
Qed.

(** X10. Whatever happens to a session after its construction, it emits
    "disconnected" at most once and calls [cleanup] of its connection at
    most once: until the abort listener has run there is no such event
    and no such call, and from then on, the listener being detached, there
    is exactly one of each. *)
Theorem disconnected_at_most_once (c : Connection.t) (options : Session.Options)
    (ops : list Session.Op) :
  let s := Session.run ops (Session.create c options) in
  (Connection.abortListener (Session.connection s) = true
   /\ count_disconnected (Session.emitted s) = 0%nat
   /\ Connection.cleanups (Session.connection s) = Connection.cleanups c)
  \/ (Connection.abortListener (Session.connection s) = false
      /\ count_disconnected (Session.emitted s) = 1%nat
      /\ Connection.cleanups (Session.connection s) = S (Connection.cleanups c)).
Proof.
  cbv zeta.
  assert (H : forall s0 : Session.t,
             (Connection.abortListener (Session.connection s0) = true
              /\ count_disconnected (Session.emitted s0) = 0%nat
              /\ Connection.cleanups (Session.connection s0) = Connection.cleanups c)
             \/ (Connection.abortListener (Session.connection s0) = false
                 /\ count_disconnected (Session.emitted s0) = 1%nat
                 /\ Connection.cleanups (Session.connection s0)
                    = S (Connection.cleanups c)) ->
             (Connection.abortListener (Session.connection (Session.run ops s0)) = true
              /\ count_disconnected (Session.emitted (Session.run ops s0)) = 0%nat
              /\ Connection.cleanups (Session.connection (Session.run ops s0))
                 = Connection.cleanups c)
             \/ (Connection.abortListener (Session.connection (Session.run ops s0))
                 = false
                 /\ count_disconnected (Session.emitted (Session.run ops s0)) = 1%nat
                 /\ Connection.cleanups (Session.connection (Session.run ops s0))
                    = S (Connection.cleanups c))).
  { induction ops as [|op ops IH]; intros s0 H0; [exact H0|].
    cbn [Session.run fold_left]. apply IH.
    assert (Hd : op = Session.Abort \/ op <> Session.Abort).
    { destruct op; (by left) || (by right). }
    destruct Hd as [->|Hop].
    - cbn [Session.step]. destruct H0 as [(Ha & Hn & Hk) | (Ha & Hn & Hk)].
      + rewrite Ha. right. unfold Session.onDisconnected.
        destruct (Session.keepAliveTimer _); cbn;
          rewrite count_disconnected_app, Hn, Hk; done.
      + rewrite Ha. by right.
    - destruct (session_step_no_teardown op s0 Hop) as (E1 & E2 & E3).
      rewrite E1, E2, E3. exact H0. }
  apply H. left. repeat split.
Qed.

(** X11. A keep-alive tick on a running interval makes one write, the text
    in the buffer followed by the comment frame [: ] and a blank line, and
    changes neither the last event id nor the log of events; once
    [onDisconnected] has run the interval is cleared and a tick does
    nothing. *)
Theorem keep_alive_tick (s : Session.t) :
  (Session.keepAliveTimer s = Some true ->
   Connection.chunks (Session.connection (Session.step Session.Tick s))
   = Connection.chunks (Session.connection s)
     ++ [EventBuffer.buffer (Session.buffer s) +:+ ": " +:+ nl +:+ nl]
   /\ Session.lastId (Session.step Session.Tick s) = Session.lastId s
   /\ Session.emitted (Session.step Session.Tick s) = Session.emitted s)
  /\ Session.step Session.Tick (Session.onDisconnected s) = Session.onDisconnected s.
Proof.
  split.
  - intros H. cbn [Session.step]. rewrite H. repeat split.
  - cbn [Session.step].
    assert (E : Session.keepAliveTimer (Session.onDisconnected s)
                = match Session.keepAliveTimer s with
                  | Some _ => Some false
                  | None => None
                  end).
    { destruct s as [l i b c r k t p o e]. by destruct t. }
    rewrite E. by destruct (Session.keepAliveTimer s).
Qed.

(** ** Iterating and streaming *)








Lemma stream_data_settled_irrelevant (chunks : list JsVal)
    (eventName eventIdPrefix : string)
    (transform : option (JsVal -> Completion JsVal)) (uuids : nat -> string)
    (index : nat) (st st' : option (Completion bool)) (s : Session.t) :
  fst (Session.stream_data chunks eventName eventIdPrefix transform uuids index st s)
  = fst (Session.stream_data chunks eventName eventIdPrefix transform uuids index
           st' s).
Proof.
  revert index st st' s. induction chunks as [|chunk r IH]; intros index st st' s.
  - reflexivity.
  - cbn [Session.stream_data].
    destruct (match transform with Some f => f chunk | None => Normal chunk end)
      as [data|e]; [|apply IH].
    destruct (Session.push data _ _ _ s) as [s' [[]|e]]; apply IH.
Qed.

Lemma stream_data_app (pre rest : list JsVal) (eventName eventIdPrefix : string)
    (transform : option (JsVal -> Completion JsVal)) (uuids : nat -> string)
    (index : nat) (st : option (Completion bool)) (s : Session.t) :
  Session.stream_data (pre ++ rest) eventName eventIdPrefix transform uuids index
    st s
  = match Session.stream_data pre eventName eventIdPrefix transform uuids index
            st s with
    | (s1, i1, st1) =>
        Session.stream_data rest eventName eventIdPrefix transform uuids i1 st1 s1
    end.
Proof.
  revert index st s. induction pre as [|chunk r IH]; intros index st s.
  - reflexivity.
  - cbn [app Session.stream_data].
    destruct (match transform with Some f => f chunk | None => Normal chunk end)
      as [data|e]; [|apply IH].
    destruct (Session.push data _ _ _ s) as [s' [[]|e]]; apply IH.
Qed.

(** The promise of [stream] settles once: the first rejection stays, and
    nothing but the end of the readable resolves it. *)
Lemma stream_data_settled (chunks : list JsVal) (eventName eventIdPrefix : string)
    (transform : option (JsVal -> Completion JsVal)) (uuids : nat -> string)
    (index : nat) (st : option (Completion bool)) (s : Session.t) :
  (forall e, st = Some (Throw e) ->
     snd (Session.stream_data chunks eventName eventIdPrefix transform uuids index
            st s) = Some (Throw e))
  /\ (st = None ->
      snd (Session.stream_data chunks eventName eventIdPrefix transform uuids index
             st s) = None
      \/ exists e,
           snd (Session.stream_data chunks eventName eventIdPrefix transform uuids
                  index st s) = Some (Throw e)).
Proof.
  revert index st s. induction chunks as [|chunk r IH]; intros index st s.
  - cbn. split; [done|]. intros ->. by left.
  - cbn [Session.stream_data].
    destruct (match transform with Some f => f chunk | None => Normal chunk end)
      as [data|e0].
    + destruct (Session.push data _ _ _ s) as [s' [[]|e1]].
      * apply IH.
      * split.
        -- intros e ->. by apply IH.
        -- intros ->. right. exists e1. by apply IH.
    + split.
      * intros e ->. by apply IH.
      * intros ->. right. exists e0. by apply IH.
Qed.

(** X14. A chunk on which the transform throws rejects the promise of
    [stream] and is otherwise skipped: the "data" listener stays attached,
    the chunks after it are pushed all the same, with the indices they
    would have had without it, so that the session ends as if the chunk
    had not been in the stream; when it is the first chunk the promise
    rejects with the very error the transform threw. *)
Theorem stream_skips_failed_transform (s : Session.t) (pre post : list JsVal)
    (bad : JsVal) (ending : Session.Ending)
    (eventName eventIdPrefix : option string)
    (f : JsVal -> Completion JsVal) (uuids : nat -> string) (e : Exn)
    (Hbad : f bad = Throw e) :
  fst (Session.stream (pre ++ bad :: post) ending eventName eventIdPrefix
         (Some f) uuids s)
  = fst (Session.stream (pre ++ post) ending eventName eventIdPrefix (Some f)
           uuids s)
  /\ (exists e',
        snd (Session.stream (pre ++ bad :: post) ending eventName eventIdPrefix
               (Some f) uuids s) = Throw e')
  /\ snd (Session.stream (bad :: post) ending eventName eventIdPrefix (Some f)
            uuids s) = Throw e.
Proof.
  unfold Session.stream. rewrite !stream_data_app.
  set (n := default "stream"%string eventName).
  set (p := default EmptyString eventIdPrefix).
  pose proof (stream_data_settled pre n p (Some f) uuids 0%nat None s) as [_ Hpre].
  destruct (Session.stream_data pre n p (Some f) uuids 0%nat None s)
    as [[s1 i1] st1] eqn:Epre.
  cbn [snd] in Hpre. cbn [Session.stream_data]. rewrite Hbad.
  split; [|split].
  - pose proof (stream_data_settled_irrelevant post n p (Some f) uuids i1
                  (nullish st1 (Some (Throw e))) st1 s1) as H.
    destruct (Session.stream_data post n p (Some f) uuids i1
                (nullish st1 (Some (Throw e))) s1) as [[a1 a2] a3].
    destruct (Session.stream_data post n p (Some f) uuids i1 st1 s1)
      as [[b1 b2] b3].
    cbn [fst] in *. congruence.
  - assert (Hst : exists e', nullish st1 (Some (Throw e)) = Some (Throw e')).
    { destruct (Hpre eq_refl) as [-> | [e1 ->]]; cbn; eauto. }
    destruct Hst as [e' He'].
    pose proof (stream_data_settled post n p (Some f) uuids i1
                  (nullish st1 (Some (Throw e))) s1) as [H _].
    specialize (H e' He').
    destruct (Session.stream_data post n p (Some f) uuids i1
                (nullish st1 (Some (Throw e))) s1) as [[a1 a2] a3].
    cbn [snd] in H. subst a3. exists e'. reflexivity.
  - pose proof (stream_data_settled post n p (Some f) uuids 0%nat
                  (Some (Throw e)) s) as [H _].
    specialize (H e eq_refl). cbn [nullish].
    destruct (Session.stream_data post n p (Some f) uuids 0%nat
                (Some (Throw e)) s) as [[a1 a2] a3].
    cbn [snd] in H. by subst a3.
Qed.

Lemma stream_skips_failed_transform_witness :
  Connection.chunks
    (Session.connection
       (fst (Session.stream [JNum 1; JNull; JNum 2] Session.Ends None
               (Some "c"%string)
               (Some (fun v => match v with
                               | JNull => Throw (Raised JNull)
                               | _ => Normal v
                               end))
               (fun _ => EmptyString) (fresh_session plain_connection))))
  = [ "retry: 2000" +:+ nl +:+ nl;
      "id: c-0" +:+ nl +:+ "event: stream" +:+ nl +:+ "data: 1" +:+ nl +:+ nl;
      "id: c-1" +:+ nl +:+ "event: stream" +:+ nl +:+ "data: 2" +:+ nl +:+ nl ].
Proof.
  destruct (stream_skips_failed_transform (fresh_session plain_connection)
              [JNum 1] [JNum 2] JNull Session.Ends None (Some "c"%string)
              (fun v => match v with
                        | JNull => Throw (Raised JNull)
                        | _ => Normal v
                        end)
              (fun _ => EmptyString) (Raised JNull) eq_refl) as [H _].
  cbn [app] in H. rewrite H. reflexivity.
Defined.




(** X16. [batch] does not look at [isConnected]: on a session that is not
    connected, where [push] throws, a batch whose callback returns (here
    without having been suspended) still makes its one write to the
    connection, without committing the response head. *)
Theorem batch_writes_when_not_connected (s : Session.t)
    (cs : list EventBuffer.Call)
    (Hinactive : Session.isConnected s = false)
    (Hnormal : snd (EventBuffer.calls cs (Session.buffer s)) = Normal tt) :
  snd (Session.batch (EventBuffer.calls cs) [] s) = Normal tt
  /\ Connection.chunks
       (Session.connection (fst (Session.batch (EventBuffer.calls cs) [] s)))
     = Connection.chunks (Session.connection s)
       ++ [EventBuffer.read (fst (EventBuffer.calls cs (Session.buffer s)))]
  /\ Connection.heads
       (Session.connection (fst (Session.batch (EventBuffer.calls cs) [] s)))
     = Connection.heads (Session.connection s)
  /\ (forall data eventName eventId uuid,
        snd (Session.push data eventName eventId uuid s)
        = Throw (SseError Session.not_active)).
Proof.
  unfold Session.batch, Session.batch_resume.
  destruct (EventBuffer.calls cs (Session.buffer s)) as [b [[]|e]];
    [|discriminate].
  repeat split. intros. by rewrite session_push_inactive.
Qed.

Lemma batch_writes_when_not_connected_witness :
  Connection.chunks
    (Session.connection
       (fst (Session.batch
               (EventBuffer.calls [EventBuffer.CPush (JStr "early") None None]) []
               (Session.create plain_connection Session.no_options))))
  = ["data: early" +:+ nl +:+ nl].
Proof.
  destruct (batch_writes_when_not_connected
              (Session.create plain_connection Session.no_options)
              [EventBuffer.CPush (JStr "early") None None] eq_refl eq_refl)
    as (_ & H & _).
  rewrite H. reflexivity.
Defined.

(** ** Registering and deregistering *)

(** X17. [register] is idempotent: calling it again with the same session,
    on the channel and the heap the first call left, changes nothing more
    and ends the same way: the session is listed once, carries one more
    listener, and "session-registered" is emitted once; a call that threw
    throws again. *)
Theorem register_twice (self session : nat) (ch : Channel.t)
    (heap : gmap nat Session.t) :
  Channel.register self session
    (fst (fst (Channel.register self session ch heap)))
    (snd (fst (Channel.register self session ch heap)))
  = Channel.register self session ch heap.
Proof.
  destruct (Channel.register self session ch heap) as [[ch1 heap1] r] eqn:E.
  cbn [fst snd]. unfold Channel.register in E.
  destruct (Channel.has session ch) eqn:Hhas.
  - injection E as <- <- <-. unfold Channel.register. by rewrite Hhas.
  - destruct (heap !! session) as [s|] eqn:Hs.
    + destruct (Session.isConnected s) eqn:Hc; cbn [negb] in E;
        injection E as <- <- <-.
      * unfold Channel.register.
        assert (H : Channel.has session
                      (Channel.emit (Channel.SessionRegistered session)
                         {| Channel.sessions := Channel.sessions ch ++ [session];
                            Channel.emitted := Channel.emitted ch |}) = true).
        { apply has_spec. cbn. apply elem_of_app. right.
          by apply list_elem_of_singleton. }
        by rewrite H.
      * unfold Channel.register. by rewrite Hhas, Hs, Hc.
    + injection E as <- <- <-. unfold Channel.register. by rewrite Hhas, Hs.
Qed.

Lemma world_eta (w : World.t) :
  {| World.sessions := World.sessions w; World.channels := World.channels w |} = w.
Proof. by destruct w. Qed.

(** X18. In a world a program can reach, registering a session that is
    not connected (one not yet bootstrapped, or one that has disconnected)
    throws the [SseError] of [register] and leaves every channel and every
    session as it was. *)
Theorem register_inactive_throws (w : World.t) (k session : nat)
    (ch : Channel.t) (s : Session.t)
    (Hreach : World.reachable w)
    (Hch : World.channels w !! k = Some ch)
    (Hs : World.sessions w !! session = Some s)
    (Hinactive : Session.isConnected s = false) :
  World.register k session w
  = (w, Throw (SseError "Cannot register a non-active session.")).
Proof.
  pose proof (registry_ok_reachable w Hreach) as Hok.
  destruct (Hok k ch Hch) as [_ Hmem].
  assert (Hhas : Channel.has session ch = false).
  { destruct (Channel.has session ch) eqn:E; [|reflexivity].
    apply has_spec in E. destruct (Hmem session E) as (s0 & H0 & H1 & _).
    congruence. }
  unfold World.register, Channel.register. rewrite Hch, Hhas, Hs, Hinactive.
  cbn [negb]. by rewrite insert_id, world_eta.
Qed.

Lemma register_inactive_throws_witness :
  World.register 0 1
    (World.run [World.NewChannel 0;
                World.NewSession 1 plain_connection Session.no_options]
       World.empty)
  = (World.run [World.NewChannel 0;
                World.NewSession 1 plain_connection Session.no_options]
       World.empty,
     Throw (SseError "Cannot register a non-active session.")).
Proof.
  apply (register_inactive_throws
           (World.run [World.NewChannel 0;
                       World.NewSession 1 plain_connection Session.no_options]
              World.empty)
           0%nat 1%nat Channel.create
           (Session.create plain_connection Session.no_options)
           (ex_intro _ _ eq_refl) eq_refl eq_refl eq_refl).
Defined.

Lemma notify_not_listed (listeners : list nat) (session k : nat)
    (chans : gmap nat Channel.t) :
  k ∉ listeners -> World.notify listeners session chans !! k = chans !! k.
Proof.
  revert chans. induction listeners as [|j r IH]; intros chans Hk; [reflexivity|].
  apply not_elem_of_cons in Hk as [Hne Hk]. cbn [World.notify].
  rewrite IH by done. by rewrite lookup_alter_ne.
Qed.

Lemma notify_app (l1 l2 : list nat) (session : nat) (chans : gmap nat Channel.t) :
  World.notify (l1 ++ l2) session chans
  = World.notify l2 session (World.notify l1 session chans).
Proof.
  revert chans. induction l1 as [|j r IH]; intros chans; [reflexivity|].
  cbn [app World.notify]. apply IH.
Qed.

(** X19. [deregister] undoes the listing of [register] but not its
    listener: after registering a session and deregistering it by hand the
    channel lists what it listed before, and when the session disconnects
    later the channel still emits "session-disconnected" for it, with no
    second "session-deregistered" and no change of the registry. *)
Theorem deregister_keeps_listener (w : World.t) (k session : nat)
    (ch : Channel.t) (s : Session.t)
    (Hch : World.channels w !! k = Some ch)
    (Hs : World.sessions w !! session = Some s)
    (Hconnected : Session.isConnected s = true)
    (Hnew : Channel.has session ch = false)
    (Hfirst : k ∉ Session.onceDisconnected s) :
  let w1 := fst (World.register k session w) in
  let w2 := World.deregister k session w1 in
  let w3 := World.onDisconnected session w2 in
  (exists ch2,
     World.channels w2 !! k = Some ch2
     /\ Channel.activeSessions ch2 = Channel.activeSessions ch
     /\ Channel.emitted ch2
        = Channel.emitted ch
          ++ [Channel.SessionRegistered session;
              Channel.SessionDeregistered session])
  /\ (exists ch3,
        World.channels w3 !! k = Some ch3
        /\ Channel.activeSessions ch3 = Channel.activeSessions ch
        /\ Channel.emitted ch3
           = Channel.emitted ch
             ++ [Channel.SessionRegistered session;
                 Channel.SessionDeregistered session;
                 Channel.SessionDisconnected session]).
Proof.
  cbv zeta.
  assert (Hnin : session ∉ Channel.sessions ch).
  { intros Hin. apply has_spec in Hin. congruence. }
  assert (Hfilter : filter (fun y => y ≠ session) (Channel.sessions ch ++ [session])
                    = Channel.sessions ch).
  { rewrite filter_app, filter_ne_absent by done.
    rewrite filter_cons_False by naive_solver. by rewrite filter_nil, app_nil_r. }
  set (ch1 := Channel.emit (Channel.SessionRegistered session)
                {| Channel.sessions := Channel.sessions ch ++ [session];
                   Channel.emitted := Channel.emitted ch |}).
  set (s1 := Session.set_onceDisconnected (Session.onceDisconnected s ++ [k]) s).
  assert (Hw1 : fst (World.register k session w)
                = {| World.sessions := <[session := s1]> (World.sessions w);
                     World.channels := <[k := ch1]> (World.channels w) |}).
  { unfold World.register, Channel.register.
    by rewrite Hch, Hnew, Hs, Hconnected. }
  rewrite Hw1. clear Hw1.
  set (ch2 := Channel.deregister session ch1).
  assert (Hch2 : Channel.sessions ch2 = Channel.sessions ch
                 /\ Channel.emitted ch2
                    = Channel.emitted ch
                      ++ [Channel.SessionRegistered session;
                          Channel.SessionDeregistered session]).
  { subst ch2. unfold Channel.deregister.
    assert (H : Channel.has session ch1 = true).
    { apply has_spec. cbn. apply elem_of_app. right.
      by apply list_elem_of_singleton. }
    rewrite H. cbn. rewrite Hfilter. split; [done|]. by rewrite <- app_assoc. }
  destruct Hch2 as [Hs2 He2].
  assert (Hk2 : alter (Channel.deregister session) k
                  (<[k := ch1]> (World.channels w)) !! k = Some ch2).
  { by rewrite lookup_alter_eq, lookup_insert_eq. }
  unfold World.deregister. cbn [World.channels World.sessions].
  split.
  - exists ch2. done.
  - exists (Channel.emit (Channel.SessionDisconnected session) ch2).
    split; [|split].
    + unfold World.onDisconnected.
      cbn [World.sessions World.channels]. rewrite lookup_insert_eq.
      cbn [World.channels]. subst s1.
      cbn [Session.onceDisconnected Session.set_onceDisconnected].
      rewrite notify_app. cbn [World.notify]. rewrite lookup_alter_eq.
      rewrite notify_not_listed by done.
      rewrite Hk2. cbn [fmap option_fmap option_map].
      f_equal. unfold Channel.on_disconnected, Channel.deregister.
      assert (H : Channel.has session
                    (Channel.emit (Channel.SessionDisconnected session) ch2)
                  = false).
      { unfold Channel.has. apply bool_decide_eq_false.
        cbn [Channel.emit Channel.sessions]. by rewrite Hs2. }
      by rewrite H.
    + cbn. exact Hs2.
    + cbn. rewrite He2. by rewrite <- app_assoc.
Qed.

Lemma deregister_keeps_listener_witness :
  exists ch3,
    World.channels
      (World.onDisconnected 1
         (World.deregister 0 1
            (fst (World.register 0 1
                    (World.run
                       [World.NewChannel 0;
                        World.NewSession 1 plain_connection Session.no_options;
                        World.OnSession 1 Session.RunInitialize]
                       World.empty))))) !! 0%nat = Some ch3
    /\ Channel.emitted ch3
       = [Channel.SessionRegistered 1; Channel.SessionDeregistered 1;
          Channel.SessionDisconnected 1].
Proof.
  destruct (deregister_keeps_listener
              (World.run
                 [World.NewChannel 0;
                  World.NewSession 1 plain_connection Session.no_options;
                  World.OnSession 1 Session.RunInitialize]
                 World.empty)
              0%nat 1%nat Channel.create (fresh_session plain_connection)
              eq_refl eq_refl eq_refl eq_refl (not_elem_of_nil 0%nat))
    as [_ (ch3 & H1 & _ & H3)].
  exists ch3. split; [exact H1|exact H3].
Defined.

(** ** More on broadcast *)

Lemma push_each_outside (targets : list nat) (data : JsVal)
    (eventName eventId : string) (heap : gmap nat Session.t) (j : nat) :
  j ∉ targets ->
  fst (Channel.push_each targets data eventName eventId heap) !! j = heap !! j.
Proof.
  revert heap. induction targets as [|k r IH]; intros heap Hj; [reflexivity|].
  apply not_elem_of_cons in Hj as [Hne Hj]. cbn [Channel.push_each].
  destruct (heap !! k) as [sk|]; [|by apply IH].
  destruct (Session.push data _ _ _ sk) as [s1 [[]|e]].
  - rewrite IH by done. by rewrite lookup_insert_ne.
  - cbn [fst]. by rewrite lookup_insert_ne.
Qed.

(** X20. A broadcast touches no session outside its recipients, whether
    it returns or throws: a session the filter does not select, or one
    that is not registered, is exactly as before, and so is the list of
    registered sessions. *)
Theorem broadcast_leaves_others (ch : Channel.t) (heap : gmap nat Session.t)
    (data : JsVal) (eventName eventId : option string)
    (pick : option (nat -> Session.t -> bool)) (uuid : string) (j : nat)
    (Hout : j ∉ Channel.recipients pick ch heap) :
  snd (fst (Channel.broadcast data eventName eventId pick uuid ch heap)) !! j
  = heap !! j
  /\ Channel.activeSessions
       (fst (fst (Channel.broadcast data eventName eventId pick uuid ch heap)))
     = Channel.activeSessions ch.
Proof.
  unfold Channel.broadcast.
  pose proof (push_each_outside (Channel.recipients pick ch heap) data
                (default "message"%string eventName) (default uuid eventId)
                heap j Hout) as H.
  destruct (Channel.push_each _ _ _ _ heap) as [heap' [[]|e]]; cbn [fst snd] in *;
    split; done.
Qed.

Lemma broadcast_leaves_others_witness :
  snd (fst (Channel.broadcast (JStr "hi") None None
              (Some (fun k _ => Nat.eqb k 2)) "u"
              two_session_channel two_sessions)) !! 1%nat
  = two_sessions !! 1%nat.
Proof.
  apply (broadcast_leaves_others two_session_channel two_sessions (JStr "hi")
           None None (Some (fun k _ => Nat.eqb k 2)) "u" 1%nat).
  intros H. apply list_elem_of_singleton in H. discriminate H.
Defined.

Lemma deliver_returns (data : JsVal) (eventName eventId : string)
    (s : Session.t) :
  push_returns data eventName eventId s = true ->
  Session.lastId (deliver data eventName eventId s) = eventId
  /\ exists text,
       push_text (Session.buffer s) data = Some text
       /\ deliver data eventName eventId s
          = after_push data eventName eventId text s.
Proof.
  unfold push_returns, deliver. intros H.
  destruct (Session.isConnected s) eqn:Hc.
  - destruct (push_text (Session.buffer s) data) as [text|] eqn:Ht.
    + rewrite (session_push_ok _ _ _ _ _ _ Hc Ht). cbn. eauto.
    + destruct (session_push_rejected s data (Some eventName) (Some eventId)
                  eventId Hc Ht) as (b & e & E & _).
      rewrite E in H. discriminate.
  - rewrite session_push_inactive in H by assumption. discriminate.
Qed.

Lemma push_returns_accepted (data : JsVal) (eventName eventId : string)
    (s : Session.t) :
  Session.isConnected s = true ->
  push_text (Session.buffer s) data <> None ->
  push_returns data eventName eventId s = true.
Proof.
  intros Hc Ht. unfold push_returns.
  destruct (push_text (Session.buffer s) data) as [text|] eqn:E; [|done].
  by rewrite (session_push_ok _ _ _ _ _ _ Hc E).
Qed.

(** X21. A broadcast in which every [push] returns gives all its
    recipients the same event id, the one supplied or else the single
    identifier generated for the call: afterwards it is the [lastId] of
    each recipient and the id of the last event each has pushed. *)
Theorem broadcast_shares_event_id (ch : Channel.t) (heap : gmap nat Session.t)
    (data : JsVal) (eventName eventId : option string)
    (pick : option (nat -> Session.t -> bool)) (uuid : string)
    (Hnd : NoDup (Channel.sessions ch))
    (Hall : forall j, j ∈ Channel.recipients pick ch heap ->
              exists s, heap !! j = Some s
                        /\ push_returns data (default "message"%string eventName)
                             (default uuid eventId) s = true) :
  forall j, j ∈ Channel.recipients pick ch heap ->
    exists s s',
      heap !! j = Some s
      /\ snd (fst (Channel.broadcast data eventName eventId pick uuid ch heap)) !! j
         = Some s'
      /\ Session.lastId s' = default uuid eventId
      /\ Session.emitted s'
         = Session.emitted s
           ++ [Session.Pushed data (default "message"%string eventName)
                 (default uuid eventId)].
Proof.
  intros j Hj.
  destruct (push_each_prefix (Channel.recipients pick ch heap) [] data
              (default "message"%string eventName) (default uuid eventId) heap
              (recipients_NoDup pick ch heap Hnd) Hall) as (heap1 & H1 & H2).
  rewrite app_nil_r in H1. cbn [Channel.push_each] in H1.
  destruct (Hall j Hj) as (s & Hs & Hr).
  exists s, (deliver data (default "message"%string eventName)
               (default uuid eventId) s).
  split; [exact Hs|]. unfold Channel.broadcast. rewrite H1. cbn [fst snd].
  split; [by rewrite H2, decide_True, Hs|].
  destruct (deliver_returns _ _ _ _ Hr) as (Hl & text & _ & ->).
  split; [by rewrite after_push_lastId|by rewrite after_push_emitted].
Qed.

Lemma two_fresh_sessions_accept :
  forall j, j ∈ Channel.recipients None listing_both
                  two_fresh_sessions ->
    exists s, two_fresh_sessions !! j = Some s
              /\ push_returns (JStr "hi") (default "message"%string None)
                   (default "u"%string None) s = true.
Proof.
  intros j Hj. cbn in Hj.
  apply elem_of_cons in Hj as [->|Hj]; [eexists; split; reflexivity|].
  apply list_elem_of_singleton in Hj as ->. eexists; split; reflexivity.
Qed.

Lemma broadcast_shares_event_id_witness :
  exists s s',
    two_fresh_sessions !! 2%nat = Some s
    /\ snd (fst (Channel.broadcast (JStr "hi") None None None "u"
                   listing_both
                   two_fresh_sessions)) !! 2%nat
       = Some s'
    /\ Session.lastId s' = "u"%string.
Proof.
  destruct (broadcast_shares_event_id listing_both
              two_fresh_sessions
              (JStr "hi") None None None "u"
              two_session_channel_NoDup two_fresh_sessions_accept 2%nat
              (list_elem_of_further _ _ _ (list_elem_of_here _ _)))
    as (s & s' & H1 & H2 & H3 & _).
  exists s, s'. split; [exact H1|]. split; [exact H2|exact H3].
Defined.

Lemma recipients_listed (pick : option (nat -> Session.t -> bool))
    (ch : Channel.t) (heap : gmap nat Session.t) (j : nat) :
  j ∈ Channel.recipients pick ch heap -> j ∈ Channel.sessions ch.
Proof.
  destruct pick as [f|]; [|done]. unfold Channel.recipients, Channel.activeSessions.
  intros H. apply list_elem_of_In, List.filter_In in H as [H _].
  by apply list_elem_of_In.
Qed.

(** X22. In a world a program can reach, the sessions a channel lists are
    connected, so [push] never refuses a recipient of a broadcast: when
    the hooks of every recipient accept the payload, [broadcast] returns
    normally, every recipient has been pushed to, and "broadcast" is
    emitted once. *)
Theorem reachable_broadcast_returns (w : World.t) (k : nat) (ch : Channel.t)
    (data : JsVal) (eventName eventId : option string)
    (pick : option (nat -> Session.t -> bool)) (uuid : string)
    (Hreach : World.reachable w)
    (Hch : World.channels w !! k = Some ch)
    (Hhooks : forall j s, j ∈ Channel.recipients pick ch (World.sessions w) ->
                World.sessions w !! j = Some s ->
                push_text (Session.buffer s) data <> None) :
  snd (World.broadcast k data eventName eventId pick uuid w) = Normal tt
  /\ (exists ch',
        World.channels (fst (World.broadcast k data eventName eventId pick uuid w))
        !! k = Some ch'
        /\ Channel.emitted ch'
           = Channel.emitted ch
             ++ [Channel.Broadcast data (default "message"%string eventName)
                   (default uuid eventId)])
  /\ (forall j, j ∈ Channel.recipients pick ch (World.sessions w) ->
        exists s,
          World.sessions w !! j = Some s
          /\ World.sessions
               (fst (World.broadcast k data eventName eventId pick uuid w)) !! j
             = Some (deliver data (default "message"%string eventName)
                       (default uuid eventId) s)).
Proof.
  pose proof (registry_ok_reachable w Hreach) as Hok.
  destruct (Hok k ch Hch) as [Hnd Hmem].
  assert (Hall : forall j, j ∈ Channel.recipients pick ch (World.sessions w) ->
            exists s, World.sessions w !! j = Some s
                      /\ push_returns data (default "message"%string eventName)
                           (default uuid eventId) s = true).
  { intros j Hj.
    destruct (Hmem j (recipients_listed _ _ _ _ Hj)) as (s & Hs & Hc & _).
    exists s. split; [exact Hs|]. apply push_returns_accepted; [exact Hc|].
    by apply (Hhooks j). }
  destruct (push_each_prefix (Channel.recipients pick ch (World.sessions w)) []
              data (default "message"%string eventName) (default uuid eventId)
              (World.sessions w) (recipients_NoDup pick ch _ Hnd) Hall)
    as (heap1 & H1 & H2).
  rewrite app_nil_r in H1. cbn [Channel.push_each] in H1.
  unfold World.broadcast, Channel.broadcast. rewrite Hch, H1.
  cbn [fst snd World.channels World.sessions].
  split; [reflexivity|]. split.
  - eexists. split; [apply lookup_insert_eq|reflexivity].
  - intros j Hj. destruct (Hall j Hj) as (s & Hs & _). exists s.
    split; [exact Hs|]. by rewrite H2, decide_True, Hs.
Qed.


Lemma register_connected_session (s : Session.t) :
  Session.isConnected s = true ->
  World.step (World.Register 0 1)
    {| World.sessions := <[1%nat := s]> ∅;
       World.channels := <[0%nat := Channel.create]> ∅ |}
  = {| World.sessions :=
         <[1%nat := Session.set_onceDisconnected
                      (Session.onceDisconnected s ++ [0%nat]) s]>
           (<[1%nat := s]> ∅);
       World.channels :=
         <[0%nat := Channel.mk [1%nat] [Channel.SessionRegistered 1]]>
           (<[0%nat := Channel.create]> ∅) |}.
Proof.
  intros Hc. cbn [World.step]. unfold World.register.
  cbn [World.channels World.sessions].
  rewrite lookup_insert_eq. unfold Channel.register.
  change (Channel.has 1 Channel.create) with false. cbv iota.
  rewrite lookup_insert_eq, Hc. reflexivity.
Qed.

Lemma one_session_world_eq :
  one_session_world
  = {| World.sessions :=
         <[1%nat := Session.set_onceDisconnected
                      (Session.onceDisconnected (fresh_session plain_connection)
                       ++ [0%nat]) (fresh_session plain_connection)]>
           (<[1%nat := fresh_session plain_connection]> ∅);
       World.channels :=
         <[0%nat := Channel.mk [1%nat] [Channel.SessionRegistered 1]]>
           (<[0%nat := Channel.create]> ∅) |}.
Proof.
  unfold one_session_world, World.run. cbn [fold_left].
  set (w1 := World.step (World.NewChannel 0) World.empty).
  assert (E1 : w1 = {| World.sessions := ∅;
                       World.channels := <[0%nat := Channel.create]> ∅ |})
    by reflexivity.
  clearbody w1. subst w1.
  set (w2 := World.step (World.NewSession 1 plain_connection Session.no_options) _).
  assert (E2 : w2 = {| World.sessions :=
                         <[1%nat := Session.create plain_connection
                                      Session.no_options]> ∅;
                       World.channels := <[0%nat := Channel.create]> ∅ |})
    by reflexivity.
  clearbody w2. subst w2.
  set (w3 := World.step (World.OnSession 1 Session.RunInitialize) _).
  assert (E3 : w3 = {| World.sessions :=
                         <[1%nat := fresh_session plain_connection]> ∅;
                       World.channels := <[0%nat := Channel.create]> ∅ |}).
  { subst w3. cbn [World.step World.sessions World.channels].
    by rewrite alter_insert_eq. }
  clearbody w3. subst w3.
  apply register_connected_session, fresh_session_state.
Qed.

Lemma one_session_world_channel :
  World.channels one_session_world !! 0%nat
  = Some (Channel.mk [1%nat] [Channel.SessionRegistered 1]).
Proof. rewrite one_session_world_eq. apply lookup_insert_eq. Qed.

Lemma buffer_set_onceDisconnected (l : list nat) (s : Session.t) :
  Session.buffer (Session.set_onceDisconnected l s) = Session.buffer s.
Proof. reflexivity. Qed.

Lemma one_session_world_accepts :
  forall j s,
    j ∈ Channel.recipients None (Channel.mk [1%nat] [Channel.SessionRegistered 1])
          (World.sessions one_session_world) ->
    World.sessions one_session_world !! j = Some s ->
    push_text (Session.buffer s) (JStr "hi") <> None.
Proof.
  intros j s Hj Hs. apply list_elem_of_singleton in Hj as ->.
  rewrite one_session_world_eq in Hs. cbn [World.sessions] in Hs.
  rewrite lookup_insert_eq in Hs. injection Hs as <-.
  destruct (fresh_session_state plain_connection) as [_ Hb].
  rewrite buffer_set_onceDisconnected, Hb. discriminate.
Qed.

Lemma reachable_broadcast_returns_witness :
  snd (World.broadcast 0 (JStr "hi") None None None "u" one_session_world)
  = Normal tt.
Proof.
  apply (reachable_broadcast_returns one_session_world
           0%nat (Channel.mk [1%nat] [Channel.SessionRegistered 1])
           (JStr "hi") None None None "u" (ex_intro _ _ eq_refl)
           one_session_world_channel one_session_world_accepts).
Defined.

(** ** The emitter *)

Lemma on_listeners (event : string) (l : TypedEmitter.Listener)
    (e : TypedEmitter.t) :
  TypedEmitter.listeners (TypedEmitter.on event l e)
  = <[event := TypedEmitter.set_add l (registered event e)]>
      (TypedEmitter.listeners e).
Proof.
  unfold TypedEmitter.on, registered. cbn [TypedEmitter.listeners].
  apply map_eq. intros k.
  destruct (TypedEmitter.listeners e !! event) as [ls|] eqn:E;
    cbn [default from_option id];
    destruct (decide (k = event)) as [->|Hk].
  - by rewrite lookup_alter_eq, lookup_insert_eq, E.
  - by rewrite lookup_alter_ne, lookup_insert_ne.
  - by rewrite lookup_alter_eq, !lookup_insert_eq.
  - by rewrite lookup_alter_ne, !lookup_insert_ne.
Qed.

Lemma set_add_elem (l : TypedEmitter.Listener) (ls : list TypedEmitter.Listener) :
  l ∈ TypedEmitter.set_add l ls.
Proof.
  unfold TypedEmitter.set_add. destruct (decide (l ∈ ls)); [done|].
  apply elem_of_app. right. apply list_elem_of_here.
Qed.

Lemma set_add_NoDup (l : TypedEmitter.Listener) (ls : list TypedEmitter.Listener) :
  NoDup ls -> NoDup (TypedEmitter.set_add l ls).
Proof.
  intros H. unfold TypedEmitter.set_add. destruct (decide (l ∈ ls)); [done|].
  apply NoDup_app. split; [done|]. split; [|apply NoDup_singleton].
  intros x Hx Hx'. apply list_elem_of_singleton in Hx'. by subst.
Qed.

Lemma set_add_nonempty (l : TypedEmitter.Listener) (ls : list TypedEmitter.Listener) :
  TypedEmitter.set_add l ls <> [].
Proof.
  intros H. pose proof (set_add_elem l ls) as Hin. rewrite H in Hin.
  by apply elem_of_nil in Hin.
Qed.

Lemma set_delete_absent (l : TypedEmitter.Listener) (ls : list TypedEmitter.Listener) :
  l ∉ ls -> TypedEmitter.set_delete l ls = ls.
Proof.
  unfold TypedEmitter.set_delete. induction ls as [|x r IH]; [done|].
  intros H. apply not_elem_of_cons in H as [H1 H2].
  rewrite filter_cons_True by congruence. by rewrite IH.
Qed.

Lemma set_delete_app (l : TypedEmitter.Listener) (a b : list TypedEmitter.Listener) :
  TypedEmitter.set_delete l (a ++ b)
  = TypedEmitter.set_delete l a ++ TypedEmitter.set_delete l b.
Proof. unfold TypedEmitter.set_delete. apply filter_app. Qed.

Lemma set_delete_here (l : TypedEmitter.Listener) (r : list TypedEmitter.Listener) :
  TypedEmitter.set_delete l (l :: r) = TypedEmitter.set_delete l r.
Proof. unfold TypedEmitter.set_delete. by rewrite filter_cons_False by (intros H; by apply H). Qed.

Lemma set_delete_subset (l x : TypedEmitter.Listener) (ls : list TypedEmitter.Listener) :
  x ∈ TypedEmitter.set_delete l ls -> x ∈ ls.
Proof. unfold TypedEmitter.set_delete. intros H. by apply list_elem_of_filter in H as [_ H]. Qed.

Lemma off_listeners (event : string) (l : TypedEmitter.Listener)
    (e : TypedEmitter.t) :
  TypedEmitter.listeners (TypedEmitter.off event l e) !! event
  = entry (TypedEmitter.set_delete l (registered event e))
  /\ (forall ev, ev <> event ->
        TypedEmitter.listeners (TypedEmitter.off event l e) !! ev
        = TypedEmitter.listeners e !! ev)
  /\ TypedEmitter.closures (TypedEmitter.off event l e) = TypedEmitter.closures e
  /\ TypedEmitter.called (TypedEmitter.off event l e) = TypedEmitter.called e.
Proof.
  unfold TypedEmitter.off, registered.
  destruct (TypedEmitter.listeners e !! event) as [ls|] eqn:E;
    cbn [default from_option id].
  - cbn [TypedEmitter.listeners TypedEmitter.closures TypedEmitter.called].
    destruct (TypedEmitter.set_delete l ls) as [|x r] eqn:D; cbn [length Nat.eqb entry].
    + split; [apply lookup_delete_eq|]. split; [|done].
      intros ev Hev. by apply lookup_delete_ne.
    + split; [apply lookup_insert_eq|]. split; [|done].
      intros ev Hev. by apply lookup_insert_ne.
  - rewrite E. done.
Qed.

Lemma emitter_ok_create : emitter_ok TypedEmitter.create.
Proof. intros ev ls H. cbn in H. by rewrite lookup_empty in H. Qed.

Lemma emitter_ok_closures (e e' : TypedEmitter.t) :
  TypedEmitter.listeners e' = TypedEmitter.listeners e ->
  (TypedEmitter.closures e <= TypedEmitter.closures e')%nat ->
  emitter_ok e -> emitter_ok e'.
Proof.
  intros Hl Hc Hok ev ls H. rewrite Hl in H.
  destruct (Hok ev ls H) as (H1 & H2 & H3). split; [done|]. split; [done|].
  intros w ev' f Hin. destruct (H3 w ev' f Hin). split; [done|lia].
Qed.

Lemma registered_ok (event : string) (e : TypedEmitter.t) :
  emitter_ok e ->
  NoDup (registered event e)
  /\ (forall w ev' f,
        TypedEmitter.OnceWrapper w ev' f ∈ registered event e ->
        ev' = event /\ (w < TypedEmitter.closures e)%nat).
Proof.
  intros Hok. unfold registered.
  destruct (TypedEmitter.listeners e !! event) as [ls|] eqn:E;
    cbn [default from_option id].
  - destruct (Hok event ls E) as (_ & H2 & H3). done.
  - split; [apply NoDup_nil_2|]. intros w ev' f H. by apply elem_of_nil in H.
Qed.

Lemma registered_entry (event : string) (e : TypedEmitter.t) :
  emitter_ok e ->
  TypedEmitter.listeners e !! event = entry (registered event e).
Proof.
  intros Hok. unfold registered.
  destruct (TypedEmitter.listeners e !! event) as [ls|] eqn:E;
    cbn [default from_option id]; [|done].
  destruct (Hok event ls E) as (H1 & _). by destruct ls.
Qed.

Lemma emitter_ok_on (event : string) (l : TypedEmitter.Listener)
    (e : TypedEmitter.t) :
  (forall w ev f, l = TypedEmitter.OnceWrapper w ev f ->
     ev = event /\ (w < TypedEmitter.closures e)%nat) ->
  emitter_ok e -> emitter_ok (TypedEmitter.on event l e).
Proof.
  intros Hl Hok ev ls H. rewrite on_listeners in H.
  assert (Hc : TypedEmitter.closures (TypedEmitter.on event l e)
               = TypedEmitter.closures e) by reflexivity.
  rewrite Hc.
  destruct (decide (ev = event)) as [->|Hev].
  - rewrite lookup_insert_eq in H. injection H as <-.
    destruct (registered_ok event e Hok) as [Hnd Hw].
    split; [apply set_add_nonempty|]. split; [by apply set_add_NoDup|].
    intros w ev' f Hin. unfold TypedEmitter.set_add in Hin.
    destruct (decide (l ∈ registered event e)); [by apply (Hw w ev' f)|].
    apply elem_of_app in Hin as [Hin|Hin]; [by apply (Hw w ev' f)|].
    apply list_elem_of_singleton in Hin. by apply (Hl w ev' f).
  - rewrite lookup_insert_ne in H by done. by apply Hok.
Qed.

Lemma emitter_ok_once (event : string) (f : nat) (e : TypedEmitter.t) :
  emitter_ok e -> emitter_ok (TypedEmitter.once event f e).
Proof.
  intros Hok. unfold TypedEmitter.once. apply emitter_ok_on.
  - intros w ev g H. injection H as <- <- _. cbn. split; [done|lia].
  - eapply emitter_ok_closures; [| |exact Hok]; cbn; [done|lia].
Qed.

Lemma emitter_ok_off (event : string) (l : TypedEmitter.Listener)
    (e : TypedEmitter.t) :
  emitter_ok e -> emitter_ok (TypedEmitter.off event l e).
Proof.
  intros Hok ev ls H.
  destruct (off_listeners event l e) as (H1 & H2 & H3 & _). rewrite H3.
  destruct (decide (ev = event)) as [->|Hev].
  - rewrite H1 in H.
    destruct (registered_ok event e Hok) as [Hnd Hw].
    destruct (TypedEmitter.set_delete l (registered event e)) as [|x r] eqn:D;
      [done|]. injection H as <-. split; [done|]. rewrite <- D. split.
    + unfold TypedEmitter.set_delete. by apply NoDup_filter.
    + intros w ev' f Hin. apply (Hw w ev' f). by apply set_delete_subset in Hin.
  - rewrite H2 in H by done. by apply Hok.
Qed.

Lemma emitter_ok_record (f : nat) (args : list JsVal) (e : TypedEmitter.t) :
  emitter_ok e -> emitter_ok (TypedEmitter.record_call f args e).
Proof. intros H. eapply emitter_ok_closures; [| |exact H]; cbn; [done|lia]. Qed.

Lemma emitter_ok_call_each (behaviour : nat -> list JsVal -> Completion unit)
    (ls : list TypedEmitter.Listener) (args : list JsVal) (e : TypedEmitter.t) :
  emitter_ok e -> emitter_ok (fst (TypedEmitter.call_each behaviour ls args e)).
Proof.
  revert e. induction ls as [|l r IH]; intros e Hok; [done|].
  cbn [TypedEmitter.call_each].
  assert (Hc : emitter_ok (fst (TypedEmitter.call behaviour l args e))).
  { destruct l as [f|w ev f]; cbn [TypedEmitter.call fst];
      apply emitter_ok_record; [done|by apply emitter_ok_off]. }
  destruct (TypedEmitter.call behaviour l args e) as [e' [[]|x]]; cbn [fst] in *.
  - by apply IH.
  - done.
Qed.

Lemma emitter_ok_emit (behaviour : nat -> list JsVal -> Completion unit)
    (event : string) (args : list JsVal) (e : TypedEmitter.t) :
  emitter_ok e -> emitter_ok (fst (TypedEmitter.emit behaviour event args e)).
Proof.
  intros Hok. unfold TypedEmitter.emit.
  destruct (TypedEmitter.listeners e !! event); [|done].
  by apply emitter_ok_call_each.
Qed.

Lemma emitter_ok_removeAllListeners (event : option string)
    (e : TypedEmitter.t) :
  emitter_ok e -> emitter_ok (TypedEmitter.removeAllListeners event e).
Proof.
  intros Hok ev ls H. unfold TypedEmitter.removeAllListeners in *.
  cbn [TypedEmitter.listeners TypedEmitter.closures] in *.
  destruct event as [x|]; [destruct (truthy x)|].
  - destruct (decide (ev = x)) as [->|Hev].
    + by rewrite lookup_delete_eq in H.
    + rewrite lookup_delete_ne in H by done. by apply Hok.
  - by rewrite lookup_empty in H.
  - by rewrite lookup_empty in H.
Qed.

Lemma emitter_ok_step (behaviour : nat -> list JsVal -> Completion unit)
    (op : TypedEmitter.Op) (e : TypedEmitter.t) :
  emitter_ok e -> emitter_ok (TypedEmitter.step behaviour op e).
Proof.
  intros Hok. destruct op; cbn [TypedEmitter.step].
  - apply emitter_ok_on; [discriminate|done].
  - by apply emitter_ok_once.
  - by apply emitter_ok_off.
  - by apply emitter_ok_emit.
  - by apply emitter_ok_removeAllListeners.
Qed.

Lemma emitter_ok_run (behaviour : nat -> list JsVal -> Completion unit)
    (ops : list TypedEmitter.Op) (e : TypedEmitter.t) :
  emitter_ok e -> emitter_ok (TypedEmitter.run behaviour ops e).
Proof.
  revert e. induction ops as [|op r IH]; intros e Hok; [done|].
  apply IH. by apply emitter_ok_step.
Qed.

Lemma emitter_ok_reachable (behaviour : nat -> list JsVal -> Completion unit)
    (e : TypedEmitter.t) :
  TypedEmitter.reachable behaviour e -> emitter_ok e.
Proof. intros [ops ->]. apply emitter_ok_run, emitter_ok_create. Qed.

Lemma emitter_eq (a b : TypedEmitter.t) :
  TypedEmitter.listeners a = TypedEmitter.listeners b ->
  TypedEmitter.closures a = TypedEmitter.closures b ->
  TypedEmitter.called a = TypedEmitter.called b ->
  a = b.
Proof. destruct a, b. cbn. by intros -> -> ->. Qed.

Lemma listenerCount_registered (event : string) (e : TypedEmitter.t) :
  TypedEmitter.listenerCount event e = length (registered event e).
Proof.
  unfold TypedEmitter.listenerCount, registered.
  by destruct (TypedEmitter.listeners e !! event).
Qed.

Lemma registered_on (event : string) (l : TypedEmitter.Listener)
    (e : TypedEmitter.t) :
  registered event (TypedEmitter.on event l e)
  = TypedEmitter.set_add l (registered event e).
Proof.
  unfold registered at 1. by rewrite on_listeners, lookup_insert_eq.
Qed.

Lemma registered_entry_inv (event : string) (e : TypedEmitter.t)
    (ls : list TypedEmitter.Listener) :
  TypedEmitter.listeners e !! event = entry ls -> registered event e = ls.
Proof. unfold registered. intros ->. by destruct ls. Qed.

Lemma same_elsewhere_refl (event : string) (e : TypedEmitter.t) :
  same_elsewhere event e e.
Proof. by split. Qed.

Lemma same_elsewhere_trans (event : string) (a b c : TypedEmitter.t) :
  same_elsewhere event a b -> same_elsewhere event b c ->
  same_elsewhere event a c.
Proof.
  intros [H1 H2] [H3 H4]. split; [congruence|].
  intros ev Hev. by rewrite H4, H2.
Qed.

Lemma NoDup_middle (x : TypedEmitter.Listener)
    (a b : list TypedEmitter.Listener) :
  NoDup (a ++ x :: b) -> (x ∉ a) /\ (x ∉ b) /\ NoDup (a ++ b).
Proof.
  intros H. apply NoDup_app in H as (Ha & Hab & Hb).
  apply NoDup_cons in Hb as [Hx Hb]. split; [|split; [done|]].
  - intros Hin. apply (Hab x Hin). apply list_elem_of_here.
  - apply NoDup_app. split; [done|]. split; [|done].
    intros y Hy Hy'. apply (Hab y Hy). by apply list_elem_of_further.
Qed.

(** One visit of the loop of [emit]. *)
Lemma call_visit (behaviour : nat -> list JsVal -> Completion unit)
    (event : string) (args : list JsVal) (l : TypedEmitter.Listener)
    (kept rest : list TypedEmitter.Listener) (e : TypedEmitter.t) :
  TypedEmitter.listeners e !! event = entry (kept ++ l :: rest) ->
  NoDup (kept ++ l :: rest) ->
  (forall w ev f, l = TypedEmitter.OnceWrapper w ev f -> ev = event) ->
  exists e',
    TypedEmitter.call behaviour l args e = (e', behaviour (fn_of l) args)
    /\ TypedEmitter.listeners e' !! event
       = entry (kept ++ List.filter is_fn [l] ++ rest)
    /\ NoDup (kept ++ List.filter is_fn [l] ++ rest)
    /\ same_elsewhere event e e'
    /\ TypedEmitter.called e' = TypedEmitter.called e ++ calls_of args [l].
Proof.
  intros Hl Hnd Hev. destruct l as [f|w ev f].
  - eexists. split; [reflexivity|].
    cbn [TypedEmitter.record_call TypedEmitter.listeners TypedEmitter.called
         List.filter is_fn app calls_of map fn_of].
    split; [exact Hl|]. split; [exact Hnd|]. split; [|done].
    by split.
  - rewrite (Hev w ev f eq_refl) in *. clear Hev.
    eexists. split; [reflexivity|].
    destruct (off_listeners event (TypedEmitter.OnceWrapper w event f) e)
      as (H1 & H2 & H3 & H4).
    destruct (NoDup_middle _ _ _ Hnd) as (Ha & Hb & Hab).
    cbn [TypedEmitter.record_call TypedEmitter.listeners TypedEmitter.called
         List.filter is_fn app calls_of map fn_of].
    rewrite H1, H4, (registered_entry_inv _ _ _ Hl).
    rewrite set_delete_app, set_delete_here, !set_delete_absent by done.
    split; [done|]. split; [done|]. split; [|done].
    split; [exact H3|exact H2].
Qed.

(** The visits of listeners that return. *)
Lemma call_each_returning (behaviour : nat -> list JsVal -> Completion unit)
    (event : string) (args : list JsVal)
    (pre rest kept : list TypedEmitter.Listener) (e : TypedEmitter.t) :
  TypedEmitter.listeners e !! event = entry (kept ++ pre ++ rest) ->
  NoDup (kept ++ pre ++ rest) ->
  (forall w ev f, TypedEmitter.OnceWrapper w ev f ∈ pre -> ev = event) ->
  Forall (returns_on behaviour args) pre ->
  exists e',
    TypedEmitter.call_each behaviour (pre ++ rest) args e
    = TypedEmitter.call_each behaviour rest args e'
    /\ TypedEmitter.listeners e' !! event
       = entry (kept ++ List.filter is_fn pre ++ rest)
    /\ NoDup (kept ++ List.filter is_fn pre ++ rest)
    /\ same_elsewhere event e e'
    /\ TypedEmitter.called e' = TypedEmitter.called e ++ calls_of args pre.
Proof.
  revert kept e. induction pre as [|l p IH]; intros kept e Hl Hnd Hev Hret.
  - exists e. cbn [app List.filter calls_of map]. rewrite app_nil_r.
    split; [done|]. split; [done|]. split; [done|]. split; [|done].
    apply same_elsewhere_refl.
  - apply Forall_cons in Hret as [Hr Hret]. unfold returns_on in Hr.
    destruct (call_visit behaviour event args l kept (p ++ rest) e Hl Hnd)
      as (e1 & Hc & H1 & H2 & H3 & H4).
    { intros w ev f ->. apply (Hev w ev f). apply list_elem_of_here. }
    rewrite Hr in Hc.
    assert (Hf : forall x : list TypedEmitter.Listener,
              kept ++ List.filter is_fn [l] ++ x
              = (kept ++ List.filter is_fn [l]) ++ x).
    { intros x. by rewrite app_assoc. }
    rewrite Hf in H1, H2.
    destruct (IH (kept ++ List.filter is_fn [l]) e1 H1 H2) as
      (e2 & Hc2 & H5 & H6 & H7 & H8).
    { intros w ev f Hin. apply (Hev w ev f). by apply list_elem_of_further. }
    { exact Hret. }
    exists e2. cbn [app TypedEmitter.call_each]. rewrite Hc.
    split; [exact Hc2|].
    assert (Hg : kept ++ List.filter is_fn (l :: p) ++ rest
                 = (kept ++ List.filter is_fn [l]) ++ List.filter is_fn p ++ rest).
    { cbn [List.filter]. destruct (is_fn l); cbn [app];
        by rewrite <- ?app_assoc. }
    rewrite Hg. split; [exact H5|]. split; [exact H6|].
    split; [by apply (same_elsewhere_trans event e e1 e2)|].
    rewrite H8, H4. cbn [calls_of map app]. by rewrite <- app_assoc.
Qed.

Lemma registered_wrappers (event : string) (e : TypedEmitter.t) :
  emitter_ok e ->
  forall w ev f,
    TypedEmitter.OnceWrapper w ev f ∈ registered event e -> ev = event.
Proof.
  intros Hok w ev f Hin.
  destruct (registered_ok event e Hok) as [_ H]. by destruct (H w ev f Hin).
Qed.

Lemma emit_registered (behaviour : nat -> list JsVal -> Completion unit)
    (event : string) (args : list JsVal) (e : TypedEmitter.t) :
  TypedEmitter.emit behaviour event args e
  = TypedEmitter.call_each behaviour (registered event e) args e.
Proof.
  unfold TypedEmitter.emit, registered.
  by destruct (TypedEmitter.listeners e !! event).
Qed.

Lemma three_listeners_registered
    (behaviour : nat -> list JsVal -> Completion unit) :
  registered "a" (three_listeners behaviour)
  = [TypedEmitter.Fn 1; TypedEmitter.OnceWrapper 0 "a" 2;
     TypedEmitter.OnceWrapper 1 "a" 3].
Proof. reflexivity. Qed.

(** X23. A function is registered once per event: [on] with a listener
    already registered for the event changes nothing, so that a second
    identical call of [on] is without effect, and [listenerCount] grows by
    one exactly when the listener was not registered. *)
Theorem on_registers_once (event : string) (l : TypedEmitter.Listener)
    (e : TypedEmitter.t) :
  TypedEmitter.on event l (TypedEmitter.on event l e) = TypedEmitter.on event l e
  /\ l ∈ registered event (TypedEmitter.on event l e)
  /\ TypedEmitter.listenerCount event (TypedEmitter.on event l e)
     = if decide (l ∈ registered event e)
       then TypedEmitter.listenerCount event e
       else S (TypedEmitter.listenerCount event e).
Proof.
  split; [|split].
  - apply emitter_eq; [|done|done].
    rewrite (on_listeners event l (TypedEmitter.on event l e)).
    rewrite registered_on, on_listeners, insert_insert_eq. f_equal.
    unfold TypedEmitter.set_add at 1.
    by rewrite decide_True by apply set_add_elem.
  - rewrite registered_on. apply set_add_elem.
  - rewrite !listenerCount_registered, registered_on.
    unfold TypedEmitter.set_add. destruct (decide (l ∈ registered event e));
      [done|]. rewrite length_app. cbn [length]. lia.
Qed.

(** X24. [off] undoes [on]: registering a listener that was not registered
    for the event and removing it again gives the emitter back as it was,
    the entry of the event being dropped from the map when the listener
    was the only one. *)
Theorem off_undoes_on (behaviour : nat -> list JsVal -> Completion unit)
    (event : string) (l : TypedEmitter.Listener) (e : TypedEmitter.t)
    (Hreach : TypedEmitter.reachable behaviour e)
    (Hnew : l ∉ registered event e) :
  TypedEmitter.off event l (TypedEmitter.on event l e) = e.
Proof.
  pose proof (emitter_ok_reachable behaviour e Hreach) as Hok.
  destruct (off_listeners event l (TypedEmitter.on event l e))
    as (H1 & H2 & H3 & H4).
  apply emitter_eq; [|done|done].
  apply map_eq. intros k. destruct (decide (k = event)) as [->|Hk].
  - rewrite H1, registered_on. unfold TypedEmitter.set_add.
    rewrite decide_False by done.
    rewrite set_delete_app, set_delete_here, set_delete_absent by done.
    cbn. rewrite app_nil_r. symmetry. by apply registered_entry.
  - rewrite H2 by done. rewrite on_listeners. by apply lookup_insert_ne.
Qed.

Lemma off_undoes_on_witness :
  TypedEmitter.off "a" (TypedEmitter.Fn 4)
    (TypedEmitter.on "a" (TypedEmitter.Fn 4) (three_listeners all_return))
  = three_listeners all_return.
Proof.
  apply (off_undoes_on all_return "a" (TypedEmitter.Fn 4)
           (three_listeners all_return) (ex_intro _ _ eq_refl)).
  rewrite three_listeners_registered. intros H.
  apply elem_of_cons in H as [H|H]; [discriminate|].
  apply elem_of_cons in H as [H|H]; [discriminate|].
  apply list_elem_of_singleton in H. discriminate.
Defined.

(** X25. [once] registers a new closure each time: it always adds a
    listener, also for a function that is registered already, and [off]
    called with the function itself does not remove it, since the set
    holds the closure: after [once] and [off] the closure is registered
    behind what [off] left of the listeners there were. *)
Theorem off_does_not_cancel_once
    (behaviour : nat -> list JsVal -> Completion unit)
    (event : string) (f : nat) (e : TypedEmitter.t)
    (Hreach : TypedEmitter.reachable behaviour e) :
  TypedEmitter.listenerCount event (TypedEmitter.once event f e)
  = S (TypedEmitter.listenerCount event e)
  /\ registered event
       (TypedEmitter.off event (TypedEmitter.Fn f) (TypedEmitter.once event f e))
     = TypedEmitter.set_delete (TypedEmitter.Fn f) (registered event e)
       ++ [TypedEmitter.OnceWrapper (TypedEmitter.closures e) event f].
Proof.
  pose proof (emitter_ok_reachable behaviour e Hreach) as Hok.
  destruct (registered_ok event e Hok) as [_ Hw].
  assert (Hfresh : TypedEmitter.OnceWrapper (TypedEmitter.closures e) event f
                   ∉ registered event e).
  { intros Hin. destruct (Hw _ _ _ Hin) as [_ Hlt]. lia. }
  assert (Hreg : registered event (TypedEmitter.once event f e)
                 = registered event e
                   ++ [TypedEmitter.OnceWrapper (TypedEmitter.closures e) event f]).
  { unfold TypedEmitter.once. rewrite registered_on.
    cbn [TypedEmitter.closures].
    unfold TypedEmitter.set_add. by rewrite decide_False by exact Hfresh. }
  split.
  - rewrite !listenerCount_registered, Hreg, length_app. cbn [length]. lia.
  - destruct (off_listeners event (TypedEmitter.Fn f)
                (TypedEmitter.once event f e)) as (H1 & _).
    rewrite Hreg in H1. apply registered_entry_inv. rewrite H1.
    rewrite set_delete_app.
    assert (Hd : TypedEmitter.set_delete (TypedEmitter.Fn f)
                   [TypedEmitter.OnceWrapper (TypedEmitter.closures e) event f]
                 = [TypedEmitter.OnceWrapper (TypedEmitter.closures e) event f]).
    { apply set_delete_absent. intros H. by apply list_elem_of_singleton in H. }
    rewrite Hd.
    by destruct (TypedEmitter.set_delete (TypedEmitter.Fn f) (registered event e)).
Qed.

Lemma off_does_not_cancel_once_witness :
  TypedEmitter.listenerCount "a"
    (TypedEmitter.once "a" 1 (three_listeners all_return))
  = S (TypedEmitter.listenerCount "a" (three_listeners all_return))
  /\ registered "a"
       (TypedEmitter.off "a" (TypedEmitter.Fn 1)
          (TypedEmitter.once "a" 1 (three_listeners all_return)))
     = TypedEmitter.set_delete (TypedEmitter.Fn 1)
         (registered "a" (three_listeners all_return))
       ++ [TypedEmitter.OnceWrapper
             (TypedEmitter.closures (three_listeners all_return)) "a" 1].
Proof.
  apply (off_does_not_cancel_once all_return "a" 1%nat
           (three_listeners all_return) (ex_intro _ _ eq_refl)).
Defined.

(** X26. When every listener of the event returns, [emit] calls each of
    them once with the arguments given, in the order they were registered,
    and returns; afterwards the listeners registered with [on] are still
    registered, in their order, and those registered with [once] are gone,
    the entry of the event being dropped when none is left. The listeners
    of other events are untouched. *)
Theorem emit_calls_in_order (behaviour : nat -> list JsVal -> Completion unit)
    (event : string) (args : list JsVal) (e : TypedEmitter.t)
    (Hreach : TypedEmitter.reachable behaviour e)
    (Hret : Forall (returns_on behaviour args) (registered event e)) :
  snd (TypedEmitter.emit behaviour event args e) = Normal tt
  /\ TypedEmitter.called (fst (TypedEmitter.emit behaviour event args e))
     = TypedEmitter.called e ++ calls_of args (registered event e)
  /\ TypedEmitter.listeners (fst (TypedEmitter.emit behaviour event args e))
       !! event
     = entry (List.filter is_fn (registered event e))
  /\ same_elsewhere event e (fst (TypedEmitter.emit behaviour event args e)).
Proof.
  pose proof (emitter_ok_reachable behaviour e Hreach) as Hok.
  destruct (registered_ok event e Hok) as [Hnd _].
  destruct (call_each_returning behaviour event args (registered event e) [] []
              e) as (e' & Hc & H1 & _ & H2 & H3).
  - rewrite app_nil_r. by apply registered_entry.
  - by rewrite app_nil_r.
  - by apply registered_wrappers.
  - exact Hret.
  - rewrite app_nil_r in Hc, H1. cbn [app TypedEmitter.call_each] in Hc, H1.
    rewrite emit_registered, Hc. cbn [fst snd]. done.
Qed.

Lemma emit_calls_in_order_witness :
  snd (TypedEmitter.emit all_return "a" [JStr "x"] (three_listeners all_return))
  = Normal tt.
Proof.
  apply (emit_calls_in_order all_return "a" [JStr "x"]
           (three_listeners all_return) (ex_intro _ _ eq_refl)).
  rewrite three_listeners_registered. by repeat constructor.
Defined.

(** X27. When a listener throws, [emit] throws what it threw: the
    listeners registered before it have been called, those registered
    after it are not called and stay registered, also the ones registered
    with [once]; a listener registered with [once] that throws has been
    removed all the same. *)
Theorem emit_stops_at_throw (behaviour : nat -> list JsVal -> Completion unit)
    (event : string) (args : list JsVal) (e : TypedEmitter.t)
    (pre post : list TypedEmitter.Listener) (l : TypedEmitter.Listener)
    (x : Exn)
    (Hreach : TypedEmitter.reachable behaviour e)
    (Hreg : registered event e = pre ++ l :: post)
    (Hret : Forall (returns_on behaviour args) pre)
    (Hthrow : behaviour (fn_of l) args = Throw x) :
  snd (TypedEmitter.emit behaviour event args e) = Throw x
  /\ TypedEmitter.called (fst (TypedEmitter.emit behaviour event args e))
     = TypedEmitter.called e ++ calls_of args (pre ++ [l])
  /\ TypedEmitter.listeners (fst (TypedEmitter.emit behaviour event args e))
       !! event
     = entry (List.filter is_fn (pre ++ [l]) ++ post)
  /\ same_elsewhere event e (fst (TypedEmitter.emit behaviour event args e)).
Proof.
  pose proof (emitter_ok_reachable behaviour e Hreach) as Hok.
  destruct (registered_ok event e Hok) as [Hnd _].
  pose proof (registered_wrappers event e Hok) as Hw.
  pose proof (registered_entry event e Hok) as Hl.
  rewrite Hreg in Hnd, Hw, Hl.
  destruct (call_each_returning behaviour event args pre (l :: post) [] e)
    as (e1 & Hc & H1 & H2 & H3 & H4); [done|done| |done|].
  { intros w ev f Hin. apply (Hw w ev f). apply elem_of_app. by left. }
  cbn [app] in H1, H2.
  destruct (call_visit behaviour event args l (List.filter is_fn pre) post e1
              H1 H2) as (e2 & Hc2 & H5 & _ & H6 & H7).
  { intros w ev f ->. apply (Hw w ev f). apply elem_of_app. right.
    apply list_elem_of_here. }
  rewrite emit_registered, Hreg, Hc. cbn [TypedEmitter.call_each].
  rewrite Hc2, Hthrow. cbn [fst snd].
  split; [done|]. split; [|split].
  - rewrite H7, H4. unfold calls_of. by rewrite map_app, app_assoc.
  - rewrite H5. by rewrite List.filter_app, <- app_assoc.
  - by apply (same_elsewhere_trans event e e1 e2).
Qed.

Lemma emit_stops_at_throw_witness :
  snd (TypedEmitter.emit second_throws "a" [] (three_listeners second_throws))
  = Throw (Raised JNull).
Proof.
  apply (emit_stops_at_throw second_throws "a" []
           (three_listeners second_throws)
           [TypedEmitter.Fn 1] [TypedEmitter.OnceWrapper 1 "a" 3]
           (TypedEmitter.OnceWrapper 0 "a" 2) (Raised JNull)
           (ex_intro _ _ eq_refl) (three_listeners_registered second_throws)).
  - by repeat constructor.
  - reflexivity.
Defined.

(** ** Headers *)

Lemma same_name_refl (a : string) : Headers.same_name a a = true.
Proof. apply String.eqb_refl. Qed.















(** ** C7: a session aborted before its bootstrap *)

(** Once its abort listener is detached, nothing that happens on a
    session reaches the channels. *)
Lemma detached_step (op : Session.Op) (s : Session.t) :
  Connection.abortListener (Session.connection s) = false ->
  Connection.abortListener (Session.connection (Session.step op s)) = false.
Proof.
  intros Ha.
  assert (Hop : op = Session.Abort \/ op <> Session.Abort)
    by (destruct op; (by left) || (by right)).
  destruct Hop as [->|Hop].
  - cbn [Session.step]. by rewrite Ha.
  - destruct (session_step_no_teardown op s Hop) as (H & _). by rewrite H.
Qed.

Lemma detached_session_ops (session : nat) (ops : list Session.Op)
    (w : World.t) (s : Session.t) :
  World.sessions w !! session = Some s ->
  Connection.abortListener (Session.connection s) = false ->
  World.channels (World.run (map (World.OnSession session) ops) w)
  = World.channels w
  /\ exists s',
       World.sessions (World.run (map (World.OnSession session) ops) w)
       !! session = Some s'
       /\ Connection.abortListener (Session.connection s') = false.
Proof.
  revert w s. induction ops as [|op r IH]; intros w s Hs Ha.
  - split; [done|]. by exists s.
  - cbn [map World.run fold_left].
    assert (Hstep : World.channels (World.step (World.OnSession session op) w)
                    = World.channels w
                    /\ World.sessions (World.step (World.OnSession session op) w)
                       !! session = Some (Session.step op s)).
    { destruct op; cbn [World.step World.channels World.sessions];
        rewrite ?Hs, ?Ha; cbn [World.channels World.sessions];
        rewrite ?lookup_alter_eq, ?Hs; try done.
      cbn [Session.step]. by rewrite Ha. }
    destruct Hstep as [H1 H2].
    destruct (IH (World.step (World.OnSession session op) w) (Session.step op s)
                H2 (detached_step op s Ha)) as [H3 H4].
    split; [|exact H4]. unfold World.run in *. by rewrite H3.
Qed.

(** The world in which a session is aborted before its bootstrap, then
    bootstrapped and registered. *)
Lemma register_after_early_abort (s0 sd s1 : Session.t) :
  Connection.abortListener (Session.connection s0) = true ->
  Session.onceDisconnected s0 = [] ->
  Session.onDisconnected s0 = sd ->
  Session.step Session.RunInitialize sd = s1 ->
  Session.isConnected s1 = true ->
  Session.onceDisconnected s1 = [] ->
  World.run
    [World.OnSession 1 Session.Abort;
     World.OnSession 1 Session.RunInitialize;
     World.Register 0 1]
    {| World.sessions := <[1%nat := s0]> ∅;
       World.channels := <[0%nat := Channel.create]> ∅ |}
  = {| World.sessions :=
         <[1%nat := Session.set_onceDisconnected [0%nat] s1]>
           (<[1%nat := s1]> (<[1%nat := sd]> (<[1%nat := s0]> ∅)));
       World.channels :=
         <[0%nat := Channel.mk [1%nat] [Channel.SessionRegistered 1]]>
           (<[0%nat := Channel.create]> ∅) |}.
Proof.
  intros Hab Ho Hsd Hs1 Hc Ho1.
  unfold World.run. cbn [fold_left].
  set (w3 := World.step (World.OnSession 1 Session.Abort) _).
  assert (E3 : w3 = {| World.sessions := <[1%nat := sd]> (<[1%nat := s0]> ∅);
                       World.channels := <[0%nat := Channel.create]> ∅ |}).
  { subst w3. cbn [World.step World.sessions].
    rewrite lookup_insert_eq, Hab. unfold World.onDisconnected.
    cbn [World.sessions]. rewrite lookup_insert_eq, Ho, Hsd. reflexivity. }
  clearbody w3. subst w3.
  set (w4 := World.step (World.OnSession 1 Session.RunInitialize) _).
  assert (E4 : w4 = {| World.sessions :=
                         <[1%nat := s1]> (<[1%nat := sd]> (<[1%nat := s0]> ∅));
                       World.channels := <[0%nat := Channel.create]> ∅ |}).
  { subst w4. cbn [World.step World.sessions World.channels].
    by rewrite alter_insert_eq, Hs1. }
  clearbody w4. subst w4.
  cbn [World.step]. unfold World.register. cbn [World.channels World.sessions].
  rewrite lookup_insert_eq. unfold Channel.register.
  change (Channel.has 1 Channel.create) with false. cbv iota.
  rewrite lookup_insert_eq, Hc, Ho1. reflexivity.
Qed.

Lemma set_pendingInitialize_fields (x : bool) (s : Session.t) :
  Session.emitted (Session.set_pendingInitialize x s) = Session.emitted s
  /\ Session.onceDisconnected (Session.set_pendingInitialize x s)
     = Session.onceDisconnected s
  /\ Connection.abortListener
       (Session.connection (Session.set_pendingInitialize x s))
     = Connection.abortListener (Session.connection s).
Proof. repeat split. Qed.

(** A session whose abort listener runs before the bootstrap. *)
Lemma early_abort_session (c : Connection.t) (options : Session.Options) :
  exists s1,
    Session.step Session.RunInitialize
      (Session.onDisconnected (Session.create c options)) = s1
    /\ Session.isConnected s1 = true
    /\ Session.emitted s1 = [Session.Disconnected; Session.Connected]
    /\ Session.onceDisconnected s1 = []
    /\ Connection.abortListener (Session.connection s1) = false.
Proof.
  destruct (create_state c options) as (_ & Hp & _ & He0 & _).
  destruct (onDisconnected_state (Session.create c options))
    as (_ & He' & Hp' & _ & _ & Ho' & Ha' & _).
  generalize dependent (Session.create c options). intros s0 Hp He0.
  intros He' Hp' Ho' Ha'.
  generalize dependent (Session.onDisconnected s0). intros sd He' Hp' Ho' Ha'.
  eexists. split; [reflexivity|].
  cbn [Session.step]. rewrite Hp', Hp.
  destruct (initialize_state (Session.set_pendingInitialize false sd))
    as (Hc & _ & _ & _ & He & _ & Hon).
  destruct (initialize_no_teardown (Session.set_pendingInitialize false sd))
    as (Ha & _).
  destruct (set_pendingInitialize_fields false sd) as (F1 & F2 & F3).
  rewrite Hc, He, Hon, Ha, F1, F2, F3, He', He0, Ho', Ha'. done.
Qed.

Lemma world_run_cons (op : World.Op) (ops : list World.Op) (w : World.t) :
  World.run (op :: ops) w = World.run ops (World.step op w).
Proof. reflexivity. Qed.

Lemma new_channel_and_session (c : Connection.t) (options : Session.Options) :
  World.run [World.NewChannel 0; World.NewSession 1 c options] World.empty
  = {| World.sessions := <[1%nat := Session.create c options]> ∅;
       World.channels := <[0%nat := Channel.create]> ∅ |}.
Proof. reflexivity. Qed.

Lemma world_run_app (a b : list World.Op) (w : World.t) :
  World.run (a ++ b) w = World.run b (World.run a w).
Proof. unfold World.run. apply fold_left_app. Qed.

(** C7, at the input where the code departs from it. A session whose
    connection aborts before the scheduled bootstrap has run emits
    "disconnected" and detaches its abort listener; the bootstrap then
    marks it connected, so [register] accepts it. The channel now lists a
    session that has disconnected, [sessionCount] is 1, and whatever
    happens on the session from then on, further abort signals included,
    the channel lists it still: the notification that would deregister it
    has been given before the channel listened. *)
Theorem early_abort_leaves_session_listed (c : Connection.t)
    (options : Session.Options) :
  let w := World.run
             [World.NewChannel 0;
              World.NewSession 1 c options;
              World.OnSession 1 Session.Abort;
              World.OnSession 1 Session.RunInitialize;
              World.Register 0 1] World.empty in
  exists s ch,
    World.sessions w !! 1%nat = Some s
    /\ World.channels w !! 0%nat = Some ch
    /\ Session.emitted s = [Session.Disconnected; Session.Connected]
    /\ Connection.abortListener (Session.connection s) = false
    /\ Channel.activeSessions ch = [1%nat]
    /\ Channel.sessionCount ch = 1%nat
    /\ forall ops : list Session.Op,
         World.channels (World.run (map (World.OnSession 1) ops) w) !! 0%nat
         = Some ch.
Proof.
  intros w. subst w.
  rewrite (world_run_app
             [World.NewChannel 0; World.NewSession 1 c options]
             [World.OnSession 1 Session.Abort;
              World.OnSession 1 Session.RunInitialize;
              World.Register 0 1] World.empty
           : World.run
               [World.NewChannel 0;
                World.NewSession 1 c options;
                World.OnSession 1 Session.Abort;
                World.OnSession 1 Session.RunInitialize;
                World.Register 0 1] World.empty = _).
  rewrite new_channel_and_session.
  destruct (create_state c options) as (_ & _ & Hab & _ & Ho0 & _).
  destruct (early_abort_session c options) as (s1 & Hs1 & Hc & He & Hon & Ha).
  rewrite (register_after_early_abort (Session.create c options)
             (Session.onDisconnected (Session.create c options))
             s1 Hab Ho0 eq_refl Hs1 Hc Hon).
  exists (Session.set_onceDisconnected [0%nat] s1),
         (Channel.mk [1%nat] [Channel.SessionRegistered 1]).
  cbn [World.sessions World.channels].
  split; [apply lookup_insert_eq|]. split; [apply lookup_insert_eq|].
  split; [exact He|]. split; [exact Ha|]. split; [reflexivity|].
  split; [reflexivity|]. intros ops.
  edestruct (detached_session_ops 1 ops) as [H _];
    [| |rewrite H; apply lookup_insert_eq].
  - apply lookup_insert_eq.
  - exact Ha.
Qed.
